(** * forward-summarizer-bot: classifier, summarizer and message store

    A shallow embedding of [classifier.py], [summarizer.py] and
    [database.py].  Python [str] values are lists of Unicode code
    points, Python [int] values are [Z], Python [float] values are the
    binary64 floats of [PrimFloat].  Calls to the completion API, to
    [time.sleep] and to the PostgreSQL connection are threaded through an
    explicit world state; exceptions are values of an error monad. *)

From Stdlib Require Import List ZArith NArith Bool Lia String Ascii.
From Stdlib Require Import Permutation PrimFloat Uint63 DecimalString.
From Stdlib Require DecimalPos DecimalZ.
Import ListNotations.

Local Open Scope Z_scope.
Local Open Scope list_scope.

(* ================================================================= *)
(** ** Python strings *)

(** A [str] is its sequence of code points. *)
Definition str := list N.

(** UTF-8 decoding of the bytes of a source literal. *)
Fixpoint utf8_decode (bs : list N) (need : nat) (acc : N) : str :=
  match bs with
  | [] => []
  | b :: bs' =>
      match need with
      | O =>
          if (b <? 128)%N then b :: utf8_decode bs' 0 0%N
          else if (b <? 224)%N then utf8_decode bs' 1 (b - 192)%N
          else if (b <? 240)%N then utf8_decode bs' 2 (b - 224)%N
          else utf8_decode bs' 3 (b - 240)%N
      | S O => (acc * 64 + (b - 128))%N :: utf8_decode bs' 0 0%N
      | S n => utf8_decode bs' n (acc * 64 + (b - 128))%N
      end
  end.

Fixpoint bytes_of_string (s : string) : list N :=
  match s with
  | EmptyString => []
  | String a s' => N_of_ascii a :: bytes_of_string s'
  end.

(** The [str] denoted by a literal of the source. *)
Definition lit (s : string) : str := utf8_decode (bytes_of_string s) 0 0%N.

(** Code points the source names in character literals: newline, space,
    colon, full stop, exclamation mark, question mark, double quote. *)
Definition nl : N := 10%N.
Definition space : N := 32%N.
Definition colon : N := 58%N.
Definition dot : N := 46%N.
Definition bang : N := 33%N.
Definition qmark : N := 63%N.
Definition dquote : N := 34%N.

(** [a == b] on strings. *)
Fixpoint str_eqb (a b : str) : bool :=
  match a, b with
  | [], [] => true
  | x :: a', y :: b' => (x =? y)%N && str_eqb a' b'
  | _, _ => false
  end.

(** Truth value of a string: the empty string is false. *)
Definition nonempty (s : str) : bool :=
  match s with
  | [] => false
  | _ :: _ => true
  end.

(** [len(s)] as a Python int. *)
Definition len (s : str) : Z := Z.of_nat (List.length s).

(** [s.startswith(p)]. *)
Fixpoint startswith (s p : str) : bool :=
  match p with
  | [] => true
  | c :: p' =>
      match s with
      | [] => false
      | d :: s' => (c =? d)%N && startswith s' p'
      end
  end.

(** [s.endswith(p)]. *)
Definition endswith (s p : str) : bool := startswith (rev s) (rev p).

(** [needle in hay], the substring test. *)
Fixpoint contains (hay needle : str) : bool :=
  startswith hay needle ||
  match hay with
  | [] => false
  | _ :: hay' => contains hay' needle
  end.

(** [str.isspace] on one code point: the characters [str.strip()] and the
    regular expression class [\s] treat as white space. *)
Definition isspace (c : N) : bool :=
  ((9 <=? c) && (c <=? 13) || (28 <=? c) && (c <=? 32) ||
   (c =? 133) || (c =? 160) || (c =? 5760) ||
   (8192 <=? c) && (c <=? 8202) || (c =? 8232) || (c =? 8233) ||
   (c =? 8239) || (c =? 8287) || (c =? 12288))%N.

Fixpoint lstrip (s : str) : str :=
  match s with
  | [] => []
  | c :: s' => if isspace c then lstrip s' else s
  end.

Definition rstrip (s : str) : str := rev (lstrip (rev s)).

(** [s.strip()]. *)
Definition strip (s : str) : str := rstrip (lstrip s).

(** [s.split(sep)] for a one-character separator: every occurrence
    splits, and the result is never empty. *)
Fixpoint split_on (sep : N) (s : str) : list str :=
  match s with
  | [] => [[]]
  | c :: s' =>
      if (c =? sep)%N then [] :: split_on sep s'
      else match split_on sep s' with
           | [] => [[c]]
           | l :: ls => (c :: l) :: ls
           end
  end.

(** [s.split(sep, 1)]: split at the first occurrence only. *)
Fixpoint split1 (sep : N) (s : str) : list str :=
  match s with
  | [] => [[]]
  | c :: s' =>
      if (c =? sep)%N then [[]; s']
      else match split1 sep s' with
           | l :: ls => (c :: l) :: ls
           | [] => [[c]]
           end
  end.

(** [sep.join(parts)]. *)
Fixpoint join (sep : str) (parts : list str) : str :=
  match parts with
  | [] => []
  | [p] => p
  | p :: ps => p ++ sep ++ join sep ps
  end.

(** [x in xs] on a list of strings. *)
Definition str_in (x : str) (xs : list str) : bool := existsb (str_eqb x) xs.

(* ================================================================= *)
(** ** Values, exceptions and the world *)

(** What the completion API does on one call of [messages.create]: it
    answers with the text of the first content block, or the call raises
    [anthropic.RateLimitError], another [anthropic.APIError], or some other
    exception (a malformed answer included). *)
Inductive api_result :=
| Response (text : str)
| RateLimitError
| APIError
| OtherException.

(** The Python values the classifier's retry wrapper hands back: a string,
    or a (category, confidence) tuple. *)
Inductive value :=
| VStr (s : str)
| VPair (category : str) (confidence : float).

(** One row of [messages]. *)
Record message := mkMessage {
  msg_id : Z;
  msg_source_url : option str;
  msg_telegram_link : str;
  msg_summary : str;
  msg_category : str
}.

(** The two tables and the sequence behind [messages.id]. *)
Record tables := mkTables {
  categories : list str;
  messages : list message;
  next_id : Z
}.

(** The world a call runs in: the tables as the open transaction sees
    them, the tables as committed, the number of statements sent over the
    connection, the number of API calls made, and the arguments of the
    [time.sleep] calls in order. *)
Record world := mkWorld {
  working : tables;
  committed : tables;
  db_ops : nat;
  api_calls : nat;
  sleeps : list Z
}.

(** What the program takes from outside: the Python built-ins that are not
    spelled out here ([str.lower], [float]), the store's [LOWER] and the
    order of [ORDER BY name], the answers of the API by call number, prompt
    and [max_tokens], and which statements of the connection fail. *)
Record Env := mkEnv {
  lower : str -> str;
  py_float : str -> option float;
  sql_lower : str -> str;
  name_leb : str -> str -> bool;
  api : nat -> str -> Z -> api_result;
  db_fault : nat -> bool
}.

Inductive exn :=
| StorageUnavailable      (* psycopg2.Error *)
| TypeError               (* a value of the wrong dynamic type *)
| TelegramError.          (* a call of the Telegram API that fails *)

Inductive result (A : Type) :=
| Ok (a : A)
| Raise (e : exn).
Arguments Ok {A} a.
Arguments Raise {A} e.

(** Computations: state passing with exceptions. *)
Definition M (A : Type) : Type := world -> result A * world.

Definition ret {A} (a : A) : M A := fun w => (Ok a, w).

Definition raise {A} (e : exn) : M A := fun w => (Raise e, w).

Definition bind {A B} (m : M A) (k : A -> M B) : M B :=
  fun w =>
    match m w with
    | (Ok a, w') => k a w'
    | (Raise e, w') => (Raise e, w')
    end.

Notation "x <- m ;; k" := (bind m (fun x => k))
  (at level 61, m at next level, right associativity).
Notation "m ;;; k" := (bind m (fun _ => k))
  (at level 61, right associativity).

(** [time.sleep(t)]. *)
Definition sleep (t : Z) : M unit :=
  fun w => (Ok tt, mkWorld (working w) (committed w) (db_ops w)
                           (api_calls w) (sleeps w ++ [t])).

(** [self.client.messages.create(...)] followed by
    [response.content[0].text]; the outcome is matched by the [try] of the
    caller. *)
Definition messages_create (env : Env) (prompt : str) (max_tokens : Z)
  : M api_result :=
  fun w => (Ok (api env (api_calls w) prompt max_tokens),
            mkWorld (working w) (committed w) (db_ops w)
                    (S (api_calls w)) (sleeps w)).

(** What a lost transaction leaves behind: the committed rows, and the
    sequence of [messages.id] where the transaction left it.  A value
    drawn from a sequence is never given back, also when the [INSERT]
    that drew it is not committed. *)
Definition rolled_back (w : world) : tables :=
  mkTables (categories (committed w)) (messages (committed w))
           (next_id (working w)).

(** One round trip on the connection ([cursor()], [execute], [commit]).
    A failing round trip raises and the open transaction is lost: the
    rows that were not committed are never seen again. *)
Definition db_step (env : Env) : M unit :=
  fun w =>
    if db_fault env (db_ops w)
    then (Raise StorageUnavailable,
          mkWorld (rolled_back w) (rolled_back w) (S (db_ops w))
                  (api_calls w) (sleeps w))
    else (Ok tt,
          mkWorld (working w) (committed w) (S (db_ops w))
                  (api_calls w) (sleeps w)).

(** Reading and writing the tables of the open transaction. *)
Definition read_tables : M tables := fun w => (Ok (working w), w).

Definition write_tables (t : tables) : M unit :=
  fun w => (Ok tt, mkWorld t (committed w) (db_ops w) (api_calls w) (sleeps w)).

(** [self.connection.commit()]. *)
Definition commit (env : Env) : M unit :=
  db_step env ;;;
  fun w => (Ok tt, mkWorld (working w) (working w) (db_ops w)
                           (api_calls w) (sleeps w)).

(** [ORDER BY name]: insertion sort under the store's collation. *)
Fixpoint insert_sorted (leb : str -> str -> bool) (x : str) (l : list str)
  : list str :=
  match l with
  | [] => [x]
  | y :: l' => if leb x y then x :: l else y :: insert_sorted leb x l'
  end.

Fixpoint order_by (leb : str -> str -> bool) (l : list str) : list str :=
  match l with
  | [] => []
  | x :: l' => insert_sorted leb x (order_by leb l')
  end.

(* ================================================================= *)
(** ** database.py *)

Module Database.
Section WithEnv.
Variable env : Env.

(** [self.get_cursor()]. *)
Definition get_cursor : M unit := db_step env.

(** [SELECT name FROM categories ORDER BY name]. *)
Definition get_existing_categories : M (list str) :=
  get_cursor ;;;
  db_step env ;;;
  t <- read_tables ;;
  ret (order_by (name_leb env) (categories t)).

(** [SELECT 1 FROM categories WHERE LOWER(name) = LOWER(%s)]. *)
Definition category_exists (category_name : str) : M bool :=
  get_cursor ;;;
  db_step env ;;;
  t <- read_tables ;;
  ret (existsb (fun name => str_eqb (sql_lower env name)
                                    (sql_lower env category_name))
               (categories t)).

(** The [for existing in existing_categories] loop of [add_category]:
    [true] when it leaves through [return False].  The similar-name test
    of the loop only logs a warning. *)
Fixpoint add_category_scan (existing_categories : list str)
                           (category_lower : str) : bool :=
  match existing_categories with
  | [] => false
  | existing :: rest =>
      if str_eqb (lower env existing) category_lower then true
      else add_category_scan rest category_lower
  end.

(** [INSERT INTO categories (name) VALUES (%s) ON CONFLICT (name) DO
    NOTHING]. *)
Definition insert_category (category_name : str) : M unit :=
  db_step env ;;;
  t <- read_tables ;;
  if str_in category_name (categories t) then ret tt
  else write_tables (mkTables (categories t ++ [category_name])
                              (messages t) (next_id t)).

Definition add_category (category_name : str) : M bool :=
  ex <- category_exists category_name ;;
  if ex then ret false
  else
    existing_categories <- get_existing_categories ;;
    let category_lower := lower env category_name in
    if add_category_scan existing_categories category_lower then ret false
    else
      get_cursor ;;;
      insert_category category_name ;;;
      commit env ;;;
      ret true.

(** [SELECT 1 FROM messages WHERE telegram_link = %s OR summary = %s
    LIMIT 1]. *)
Definition _message_exists (telegram_link summary : str) : M bool :=
  get_cursor ;;;
  db_step env ;;;
  t <- read_tables ;;
  ret (existsb (fun m => str_eqb (msg_telegram_link m) telegram_link
                         || str_eqb (msg_summary m) summary)
               (messages t)).

(** [INSERT INTO messages (...) VALUES (...) RETURNING id].  The schema
    is read from a file that is not among the sources: [id] is taken to
    come from a sequence, and no other constraint is assumed, so the
    statement fails only with the connection. *)
Definition insert_message (source_url : option str)
    (telegram_link summary category : str) : M Z :=
  db_step env ;;;
  t <- read_tables ;;
  write_tables (mkTables (categories t)
                  (messages t ++ [mkMessage (next_id t) source_url
                                            telegram_link summary category])
                  (next_id t + 1)) ;;;
  ret (next_id t).

Definition save_message (source_url : option str)
    (telegram_link summary category : str) : M (option Z) :=
  add_category category ;;;
  ex <- _message_exists telegram_link summary ;;
  if ex then ret None
  else
    get_cursor ;;;
    message_id <- insert_message source_url telegram_link summary category ;;
    commit env ;;;
    ret (Some message_id).

End WithEnv.
End Database.

(* ================================================================= *)
(** ** classifier.py *)

Module MessageClassifier.

(** The f-string of [_classify_with_claude]. *)
Definition classification_prompt (categories_str text : str) : str :=
  lit "Твоя задача - классифицировать текст сообщения в одну из существующих категорий или предложить новую.

Существующие категории: "
  ++ categories_str
  ++ lit "

Текст для классификации:
"
  ++ text
  ++ lit "

Подумай пошагово (think step by step):
1. Проанализируй основную тему текста
2. Определи ключевые слова и контекст
3. Сравни с существующими категориями
4. Выбери наиболее подходящую категорию или предложи новую

Примеры классификации:

Пример 1:
Текст: "
  ++ [dquote]
  ++ lit "Новый iPhone 15 получил улучшенную камеру и процессор A17"
  ++ [dquote]
  ++ lit "
Анализ: Речь идет о технологическом продукте, новинке в сфере мобильных устройств
Категория: technology
Уверенность: 0.9

Пример 2:
Текст: "
  ++ [dquote]
  ++ lit "Сегодня президент подписал новый закон о налогах"
  ++ [dquote]
  ++ lit "
Анализ: Политическая новость, касается государственного управления
Категория: news
Уверенность: 0.8

Пример 3:
Текст: "
  ++ [dquote]
  ++ lit "Отличный фильм! Актерская игра на высоте, сюжет захватывающий"
  ++ [dquote]
  ++ lit "
Анализ: Отзыв о кинематографическом произведении, оценка качества
Категория: review
Уверенность: 0.85

Пример 4:
Текст: "
  ++ [dquote]
  ++ lit "Как приготовить идеальную пасту карбонара: секреты от шеф-повара"
  ++ [dquote]
  ++ lit "
Анализ: Кулинарная тематика, рецепты и советы по приготовлению
Категория: cooking
Уверенность: 0.9

Пример 5:
Текст: "
  ++ [dquote]
  ++ lit "Курс доллара вырос на 2%, эксперты прогнозируют дальнейший рост"
  ++ [dquote]
  ++ lit "
Анализ: Финансовая информация, экономические показатели
Категория: finance
Уверенность: 0.85

Теперь классифицируй данный текст:

Анализ: 
Категория: 
Уверенность: ".

(** The f-string of [_check_duplicate_category]. *)
Definition duplicate_prompt (categories_str new_category : str) : str :=
  lit "Проверь, является ли предложенная категория дубликатом уже существующих.

Существующие категории: "
  ++ categories_str
  ++ lit "
Предложенная категория: "
  ++ new_category
  ++ lit "

Проанализируй:
1. Совпадает ли смысл с существующими категориями?
2. Есть ли синонимы или очень похожие по смыслу категории?
3. Стоит ли использовать существующую категорию вместо новой?

Если есть дубликат, верни существующую категорию.
Если дубликата нет, верни предложенную категорию.

Ответ (только название категории):".

Definition s_classification : str := lit "classification".
Definition s_duplicate_check : str := lit "duplicate_check".
Definition s_general : str := lit "general".
Definition s_review : str := lit "review".
Definition s_Category : str := lit "Категория:".
Definition s_Confidence : str := lit "Уверенность:".
Definition s_no_categories : str := lit "нет существующих категорий".

(** Truth value of an optional string: [None] and the empty string are
    false. *)
Definition truthy (o : option str) : bool :=
  match o with
  | Some (_ :: _) => true
  | _ => false
  end.

(** [category, confidence = v]: unpacking anything but a pair raises. *)
Definition unpack (v : value) : M (str * float) :=
  match v with
  | VPair category confidence => ret (category, confidence)
  | VStr _ => raise TypeError
  end.

(** A value used where a string is needed: the callers of
    [classify_message] take its category for a string. *)
Definition as_str (v : value) : M str :=
  match v with
  | VStr s => ret s
  | VPair _ _ => raise TypeError
  end.

Section WithEnv.
Variable env : Env.

Fixpoint _simple_category_match (text : str) (categories : list str)
  : option str :=
  let text_lower := lower env text in
  match categories with
  | [] => None
  | category :: rest =>
      if contains text_lower (lower env category) then Some category
      else _simple_category_match text rest
  end.

(** The body of the [for line in lines] loop of [_parse_claude_response],
    threading [category] and [confidence]; [None] is an exception raised
    inside the outer [try] ([split(':', 1)[1]] out of range). *)
Fixpoint parse_lines (lines : list str) (category : option str)
                     (confidence : float) : option (option str * float) :=
  match lines with
  | [] => Some (category, confidence)
  | line0 :: rest =>
      let line := strip line0 in
      if startswith line s_Category then
        match nth_error (split1 colon line) 1 with
        | Some v => parse_lines rest (Some (strip v)) confidence
        | None => None
        end
      else if startswith line s_Confidence then
        match nth_error (split1 colon line) 1 with
        | Some v =>
            let confidence_str := strip v in
            match py_float env confidence_str with
            | Some f => parse_lines rest category f
            | None => parse_lines rest category 0.5%float
            end
        | None => None
        end
      else parse_lines rest category confidence
  end.

Definition _parse_claude_response (response_text : str) : value :=
  let lines := split_on nl (strip response_text) in
  match parse_lines lines None 0.5%float with
  | Some (category, confidence) =>
      if truthy category
      then VPair (match category with Some c => c | None => [] end) confidence
      else VPair s_general confidence
  | None => VPair s_general 0.5%float
  end.

(** The statements after the loop of [_call_claude_with_retry]. *)
Definition fallback (operation_name : str) : value :=
  if str_eqb operation_name s_classification
  then VPair s_general 0.5%float
  else VStr s_general.

(** The loop of [_call_claude_with_retry] from iteration [attempt] on, with
    [n] iterations of [range(max_retries)] left.  Under
    ["classification"] the parser's result is unpacked inside the [try];
    a result that is no pair raises there and is caught by
    [except Exception] like any other failure. *)
Fixpoint retry_loop (n : nat) (attempt : Z) (prompt : str)
    (parser_func : str -> value) (operation_name : str)
    (max_tokens max_retries : Z) : M value :=
  match n with
  | O => ret (fallback operation_name)
  | S n' =>
      let next := retry_loop n' (attempt + 1) prompt parser_func
                             operation_name max_tokens max_retries in
      let on_error : M value :=
        if attempt <? max_retries - 1
        then sleep (2 ^ attempt) ;;; next
        else ret (fallback operation_name) in
      r <- messages_create env prompt max_tokens ;;
      match r with
      | Response response_text =>
          if str_eqb operation_name s_classification then
            match parser_func response_text with
            | VPair category confidence =>
                if PrimFloat.ltb confidence 0.5%float
                then ret (VPair s_review confidence)
                else ret (VPair category confidence)
            | VStr _ => on_error
            end
          else ret (parser_func response_text)
      | RateLimitError => sleep (2 ^ attempt + 1) ;;; next
      | APIError => on_error
      | OtherException => on_error
      end
  end.

Definition _call_claude_with_retry (prompt : str)
    (parser_func : str -> value) (operation_name : str)
    (max_tokens max_retries : Z) : M value :=
  retry_loop (Z.to_nat max_retries) 0 prompt parser_func operation_name
             max_tokens max_retries.

Definition _classify_with_claude (text : str) (existing_categories : list str)
  : M value :=
  let categories_str :=
    match existing_categories with
    | [] => s_no_categories
    | _ => join (lit ", ") existing_categories
    end in
  let prompt := classification_prompt categories_str text in
  _call_claude_with_retry prompt _parse_claude_response s_classification
                          200 3.

(** The closure [parse_duplicate_response] of
    [_check_duplicate_category]. *)
Definition parse_duplicate_response (new_category : str)
    (existing_categories : list str) (response_text : str) : value :=
  let result_category := strip response_text in
  if str_in (lower env result_category) (map (lower env) existing_categories)
  then VStr result_category
  else VStr new_category.

Definition _check_duplicate_category (new_category : str)
    (existing_categories : list str) : M value :=
  match existing_categories with
  | [] => ret (VStr new_category)
  | _ =>
      let categories_str := join (lit ", ") existing_categories in
      let prompt := duplicate_prompt categories_str new_category in
      _call_claude_with_retry prompt
        (parse_duplicate_response new_category existing_categories)
        s_duplicate_check 50 3
  end.

Definition classify_message (text : str) : M (str * float) :=
  existing_categories <- Database.get_existing_categories env ;;
  let category_match := _simple_category_match text existing_categories in
  if truthy category_match
  then ret (match category_match with Some c => c | None => [] end,
            1.0%float)
  else
    v <- _classify_with_claude text existing_categories ;;
    cc <- unpack v ;;
    let '(category, confidence) := cc in
    if negb (str_in (lower env category)
                    (map (lower env) existing_categories))
    then
      v' <- _check_duplicate_category category existing_categories ;;
      category' <- as_str v' ;;
      ret (category', confidence)
    else ret (category, confidence).

End WithEnv.
End MessageClassifier.

(* ================================================================= *)
(** ** summarizer.py *)

Module TextSummarizer.

(** [str(n)] for a Python int, as the f-string formats it. *)
Definition str_of_int (n : Z) : str :=
  lit (NilZero.string_of_int (Z.to_int n)).

(** The f-string of [summarize_text]. *)
Definition summary_prompt (max_length : Z) (cleaned_text : str) : str :=
  lit "Твоя задача - создать краткое резюме текста на русском языке.

Требования к резюме:
- Максимум "
  ++ str_of_int max_length
  ++ lit " символов
- Сохрани основную идею и ключевые факты
- Используй ясный и понятный язык
- Убери лишние детали, но сохрани суть

Примеры хороших резюме:

Исходный текст: "
  ++ [dquote]
  ++ lit "Apple представила новый iPhone 15 Pro с титановым корпусом, улучшенными камерами и новым процессором A17 Pro. Устройство получило порт USB-C вместо Lightning, что является значительным изменением для пользователей Apple. Цена стартует от 999 долларов."
  ++ [dquote]
  ++ lit "
Резюме: "
  ++ [dquote]
  ++ lit "Apple представила iPhone 15 Pro с титановым корпусом, процессором A17 Pro и портом USB-C. Цена от $999."
  ++ [dquote]
  ++ lit "

Исходный текст: "
  ++ [dquote]
  ++ lit "Исследование показало, что регулярные физические упражнения снижают риск развития сердечно-сосудистых заболеваний на 35%. Ученые наблюдали за 10000 участников в течение 15 лет. Наиболее эффективными оказались кардио-тренировки продолжительностью 30 минут 5 раз в неделю."
  ++ [dquote]
  ++ lit "
Резюме: "
  ++ [dquote]
  ++ lit "Исследование: регулярные кардио-тренировки (30 мин, 5 раз в неделю) снижают риск сердечных заболеваний на 35%."
  ++ [dquote]
  ++ lit "

Исходный текст: "
  ++ [dquote]
  ++ lit "Компания Tesla отчиталась о рекордных продажах электромобилей в третьем квартале 2023 года. Было продано 435,000 автомобилей, что на 27% больше по сравнению с предыдущим кварталом. Илон Маск отметил, что основной рост пришелся на модели Model 3 и Model Y."
  ++ [dquote]
  ++ lit "
Резюме: "
  ++ [dquote]
  ++ lit "Tesla продала рекордные 435,000 электромобилей в Q3 2023 (+27% к предыдущему кварталу), рост за счет Model 3 и Model Y."
  ++ [dquote]
  ++ lit "

Теперь создай резюме для следующего текста:

"
  ++ cleaned_text
  ++ lit "

Резюме:".

(** [s[:k]] for a Python int [k], negative [k] counting from the end. *)
Definition slice_to (s : str) (k : Z) : str :=
  if 0 <=? k then firstn (Z.to_nat k) s
  else firstn (Z.to_nat (len s + k)) s.

(** [s[k:]] for a non-negative [k]. *)
Definition slice_from (s : str) (k : Z) : str := skipn (Z.to_nat k) s.

(** [s[1:-1]]. *)
Definition slice_inner (s : str) : str := removelast (tl s).

(** [s.rfind(c)] for a one-character [c]: the last index, or [-1]. *)
Fixpoint rfind_from (c : N) (s : str) (i best : Z) : Z :=
  match s with
  | [] => best
  | d :: s' => rfind_from c s' (i + 1) (if (d =? c)%N then i else best)
  end.

Definition rfind (s : str) (c : N) : Z := rfind_from c s 0 (-1).

(** [s.rsplit(' ', 1)[0]]. *)
Definition rsplit1_head (s : str) : str :=
  let i := rfind s space in
  if i <? 0 then s else slice_to s i.

(** [re.sub] of a pattern that matches a maximal run of at least [min]
    characters satisfying [p], each match replaced by [repl].  [run] holds
    the run being read, last character first. *)
Definition flush_run (min : nat) (repl run : str) : str :=
  match run with
  | [] => []
  | _ => if (min <=? List.length run)%nat then repl else rev run
  end.

Fixpoint sub_runs_go (p : N -> bool) (min : nat) (repl : str)
                     (s run : str) : str :=
  match s with
  | [] => flush_run min repl run
  | c :: s' =>
      if p c then sub_runs_go p min repl s' (c :: run)
      else flush_run min repl run ++ c :: sub_runs_go p min repl s' []
  end.

Definition sub_runs (p : N -> bool) (min : nat) (repl s : str) : str :=
  sub_runs_go p min repl s [].

(** The forwarding markers of [_clean_text]. *)
Definition markers : list str :=
  [lit "Forwarded from"; lit "Переслано от"; lit "Пересылка от"].

(** [re.sub(r'^(m1|m2|m3).*?\n', '', text, flags=re.MULTILINE)] on the
    lines of [text]: a line that starts with a marker and is ended by a
    newline is deleted with its newline. *)
Fixpoint remove_marker_lines (lines : list str) : str :=
  match lines with
  | [] => []
  | [l] => l
  | l :: rest =>
      if existsb (startswith l) markers then remove_marker_lines rest
      else l ++ nl :: remove_marker_lines rest
  end.

Definition _clean_text (text : str) : str :=
  let text := sub_runs isspace 1 [space] (strip text) in
  let text := remove_marker_lines (split_on nl text) in
  let text := sub_runs (N.eqb dot) 3 (lit "...") text in
  let text := sub_runs (N.eqb bang) 2 [bang] text in
  let text := sub_runs (N.eqb qmark) 2 [qmark] text in
  text.

Definition prefixes : list str :=
  [lit "Резюме:"; lit "Краткое резюме:"; lit "Основная идея:";
   lit "Суть:"; lit "В кратце:"; lit "Вкратце:"].

(** The [for prefix in prefixes] loop of [_clean_summary]. *)
Fixpoint strip_prefix (prefixes : list str) (summary : str) : str :=
  match prefixes with
  | [] => summary
  | prefix :: rest =>
      if startswith summary prefix
      then strip (slice_from summary (len prefix))
      else strip_prefix rest summary
  end.

Definition _clean_summary (summary : str) : str :=
  let summary := strip_prefix prefixes summary in
  if startswith summary [dquote] && endswith summary [dquote]
  then strip (slice_inner summary)
  else summary.

Definition _fallback_summary (text : str) (max_length : Z) : str :=
  if len text <=? max_length then text
  else
    let truncated := slice_to text max_length in
    let last_sentence := rfind truncated dot in
    if max_length / 2 <? last_sentence
    then slice_to truncated (last_sentence + 1)
    else
      let last_space := rfind truncated space in
      if max_length / 2 <? last_space
      then slice_to truncated last_space ++ lit "..."
      else truncated ++ lit "...".

Section WithEnv.
Variable env : Env.

(** The loop of [_call_claude_with_retry] from iteration [attempt] on, with
    [n] iterations of [range(max_retries)] left. *)
Fixpoint retry_loop (n : nat) (attempt : Z) (prompt : str) (max_length : Z)
    (original_text : str) (max_retries : Z) : M str :=
  match n with
  | O => ret (_fallback_summary original_text max_length)
  | S n' =>
      let next := retry_loop n' (attempt + 1) prompt max_length
                             original_text max_retries in
      let on_error : M str :=
        if attempt <? max_retries - 1
        then sleep (2 ^ attempt) ;;; next
        else ret (_fallback_summary original_text max_length) in
      r <- messages_create env prompt 300 ;;
      match r with
      | Response text =>
          let summary := strip text in
          let summary := _clean_summary summary in
          if max_length <? len summary
          then ret (rsplit1_head (slice_to summary max_length) ++ lit "...")
          else ret summary
      | RateLimitError => sleep (2 ^ attempt + 1) ;;; next
      | APIError => on_error
      | OtherException => on_error
      end
  end.

Definition _call_claude_with_retry (prompt : str) (max_length : Z)
    (original_text : str) (max_retries : Z) : M str :=
  retry_loop (Z.to_nat max_retries) 0 prompt max_length original_text
             max_retries.

Definition summarize_text (text : str) (max_length : Z) : M str :=
  if negb (nonempty text) || (len (strip text) <? 50) then ret (strip text)
  else
    let cleaned_text := _clean_text text in
    let prompt := summary_prompt max_length cleaned_text in
    _call_claude_with_retry prompt max_length cleaned_text 3.

End WithEnv.
End TextSummarizer.

(* ================================================================= *)
(** ** Vocabulary of the statements *)

(** No uncommitted work is pending. *)
Definition clean (w : world) : Prop := working w = committed w.

(** The world after [k] successful round trips. *)
Definition ticks (k : nat) (w : world) : world :=
  mkWorld (working w) (committed w) (k + db_ops w) (api_calls w) (sleeps w).

(** The calls to the API and to [sleep] are those of [w]. *)
Definition same_net (w w' : world) : Prop :=
  api_calls w' = api_calls w /\ sleeps w' = sleeps w.

(** The world after one API call, and after one [sleep]. *)
Definition called (w : world) : world :=
  mkWorld (working w) (committed w) (db_ops w) (S (api_calls w)) (sleeps w).

Definition slept (t : Z) (w : world) : world :=
  mkWorld (working w) (committed w) (db_ops w) (api_calls w) (sleeps w ++ [t]).

(** The connection and the tables are those of [w]. *)
Definition same_db (w w' : world) : Prop :=
  working w' = working w /\ committed w' = committed w /\
  db_ops w' = db_ops w.

(** An attempt fails when the call raises. *)
Definition failing (r : api_result) : bool :=
  match r with
  | Response _ => false
  | _ => true
  end.

Definition rate_limited (r : api_result) : bool :=
  match r with
  | RateLimitError => true
  | _ => false
  end.

(** The number of [sleep] calls of a run of [n] attempts that all fail:
    one between two attempts, and one more when the last attempt was
    rate limited. *)
Definition sleeps_when_exhausted (n : nat) (last : api_result) : nat :=
  match n with
  | O => O
  | S m => (m + if rate_limited last then 1 else 0)%nat
  end.

(** The [except] branches of the retry loops that sleep only before a
    further attempt: what they do after the failed call number [attempt],
    with [n] iterations left. *)
Definition classifier_on_error (env : Env) (prompt : str)
    (parser_func : str -> value) (operation_name : str)
    (max_tokens max_retries : Z) (n : nat) (attempt : Z) (w : world)
  : result value * world :=
  if attempt <? max_retries - 1
  then MessageClassifier.retry_loop env n (attempt + 1) prompt parser_func
         operation_name max_tokens max_retries (slept (2 ^ attempt) w)
  else (Ok (MessageClassifier.fallback operation_name), w).

Definition summarizer_on_error (env : Env) (prompt : str) (max_length : Z)
    (original_text : str) (max_retries : Z) (n : nat) (attempt : Z)
    (w : world) : result str * world :=
  if attempt <? max_retries - 1
  then TextSummarizer.retry_loop env n (attempt + 1) prompt max_length
         original_text max_retries (slept (2 ^ attempt) w)
  else (Ok (TextSummarizer._fallback_summary original_text max_length), w).

(** What a read-only query does: it answers from the open transaction, or
    it raises; the committed tables stay, and so does a clean state. *)
Definition read_only {A} (env : Env) (m : M A) (answer : tables -> A)
  : Prop :=
  forall w r w',
    clean w -> m w = (r, w') ->
    clean w' /\ committed w' = committed w /\ same_net w w' /\
    (r = Ok (answer (committed w)) \/
     (r = Raise StorageUnavailable /\ exists n, db_fault env n = true)).

(** The categories case-insensitively equal to [c], for the store and for
    the program. *)
Definition known (env : Env) (c : str) (rows : list str) : bool :=
  existsb (fun name => str_eqb (sql_lower env name) (sql_lower env c)) rows
  || existsb (fun e => str_eqb (lower env e) (lower env c)) rows.

(** Some stored message has the link [l] or the summary [s]. *)
Definition duplicate_of (l s : str) (t : tables) : bool :=
  existsb (fun m => str_eqb (msg_telegram_link m) l
                    || str_eqb (msg_summary m) s)
          (messages t).

(** No two stored categories are equal under the store's [LOWER], and no
    two under [str.lower]: the two case-insensitive comparisons of
    [add_category]. *)
Definition ci_unique (env : Env) (rows : list str) : Prop :=
  NoDup (map (sql_lower env) rows) /\ NoDup (map (lower env) rows).

(** The rows equal to [c] under the case folding [f]. *)
Definition rows_for (f : str -> str) (c : str) (rows : list str) : list str :=
  filter (fun r => str_eqb (f r) (f c)) rows.

(* ================================================================= *)
(** ** Concrete environments for the examples *)

Module Sample.

(** [str.lower] on the Latin and Cyrillic capital letters; other
    characters are left as they are, which is [str.lower] on the names
    and texts of the runs below. *)
Definition lower_char (c : N) : N :=
  if ((65 <=? c) && (c <=? 90))%N then (c + 32)%N
  else if ((1040 <=? c) && (c <=? 1071))%N then (c + 32)%N
  else if ((1024 <=? c) && (c <=? 1039))%N then (c + 80)%N
  else c.

Definition lower_basic (s : str) : str := map lower_char s.

(** Code point order, the order of the [C] collation. *)
Fixpoint codepoint_leb (a b : str) : bool :=
  match a, b with
  | [], _ => true
  | _ :: _, [] => false
  | x :: a', y :: b' =>
      if (x <? y)%N then true
      else if (y <? x)%N then false
      else codepoint_leb a' b'
  end.

(** Digits of a plain decimal numeral: the integer they spell and the
    number of digits after the point. *)
Fixpoint read_digits (s : str) (seen_point : bool) (mant : Z) (frac : Z)
  : option (Z * Z) :=
  match s with
  | [] => Some (mant, frac)
  | c :: s' =>
      if ((48 <=? c) && (c <=? 57))%N
      then read_digits s' seen_point (10 * mant + Z.of_N (c - 48))
                       (if seen_point then frac + 1 else frac)
      else if (c =? dot)%N && negb seen_point
      then read_digits s' true mant frac
      else None
  end.

(** [float] on short plain decimals such as [0.85]: digits with at most
    one point, at least one digit, fewer than 2 ^ 53 as an integer and at
    most 18 decimals.  Both the digits and the power of ten are then
    exact in binary64 and below 2 ^ 63, so the quotient is the correctly
    rounded value, as in Python.  Any other spelling is answered as a
    [ValueError]; Python reads some of them (signs, exponents, longer
    numerals), and no run below has one. *)
Definition float_plain (s : str) : option float :=
  match s with
  | [] => None
  | _ =>
      match read_digits s false 0 0 with
      | Some (mant, frac) =>
          if existsb (fun c => (48 <=? c) && (c <=? 57))%N s
             && (mant <? 2 ^ 53) && (frac <=? 18)
          then Some (PrimFloat.div (PrimFloat.of_uint63 (Uint63.of_Z mant))
                                   (PrimFloat.of_uint63
                                      (Uint63.of_Z (10 ^ frac))))
          else None
      | None => None
      end
  end.

Definition never_fails : nat -> bool := fun _ => false.

(** Only the round trip number [k] fails. *)
Definition fails_at (k : nat) : nat -> bool := fun n => Nat.eqb n k.

(** An API that answers the calls in [script] in order and raises
    [APIError] afterwards. *)
Definition scripted (script : list api_result) : nat -> str -> Z -> api_result :=
  fun n _ _ => nth n script APIError.

Definition env_of (script : list api_result) (faults : nat -> bool) : Env :=
  mkEnv lower_basic float_plain lower_basic codepoint_leb
        (scripted script) faults.

(** The Greek capitals as well. *)
Definition lower_char_greek (c : N) : N :=
  if ((913 <=? c) && (c <=? 937) && negb (c =? 930))%N then (c + 32)%N
  else lower_char c.

(** The Latin, Cyrillic and Greek letters. *)
Definition cased (c : N) : bool :=
  (((65 <=? c) && (c <=? 90)) || ((97 <=? c) && (c <=? 122))
   || ((913 <=? c) && (c <=? 937) && negb (c =? 930))
   || ((945 <=? c) && (c <=? 969))
   || ((1024 <=? c) && (c <=? 1119)))%N.

(** [str.lower] on strings of Latin, Cyrillic and Greek letters, digits
    and spaces: a capital sigma after a letter and not before one becomes
    the final sigma, any other capital its small letter. *)
Fixpoint lower_final_sigma_go (after_cased : bool) (s : str) : str :=
  match s with
  | [] => []
  | c :: s' =>
      (if (c =? 931)%N
       then if after_cased
               && negb match s' with [] => false | d :: _ => cased d end
            then 962%N else 963%N
       else lower_char_greek c)
      :: lower_final_sigma_go (cased c) s'
  end.

Definition lower_final_sigma (s : str) : str := lower_final_sigma_go false s.

(** [LOWER] of a store whose locale folds character by character, as
    [towlower] does: a capital sigma always becomes the small sigma. *)
Definition lower_by_char (s : str) : str := map lower_char_greek s.

(** A working connection, Python's [str.lower] and the [LOWER] of such a
    store. *)
Definition greek_env : Env :=
  mkEnv lower_final_sigma float_plain lower_by_char codepoint_leb
        (scripted []) never_fails.

Definition store_of (cats : list str) (msgs : list message) (next : Z)
  : world :=
  mkWorld (mkTables cats msgs next) (mkTables cats msgs next) 0 0 [].

End Sample.

(** The floats 0.85, 0.3 and 0.9 of the examples, written exactly. *)
Definition f_0_85 : float := 0x1.b333333333333p-1%float.
Definition f_0_3 : float := 0x1.3333333333333p-2%float.
Definition f_0_9 : float := 0x1.ccccccccccccdp-1%float.

Definition technology : str := lit "technology".
Definition news : str := lit "news".
Definition ai_research : str := lit "ai_research".

(** The answer of the scenario, with the labels the parser reads. *)
Definition scenario_response : str :=
  lit "Категория: ai_research" ++ [nl] ++ lit "Уверенность: 0.85".

(** The same answer under the labels [Category:] and [Confidence:]. *)
Definition scenario_response_english : str :=
  lit "Category: ai_research" ++ [nl] ++ lit "Confidence: 0.85".

(** Stores, answers and texts of the concrete runs. *)
Module Runs.
Import Sample.

Definition tech_store : world := store_of [technology] [] 1.
Definition tech_news_store : world := store_of [technology; news] [] 1.

(** Answers of the API in the runs below. *)
Definition answer_ai_research : api_result := Response scenario_response.
Definition answer_uncertain : api_result :=
  Response (lit "Категория: uncertain" ++ [nl] ++ lit "Уверенность: 0.3").
Definition answer_tech : api_result :=
  Response (lit "Категория: tech" ++ [nl] ++ lit "Уверенность: 0.9").
Definition answer_greeting : api_result :=
  Response (lit "Категория: greeting" ++ [nl] ++ lit "Уверенность: 0.9").

Definition healthcare_text : str :=
  lit "Advanced AI systems are revolutionizing healthcare".

(** A working connection and an API that only raises [APIError]. *)
Definition quiet_env : Env := env_of [] never_fails.

End Runs.

(* ================================================================= *)
(** ** bot.py *)

Module Bot.

(** One [MessageEntity]: its type, offset and length. *)
Record entity := mkEntity {
  ent_type : str;
  ent_offset : Z;
  ent_length : Z
}.

(** What the handler reads of a Telegram message: whether [forward_from]
    and [forward_from_chat] are set, the text ([None] when absent), the
    entities ([None] as the empty list), [chat.id] and [message_id]. *)
Record tg_message := mkTgMessage {
  tg_forward_from : bool;
  tg_forward_from_chat : bool;
  tg_text : option str;
  tg_entities : list entity;
  tg_chat_id : Z;
  tg_message_id : Z
}.

(** An index of a slice, brought into [0, n] as Python does. *)
Definition clamp_index (n i : Z) : Z :=
  if i <? 0 then Z.max 0 (i + n) else Z.min i n.

(** [s[a:b]]. *)
Definition slice (s : str) (a b : Z) : str :=
  let a' := clamp_index (len s) a in
  let b' := clamp_index (len s) b in
  firstn (Z.to_nat (b' - a')) (skipn (Z.to_nat a') s).

(** The [for entity in message.entities] loop of
    [extract_url_from_message]. *)
Fixpoint first_url_entity (text : str) (entities : list entity)
  : option str :=
  match entities with
  | [] => None
  | e :: rest =>
      if str_eqb (ent_type e) (lit "url")
      then Some (slice text (ent_offset e) (ent_offset e + ent_length e))
      else first_url_entity text rest
  end.

Fixpoint take_while (p : N -> bool) (s : str) : str :=
  match s with
  | [] => []
  | c :: s' => if p c then c :: take_while p s' else []
  end.

(** The pattern [https?://[^\s]+] matched at the head of [s]. *)
Definition match_url_at (s : str) : option str :=
  let nonspace := fun c => negb (isspace c) in
  let after (scheme : str) : option str :=
    match take_while nonspace (skipn (List.length scheme) s) with
    | [] => None
    | tail => Some (scheme ++ tail)
    end in
  if startswith s (lit "https://") then after (lit "https://")
  else if startswith s (lit "http://") then after (lit "http://")
  else None.

(** [re.findall(url_pattern, text)[0]], the leftmost match, or [None]. *)
Fixpoint find_url (s : str) : option str :=
  match match_url_at s with
  | Some u => Some u
  | None =>
      match s with
      | [] => None
      | _ :: s' => find_url s'
      end
  end.

(** [extract_url_from_message]; a message without text makes the
    subscript or [re.findall] raise. *)
Definition extract_url_from_message (message : tg_message)
  : M (option str) :=
  match tg_text message with
  | None => raise TypeError
  | Some text =>
      match first_url_entity text (tg_entities message) with
      | Some u => ret (Some u)
      | None => ret (find_url text)
      end
  end.

Definition generate_telegram_link (message : tg_message) : str :=
  let chat_id := TextSummarizer.str_of_int (tg_chat_id message) in
  let chat_id :=
    if startswith chat_id (lit "-100") then skipn 4 chat_id else chat_id in
  lit "https://t.me/c/" ++ chat_id ++ lit "/"
  ++ TextSummarizer.str_of_int (tg_message_id message).

(** The three replies of the handler. *)
Definition success_reply (summary category : str) (source_url : option str)
  : str :=
  lit "‚úÖ –°–æ–æ–±—â–µ–Ω–∏–µ –æ–±—Ä–∞–±–æ—Ç–∞–Ω–æ" ++ [nl]
  ++ lit "üìù –†–µ–∑—é–º–µ: " ++ summary ++ [nl]
  ++ lit "üè∑Ô∏è –ö–∞—Ç–µ–≥–æ—Ä–∏—è: " ++ category ++ [nl]
  ++ lit "üîó –ò—Å—Ç–æ—á–Ω–∏–∫: "
  ++ match source_url with
     | Some (c :: u) => c :: u
     | _ => lit "–Ω–µ –Ω–∞–π–¥–µ–Ω"
     end.

Definition duplicate_reply : str :=
  lit "‚ö†Ô∏è –°–æ–æ–±—â–µ–Ω–∏–µ —É–∂–µ –±—ã–ª–æ –æ–±—Ä–∞–±–æ—Ç–∞–Ω–æ —Ä–∞–Ω–µ–µ".

Definition error_reply : str :=
  lit "‚ùå –û—à–∏–±–∫–∞ –ø—Ä–∏ –æ–±—Ä–∞–±–æ—Ç–∫–µ —Å–æ–æ–±—â–µ–Ω–∏—è".

(** The chat as the handler leaves it: the texts that [reply_text] has
    delivered, in order, and the number of [reply_text] calls made. *)
Record chat := mkChat {
  sent : list str;
  reply_calls : nat
}.

(** The handler runs on the world and on the chat. *)
Definition H (A : Type) : Type := world * chat -> result A * (world * chat).

Definition hret {A} (a : A) : H A := fun s => (Ok a, s).

Definition hbind {A B} (m : H A) (k : A -> H B) : H B :=
  fun s =>
    match m s with
    | (Ok a, s') => k a s'
    | (Raise e, s') => (Raise e, s')
    end.

(** A step that does not touch the chat. *)
Definition lift {A} (m : M A) : H A :=
  fun s => let (r, w') := m (fst s) in (r, (w', snd s)).

(** [try: body except Exception: handler]. *)
Definition try_except {A} (body : H A) (handler : exn -> H A) : H A :=
  fun s =>
    match body s with
    | (Ok a, s') => (Ok a, s')
    | (Raise e, s') => handler e s'
    end.

Section WithEnv.
Variable env : Env.

(** Which calls of [reply_text] fail, by call number. *)
Variable reply_fault : nat -> bool.

(** [await message.reply_text(text)]: the text is delivered, or the call
    raises and nothing is delivered. *)
Definition reply_text (text : str) : H unit :=
  fun s =>
    let c := snd s in
    if reply_fault (reply_calls c)
    then (Raise TelegramError,
          (fst s, mkChat (sent c) (S (reply_calls c))))
    else (Ok tt, (fst s, mkChat (sent c ++ [text]) (S (reply_calls c)))).

(** The [try] block of [handle_forwarded_message] up to the reply: the
    work on the store and the API, and the text passed to
    [message.reply_text]. *)
Definition process_message (message : tg_message) (text : str) : M str :=
  source_url <- extract_url_from_message message ;;
  let telegram_link := generate_telegram_link message in
  summary <- TextSummarizer.summarize_text env text 200 ;;
  cc <- MessageClassifier.classify_message env text ;;
  let '(category, confidence) := cc in
  message_id <- Database.save_message env source_url telegram_link summary
                  category ;;
  match message_id with
  | Some id =>
      if id =? 0 then ret duplicate_reply
      else ret (success_reply summary category source_url)
  | None => ret duplicate_reply
  end.

(** [handle_forwarded_message].  The reply of the [try] block is sent
    inside the block, after the commit; the [except] branch sends the
    error notice, and what that call raises leaves the handler. *)
Definition handle_forwarded_message (message : tg_message) : H unit :=
  if negb (tg_forward_from message || tg_forward_from_chat message)
  then hret tt
  else
    match tg_text message with
    | Some (c :: t) =>
        try_except
          (hbind (lift (process_message message (c :: t))) reply_text)
          (fun _ => reply_text error_reply)
    | _ => hret tt
    end.

End WithEnv.
End Bot.

(* ================================================================= *)
(** ** init_db.py *)

Module InitDb.
Section WithEnv.
Variable env : Env.

(** One [psycopg2.connect] followed by [conn.close()]: [false] when the
    connection raises [OperationalError].  The fault schedule of the
    environment says which attempts fail. *)
Definition connect_attempt : M bool :=
  fun w => (Ok (negb (db_fault env (db_ops w))),
            mkWorld (working w) (committed w) (S (db_ops w))
                    (api_calls w) (sleeps w)).

(** The loop of [wait_for_postgres] with [n] iterations left. *)
Fixpoint wait_loop (n : nat) : M bool :=
  match n with
  | O => ret false
  | S n' =>
      connected <- connect_attempt ;;
      if connected then ret true
      else sleep 2 ;;; wait_loop n'
  end.

Definition wait_for_postgres : M bool := wait_loop 30.

End WithEnv.
End InitDb.

(* ================================================================= *)
(** ** Vocabulary of the further statements *)

(** The waits of a back-off that starts at iteration [attempt]: the wait
    after iteration [j] lasts [2 ^ j] seconds, or one more. *)
Fixpoint backoff_from (attempt : Z) (waits : list Z) : Prop :=
  match waits with
  | [] => True
  | t :: rest =>
      (t = 2 ^ attempt \/ t = 2 ^ attempt + 1) /\
      backoff_from (attempt + 1) rest
  end.

(** Every white-space character of [s] is the ordinary space. *)
Definition only_plain_spaces (s : str) : Prop :=
  Forall (fun c => isspace c = true -> c = space) s.

(** No two messages share a link, and no two share a summary. *)
Definition messages_unique (t : tables) : Prop :=
  NoDup (map msg_telegram_link (messages t)) /\
  NoDup (map msg_summary (messages t)).

(** Every identifier in use lies below the next one of the sequence. *)
Definition ids_below_next (t : tables) : Prop :=
  Forall (fun m => msg_id m < next_id t) (messages t).

(* ================================================================= *)
(** ** Facts about strings and sorting *)

Lemma str_eqb_refl (a : str) : str_eqb a a = true.
Proof.
  induction a as [|x a IH]; simpl; [reflexivity|].
  now rewrite N.eqb_refl, IH.
Qed.

Lemma str_eqb_eq (a b : str) : str_eqb a b = true <-> a = b.
Proof.
  split.
  - revert b; induction a as [|x a IH]; intros [|y b] H; simpl in H;
      try discriminate; [reflexivity|].
    apply andb_true_iff in H as [Hx Hab].
    apply N.eqb_eq in Hx. now rewrite Hx, (IH b Hab).
  - intros ->. apply str_eqb_refl.
Qed.

Lemma str_eqb_neq (a b : str) : str_eqb a b = false <-> a <> b.
Proof.
  rewrite <- str_eqb_eq. destruct (str_eqb a b); intuition congruence.
Qed.

Lemma str_in_In (x : str) (xs : list str) : str_in x xs = true <-> In x xs.
Proof.
  unfold str_in. rewrite existsb_exists. split.
  - intros [y [Hy He]]. apply str_eqb_eq in He. now subst.
  - intros H. exists x. split; [assumption | apply str_eqb_refl].
Qed.

Lemma str_in_not_In (x : str) (xs : list str) :
  str_in x xs = false <-> ~ In x xs.
Proof.
  rewrite <- str_in_In. destruct (str_in x xs); intuition congruence.
Qed.

Lemma insert_sorted_perm leb x l : Permutation (insert_sorted leb x l) (x :: l).
Proof.
  induction l as [|y l IH]; simpl; [constructor; constructor|].
  destruct (leb x y); [reflexivity|].
  rewrite IH. apply perm_swap.
Qed.

Lemma order_by_perm leb l : Permutation (order_by leb l) l.
Proof.
  induction l as [|x l IH]; simpl; [constructor|].
  rewrite insert_sorted_perm. now constructor.
Qed.

Lemma existsb_perm {A} (f : A -> bool) (l l' : list A) :
  Permutation l l' -> existsb f l = existsb f l'.
Proof.
  induction 1; simpl; try congruence.
  - now rewrite !orb_assoc, (orb_comm (f y)).
Qed.

Lemma order_by_In leb l x : In x (order_by leb l) <-> In x l.
Proof.
  split; apply Permutation_in; [|symmetry]; apply order_by_perm.
Qed.

Lemma strip_empty_short (text : str) : strip text = [] -> len (strip text) < 50.
Proof. intros ->. reflexivity. Qed.

(* ================================================================= *)
(** ** The summarizer's short-input bypass *)

(** C10: when the stripped input is empty or has fewer than 50
    characters, [summarize_text] returns the stripped input and leaves the
    world as it found it: no API call and no sleep, whatever
    [max_length] is. *)
Theorem summarize_text_short_bypass (env : Env) (text : str) (max_length : Z)
    (w : world) :
  strip text = [] \/ len (strip text) < 50 ->
  TextSummarizer.summarize_text env text max_length w = (Ok (strip text), w).
Proof.
  intros H.
  assert (Hlt : (len (strip text) <? 50) = true).
  { apply Z.ltb_lt. destruct H as [H|H]; [now apply strip_empty_short|easy]. }
  unfold TextSummarizer.summarize_text. rewrite Hlt, orb_true_r. reflexivity.
Qed.

Lemma summarize_text_short_bypass_witness :
  len (strip (lit "  Short note.  ")) < 50 /\
  TextSummarizer.summarize_text (Sample.env_of [] Sample.never_fails)
    (lit "  Short note.  ") 10 (Sample.store_of [] [] 1)
  = (Ok (strip (lit "  Short note.  ")), Sample.store_of [] [] 1).
Proof.
  split; [vm_compute; reflexivity|].
  apply (summarize_text_short_bypass (Sample.env_of [] Sample.never_fails)
           (lit "  Short note.  ") 10 (Sample.store_of [] [] 1)).
  right. vm_compute. reflexivity.
Defined.

(* ================================================================= *)
(** ** The message store *)

Ltac run_eq :=
  let Hrun := fresh "Hrun" in
  intros Hrun; inversion Hrun; subst; clear Hrun.

Ltac finish :=
  unfold same_net, clean in *;
  repeat match goal with H : _ /\ _ |- _ => destruct H end;
  repeat split; try congruence; eauto;
  try (left; repeat split; solve [congruence | eauto]);
  try (right; left; repeat split; solve [congruence | eauto]);
  try (right; right; repeat split; solve [congruence | eauto]).

Lemma tables_eta (t : tables) :
  mkTables (categories t) (messages t) (next_id t) = t.
Proof. now destruct t. Qed.

(** With no pending work, a lost transaction loses nothing. *)
Lemma rolled_back_clean (w : world) : clean w -> rolled_back w = committed w.
Proof.
  unfold clean, rolled_back. intros ->. apply tables_eta.
Qed.

Section DatabaseFacts.
Variable env : Env.

Lemma db_step_cases (w : world) :
  (db_fault env (db_ops w) = false /\ db_step env w = (Ok tt, ticks 1 w)) \/
  (db_fault env (db_ops w) = true /\
   db_step env w =
     (Raise StorageUnavailable,
      mkWorld (rolled_back w) (rolled_back w) (S (db_ops w)) (api_calls w)
              (sleeps w))).
Proof.
  unfold db_step, ticks. destruct (db_fault env (db_ops w)); auto.
Qed.

Ltac db_case w :=
  destruct (db_step_cases w) as [[? ->] | [? ->]]; simpl.

Lemma query_read_only {A} (answer : tables -> A) :
  read_only env (db_step env ;;; db_step env ;;; t <- read_tables ;; ret (answer t))
            answer.
Proof.
  intros w r w' Hc. unfold bind, read_tables, ret, clean, same_net in *.
  db_case w; [db_case (ticks 1 w)|]; intros [= <- <-];
    unfold rolled_back; simpl; rewrite ?Hc, ?tables_eta; eauto 8.
Qed.

Lemma get_existing_categories_read_only :
  read_only env (Database.get_existing_categories env)
            (fun t => order_by (name_leb env) (categories t)).
Proof. apply query_read_only. Qed.

Lemma category_exists_read_only (c : str) :
  read_only env (Database.category_exists env c)
            (fun t => existsb (fun name => str_eqb (sql_lower env name)
                                                   (sql_lower env c))
                              (categories t)).
Proof. apply (query_read_only (fun t => existsb _ (categories t))). Qed.

Lemma message_exists_read_only (l s : str) :
  read_only env (Database._message_exists env l s)
            (fun t => existsb (fun m => str_eqb (msg_telegram_link m) l
                                        || str_eqb (msg_summary m) s)
                              (messages t)).
Proof. apply (query_read_only (fun t => existsb _ (messages t))). Qed.

Lemma add_category_scan_existsb (l : list str) (cl : str) :
  Database.add_category_scan env l cl
  = existsb (fun e => str_eqb (lower env e) cl) l.
Proof.
  induction l as [|e l IH]; simpl; [reflexivity|].
  destruct (str_eqb (lower env e) cl); simpl; auto.
Qed.

(** [add_category] in every case: it raises and commits nothing, or it
    answers [False] and commits nothing, or it answers [True] and has
    committed exactly the new row. *)
Lemma add_category_cases (c : str) (w : world) r w' :
  clean w -> Database.add_category env c w = (r, w') ->
  clean w' /\ same_net w w' /\
  ((r = Raise StorageUnavailable /\ committed w' = committed w /\
    exists n, db_fault env n = true) \/
   (r = Ok false /\ committed w' = committed w /\
    known env c (categories (committed w)) = true) \/
   (r = Ok true /\ known env c (categories (committed w)) = false /\
    committed w' = mkTables (categories (committed w) ++ [c])
                            (messages (committed w))
                            (next_id (committed w)))).
Proof.
  intros Hc. unfold Database.add_category.
  unfold bind at 1.
  destruct (Database.category_exists env c w) as [r1 w1] eqn:E1.
  destruct (category_exists_read_only c w r1 w1 Hc E1)
    as (Hc1 & Hk1 & Hn1 & [-> | [-> Hf1]]).
  2:{ intros [= <- <-]. auto 7. }
  unfold known.
  destruct (existsb _ (categories (committed w))) eqn:Ex1.
  { intros [= <- <-]. simpl. intuition congruence. }
  unfold bind at 1.
  destruct (Database.get_existing_categories env w1) as [r2 w2] eqn:E2.
  destruct (get_existing_categories_read_only w1 r2 w2 Hc1 E2)
    as (Hc2 & Hk2 & Hn2 & [-> | [-> Hf2]]).
  2:{ intros [= <- <-]. rewrite Hk2, Hk1. unfold same_net in *.
      finish. }
  rewrite add_category_scan_existsb.
  rewrite (existsb_perm _ _ _ (order_by_perm (name_leb env) _)).
  rewrite Hk1. simpl.
  destruct (existsb (fun e => str_eqb (lower env e) (lower env c))
                    (categories (committed w))) eqn:Ex2.
  { unfold ret. cbv beta. intros [= <- <-]. rewrite Hk2, Hk1. unfold same_net in *.
    intuition congruence. }
  assert (Hnotin : str_in c (categories (committed w)) = false).
  { apply str_in_not_In. intros Hin.
    assert (existsb (fun e => str_eqb (lower env e) (lower env c))
                    (categories (committed w)) = true) as Hx.
    { apply existsb_exists. exists c. split; [assumption|apply str_eqb_refl]. }
    congruence. }
  unfold Database.get_cursor, Database.insert_category, commit, bind,
    read_tables, write_tables, ret, clean, same_net in *.
  db_case w2;
    [|run_eq; unfold rolled_back; simpl;
      rewrite ?Hc2, ?Hk2, ?Hk1, ?tables_eta; finish].
  db_case (ticks 1 w2);
    [|run_eq; unfold rolled_back; simpl;
      rewrite ?Hc2, ?Hk2, ?Hk1, ?tables_eta; finish].
  rewrite Hc2, Hk2, Hk1, Hnotin. simpl.
  unfold db_step. simpl.
  destruct (db_fault env (S (S (db_ops w2)))) eqn:Ef;
    run_eq; unfold rolled_back; simpl;
    rewrite ?Hk2, ?Hk1, ?Hc2, ?tables_eta; finish.
Qed.


Ltac failed_save :=
  left; split; [congruence|]; split; [congruence|]; split; [lia | eauto].

(** [save_message] in every case.  The category table is the old one, or
    the old one with [c] appended; the message table is the old one unless
    the call returns an identifier; a call that fails may have drawn a
    value from the sequence. *)
Lemma save_message_cases (url : option str) (l s c : str) (w : world) r w' :
  clean w -> Database.save_message env url l s c w = (r, w') ->
  clean w' /\ same_net w w' /\
  (categories (committed w') = categories (committed w) \/
   (known env c (categories (committed w)) = false /\
    categories (committed w') = categories (committed w) ++ [c])) /\
  ((r = Raise StorageUnavailable /\
    messages (committed w') = messages (committed w) /\
    next_id (committed w) <= next_id (committed w')
    <= next_id (committed w) + 1 /\
    exists n, db_fault env n = true) \/
   (r = Ok None /\ duplicate_of l s (committed w) = true /\
    messages (committed w') = messages (committed w) /\
    next_id (committed w') = next_id (committed w)) \/
   (r = Ok (Some (next_id (committed w))) /\
    duplicate_of l s (committed w) = false /\
    messages (committed w')
    = messages (committed w)
      ++ [mkMessage (next_id (committed w)) url l s c] /\
    next_id (committed w') = next_id (committed w) + 1)).
Proof.
  intros Hc. unfold Database.save_message.
  unfold bind at 1.
  destruct (Database.add_category env c w) as [r1 w1] eqn:E1.
  destruct (add_category_cases c w r1 w1 Hc E1) as (Hc1 & Hn1 & Hcases).
  assert (Hcats : categories (committed w1) = categories (committed w) \/
                  (known env c (categories (committed w)) = false /\
                   categories (committed w1)
                   = categories (committed w) ++ [c])).
  { destruct Hcases as [(_ & -> & _) | [(_ & -> & _) | (_ & Hk & ->)]]; auto. }
  assert (Hmsgs : messages (committed w1) = messages (committed w) /\
                  next_id (committed w1) = next_id (committed w)).
  { destruct Hcases as [(_ & -> & _) | [(_ & -> & _) | (_ & Hk & ->)]]; auto. }
  destruct Hmsgs as [Hm1 Hi1].
  destruct r1 as [b|e].
  2:{ destruct Hcases as [(He & Hk & Hf) | [(He & _) | (He & _)]];
        try discriminate He.
      run_eq. split; [assumption|]. split; [assumption|].
      split; [assumption|]. failed_save. }
  clear Hcases.
  unfold bind at 1.
  destruct (Database._message_exists env l s w1) as [r2 w2] eqn:E2.
  destruct (message_exists_read_only l s w1 r2 w2 Hc1 E2)
    as (Hc2 & Hk2 & Hn2 & [-> | [-> Hf2]]).
  2:{ unfold same_net in *. run_eq. rewrite Hk2.
      split; [assumption|]. split; [intuition congruence|].
      split; [assumption|]. failed_save. }
  fold (duplicate_of l s (committed w1)).
  assert (Hdup : duplicate_of l s (committed w1) = duplicate_of l s (committed w)).
  { unfold duplicate_of. now rewrite Hm1. }
  rewrite Hdup.
  destruct (duplicate_of l s (committed w)) eqn:Ed.
  { unfold ret, same_net in *. run_eq. rewrite Hk2. finish. }
  unfold Database.get_cursor, Database.insert_message, commit, bind,
    read_tables, write_tables, ret, clean, same_net in *.
  db_case w2;
    [|run_eq; unfold rolled_back; simpl;
      rewrite ?Hc2, ?Hk2, ?Hm1, ?Hi1;
      (split; [reflexivity|]);
      (split; [intuition congruence|]); (split; [exact Hcats|]);
      failed_save].
  db_case (ticks 1 w2);
    [|run_eq; unfold rolled_back; simpl;
      rewrite ?Hc2, ?Hk2, ?Hm1, ?Hi1;
      (split; [reflexivity|]);
      (split; [intuition congruence|]); (split; [exact Hcats|]);
      failed_save].
  unfold db_step. simpl.
  destruct (db_fault env (S (S (db_ops w2)))) eqn:Ef;
    run_eq; unfold rolled_back; simpl;
    rewrite ?Hc2, ?Hk2, ?Hm1, ?Hi1;
    (split; [reflexivity|]);
      (split; [intuition congruence|]); (split; [exact Hcats|]).
  - failed_save.
  - right. right. repeat split; congruence.
Qed.

(** An existing record with the link or with the summary makes
    [duplicate_of] true. *)
Lemma duplicate_of_true (l s : str) (t : tables) :
  (exists m, In m (messages t) /\
             (msg_telegram_link m = l \/ msg_summary m = s)) ->
  duplicate_of l s t = true.
Proof.
  intros (m & Hin & Hm). unfold duplicate_of. apply existsb_exists.
  exists m. split; [assumption|].
  apply orb_true_iff. destruct Hm as [<- | <-]; [left|right];
    apply str_eqb_refl.
Qed.

(** A duplicate is not saved: the call answers [None] or raises, the
    committed messages stay, and without faults the answer is [None]. *)
Lemma save_message_duplicate_run (url : option str) (l s c : str) (w : world) :
  clean w -> duplicate_of l s (committed w) = true ->
  exists r w',
    Database.save_message env url l s c w = (r, w') /\
    (r = Ok None \/ r = Raise StorageUnavailable) /\
    messages (committed w') = messages (committed w) /\
    clean w' /\
    ((forall n, db_fault env n = false) -> r = Ok None).
Proof.
  intros Hc Hd.
  destruct (Database.save_message env url l s c w) as [r w'] eqn:E.
  exists r, w'. split; [reflexivity|].
  destruct (save_message_cases url l s c w r w' Hc E)
    as (Hc' & _ & _ & [(-> & Hm & _ & n & Hn) | [(-> & _ & Hm & _) |
                                                  (_ & Hd' & _)]]).
  - repeat split; auto. intros Hnf. rewrite Hnf in Hn. discriminate.
  - repeat split; auto.
  - congruence.
Qed.


(** C3: when a committed record already has the link [l], or the summary
    [s] (whatever its link), [save_message] returns no identifier and
    commits no message row.  The answer is the value [None], told apart
    from a failure, which is a raised exception; with a working connection
    the call does not fail. *)
Theorem save_message_rejects_duplicate (url : option str) (l s c : str)
    (w : world) :
  clean w ->
  (exists m, In m (messages (committed w)) /\
             (msg_telegram_link m = l \/ msg_summary m = s)) ->
  exists r w',
    Database.save_message env url l s c w = (r, w') /\
    (r = Ok None \/ r = Raise StorageUnavailable) /\
    messages (committed w') = messages (committed w) /\
    ((forall n, db_fault env n = false) -> r = Ok None).
Proof.
  intros Hc Hex.
  destruct (save_message_duplicate_run url l s c w Hc
              (duplicate_of_true l s (committed w) Hex))
    as (r & w' & E & Hr & Hm & _ & Hnf).
  exists r, w'. auto.
Qed.

(** After a call that saved a message, a second call with the same link,
    or with the same summary under another link, saves nothing. *)
Lemma save_message_twice (u1 u2 : option str) (l1 s1 c1 l2 s2 c2 : str)
    (w w1 : world) (id : Z) :
  clean w ->
  Database.save_message env u1 l1 s1 c1 w = (Ok (Some id), w1) ->
  l2 = l1 \/ s2 = s1 ->
  exists r w2,
    Database.save_message env u2 l2 s2 c2 w1 = (r, w2) /\
    (r = Ok None \/ r = Raise StorageUnavailable) /\
    messages (committed w2) = messages (committed w1) /\
    ((forall n, db_fault env n = false) -> r = Ok None).
Proof.
  intros Hc E1 Heq.
  destruct (save_message_cases u1 l1 s1 c1 w _ _ Hc E1)
    as (Hc1 & _ & _ & [(He & _) | [(He & _) | (He & _ & Hm & _)]]);
    try discriminate He.
  assert (Hd : duplicate_of l2 s2 (committed w1) = true).
  { apply duplicate_of_true.
    exists (mkMessage (next_id (committed w)) u1 l1 s1 c1). split.
    - rewrite Hm. apply in_or_app. right. now left.
    - simpl. destruct Heq; [left|right]; congruence. }
  destruct (save_message_duplicate_run u2 l2 s2 c2 w1 Hc1 Hd)
    as (r & w2 & E & Hr & Hm2 & _ & Hnf).
  exists r, w2. auto.
Qed.

(** C9, as the code has it: a [save_message] call that fails commits no
    message row, but the category row that its first step inserts may
    already be committed; no other row changes. *)
Theorem save_message_failure_commits_no_message (url : option str)
    (l s c : str) (w w' : world) (e : exn) :
  clean w ->
  Database.save_message env url l s c w = (Raise e, w') ->
  e = StorageUnavailable /\
  clean w' /\
  messages (committed w') = messages (committed w) /\
  (categories (committed w') = categories (committed w) \/
   (known env c (categories (committed w)) = false /\
    categories (committed w') = categories (committed w) ++ [c])).
Proof.
  intros Hc E.
  destruct (save_message_cases url l s c w _ _ Hc E)
    as (Hc' & _ & Hcats & [(He & Hm & Hi & _) | [(He & _) | (He & _)]]);
    try discriminate He.
  injection He as ->. auto.
Qed.

End DatabaseFacts.

Lemma save_message_rejects_duplicate_witness :
  exists r w',
    Database.save_message (Sample.env_of [] Sample.never_fails)
      (Some (lit "https://example.com/b")) (lit "https://t.me/c/1/8")
      (lit "Same summary") (lit "news")
      (Sample.store_of [lit "news"]
         [mkMessage 1 None (lit "https://t.me/c/1/7") (lit "Same summary")
                    (lit "news")] 2)
    = (r, w') /\
    (r = Ok None \/ r = Raise StorageUnavailable) /\
    messages (committed w')
    = [mkMessage 1 None (lit "https://t.me/c/1/7") (lit "Same summary")
                 (lit "news")] /\
    ((forall n, Sample.never_fails n = false) -> r = Ok None).
Proof.
  apply (save_message_rejects_duplicate (Sample.env_of [] Sample.never_fails)
           (Some (lit "https://example.com/b")) (lit "https://t.me/c/1/8")
           (lit "Same summary") (lit "news")
           (Sample.store_of [lit "news"]
              [mkMessage 1 None (lit "https://t.me/c/1/7")
                         (lit "Same summary") (lit "news")] 2)).
  - reflexivity.
  - exists (mkMessage 1 None (lit "https://t.me/c/1/7") (lit "Same summary")
                      (lit "news")).
    simpl. split; [left; reflexivity | right; reflexivity].
Defined.

(** C9 as stated fails: the round trip that opens the cursor of
    [_message_exists] fails, after [add_category] has committed the new
    category. *)
Lemma save_message_failure_keeps_category :
  exists w',
    Database.save_message (Sample.env_of [] (Sample.fails_at 7)) None
      (lit "https://t.me/c/1/7") (lit "A summary") (lit "technology")
      (Sample.store_of [] [] 1)
    = (Raise StorageUnavailable, w') /\
    committed w' = mkTables [lit "technology"] [] 1 /\
    committed w' <> committed (Sample.store_of [] [] 1).
Proof.
  eexists. split; [vm_compute; reflexivity|].
  split; [reflexivity | discriminate].
Qed.

(** A commit that fails after the [INSERT] leaves no row, but the value
    that the [INSERT] drew from the sequence is spent: the next message
    gets the following one. *)
Example save_message_after_failed_commit :
  exists w1 w2,
    Database.save_message (Sample.env_of [] (Sample.fails_at 11)) None
      (lit "https://t.me/c/1/7") (lit "A summary") (lit "technology")
      (Sample.store_of [] [] 1)
    = (Raise StorageUnavailable, w1) /\
    messages (committed w1) = [] /\
    Database.save_message (Sample.env_of [] (Sample.fails_at 11)) None
      (lit "https://t.me/c/1/7") (lit "A summary") (lit "technology") w1
    = (Ok (Some 2), w2) /\
    messages (committed w2)
    = [mkMessage 2 None (lit "https://t.me/c/1/7") (lit "A summary")
                 (lit "technology")].
Proof.
  eexists. eexists. split; [vm_compute; reflexivity|].
  split; [reflexivity|]. split; vm_compute; reflexivity.
Qed.

Lemma save_message_failure_commits_no_message_witness :
  clean (Sample.store_of [] [] 1) /\
  messages (committed
    (snd (Database.save_message (Sample.env_of [] (Sample.fails_at 7)) None
            (lit "https://t.me/c/1/7") (lit "A summary") (lit "technology")
            (Sample.store_of [] [] 1))))
  = messages (committed (Sample.store_of [] [] 1)).
Proof.
  split; [reflexivity|].
  refine (proj1 (proj2 (proj2
    (save_message_failure_commits_no_message
       (Sample.env_of [] (Sample.fails_at 7)) None
       (lit "https://t.me/c/1/7") (lit "A summary") (lit "technology")
       (Sample.store_of [] [] 1) _ StorageUnavailable _ _)))).
  - reflexivity.
  - vm_compute. reflexivity.
Defined.

(* ================================================================= *)
(** ** Case-insensitive uniqueness of categories *)

Lemma filter_absent (f : str -> str) (rows : list str) (v : str) :
  ~ In v (map f rows) -> filter (fun r => str_eqb (f r) v) rows = [].
Proof.
  induction rows as [|r rows IH]; simpl; intros Hn; [reflexivity|].
  destruct (str_eqb (f r) v) eqn:E.
  - apply str_eqb_eq in E. exfalso. apply Hn. now left.
  - apply IH. intros Hin. apply Hn. now right.
Qed.

Lemma filter_unique (f : str -> str) (rows : list str) (v : str) :
  NoDup (map f rows) -> In v (map f rows) ->
  List.length (filter (fun r => str_eqb (f r) v) rows) = 1%nat.
Proof.
  induction rows as [|r rows IH]; simpl; intros Hnd Hin; [contradiction|].
  inversion Hnd as [|x xs Hnotin Hnd']; subst.
  destruct (str_eqb (f r) v) eqn:E.
  - apply str_eqb_eq in E. subst v. simpl.
    now rewrite (filter_absent f rows (f r) Hnotin).
  - apply str_eqb_neq in E. destruct Hin as [Heq|Hin]; [contradiction|].
    now apply IH.
Qed.

Lemma existsb_lower_In (f : str -> str) (rows : list str) (c : str) :
  existsb (fun e => str_eqb (f e) (f c)) rows = true <-> In (f c) (map f rows).
Proof.
  rewrite existsb_exists, in_map_iff. split.
  - intros (e & Hin & He). apply str_eqb_eq in He. eauto.
  - intros (e & He & Hin). exists e. split; [assumption|].
    now apply str_eqb_eq.
Qed.

Section CategoryFacts.
Variable env : Env.

Lemma filter_at_most_one (f : str -> str) (rows : list str) (v : str) :
  NoDup (map f rows) ->
  (List.length (filter (fun r => str_eqb (f r) v) rows) <= 1)%nat.
Proof.
  intros Hnd. destruct (in_dec (list_eq_dec N.eq_dec) v (map f rows)) as [H|H].
  - now rewrite (filter_unique f rows v Hnd H).
  - rewrite (filter_absent f rows v H). simpl. lia.
Qed.

(** A name is known when a row equals it under one of the two
    comparisons. *)
Lemma known_iff (c : str) (rows : list str) :
  known env c rows = true <->
  In (sql_lower env c) (map (sql_lower env) rows) \/
  In (lower env c) (map (lower env) rows).
Proof.
  unfold known. rewrite orb_true_iff.
  now rewrite (existsb_lower_In (sql_lower env)),
              (existsb_lower_In (lower env)).
Qed.

Lemma known_false_absent (c : str) (rows : list str) :
  known env c rows = false ->
  ~ In (sql_lower env c) (map (sql_lower env) rows) /\
  ~ In (lower env c) (map (lower env) rows).
Proof.
  intros H. split; intros Hin;
    assert (known env c rows = true) as Hx
      by (apply known_iff; auto);
    congruence.
Qed.

Lemma known_app (c : str) (rows more : list str) :
  known env c rows = true -> known env c (rows ++ more) = true.
Proof.
  rewrite !known_iff, !map_app. intros [H|H]; [left|right];
    apply in_or_app; now left.
Qed.

Lemma known_variant (c c' : str) (rows : list str) :
  In c rows ->
  sql_lower env c' = sql_lower env c \/ lower env c' = lower env c ->
  known env c' rows = true.
Proof.
  intros Hin Hv. apply known_iff.
  destruct Hv as [-> | ->]; [left|right]; now apply in_map.
Qed.

(** Every call of [add_category], failing or not, keeps the invariant. *)
Lemma add_category_keeps_unique (d : str) (w : world) r w1 :
  clean w -> ci_unique env (categories (committed w)) ->
  Database.add_category env d w = (r, w1) ->
  clean w1 /\ ci_unique env (categories (committed w1)).
Proof.
  intros Hc Hinv E.
  destruct (add_category_cases env d w r w1 Hc E)
    as (Hc1 & _ & [(_ & -> & _) | [(_ & -> & _) | (_ & Hk & ->)]]);
    split; auto.
  destruct Hinv as [Hsql Hlow].
  destruct (known_false_absent d _ Hk) as [Hns Hnl].
  unfold ci_unique. simpl. rewrite !map_app. simpl.
  split; (apply NoDup_app; [assumption | repeat constructor; simpl; tauto |]);
    intros x Hx [<- | []]; contradiction.
Qed.

(** Inserting a name that some stored row equals under one of the two
    comparisons changes nothing; it answers [False], unless the
    connection fails. *)
Lemma add_category_known_noop (d : str) (w : world) r w1 :
  clean w ->
  known env d (categories (committed w)) = true ->
  Database.add_category env d w = (r, w1) ->
  committed w1 = committed w /\ clean w1 /\
  (r = Ok false \/ r = Raise StorageUnavailable) /\
  ((forall n, db_fault env n = false) -> r = Ok false).
Proof.
  intros Hc Hk E.
  destruct (add_category_cases env d w r w1 Hc E)
    as (Hc1 & _ & [(-> & Hk1 & n & Hn) | [(-> & Hk1 & _) | (_ & Hk1 & _)]]).
  - repeat split; auto. intros Hnf. rewrite Hnf in Hn. discriminate.
  - repeat split; auto.
  - congruence.
Qed.

(** With a working connection [add_category] answers. *)
Lemma add_category_answers (d : str) (w : world) :
  (forall n, db_fault env n = false) -> clean w ->
  exists b w1,
    Database.add_category env d w = (Ok b, w1) /\ clean w1 /\
    ((b = false /\ committed w1 = committed w /\
      known env d (categories (committed w)) = true) \/
     (b = true /\ known env d (categories (committed w)) = false /\
      categories (committed w1) = categories (committed w) ++ [d])).
Proof.
  intros Hnf Hc.
  destruct (Database.add_category env d w) as [r w1] eqn:E.
  destruct (add_category_cases env d w r w1 Hc E)
    as (Hc1 & _ & [(_ & _ & n & Hn) | [(-> & Hk & Hkn) | (-> & Hkn & Hk)]]).
  - rewrite Hnf in Hn. discriminate.
  - exists false, w1. split; [reflexivity|]. split; [assumption|].
    left. auto.
  - exists true, w1. split; [reflexivity|]. split; [assumption|].
    right. split; [reflexivity|]. split; [assumption|]. now rewrite Hk.
Qed.

(** C4, as the code has it.  The code compares names case-insensitively
    in two ways, with the store's [LOWER] and with [str.lower].  On a
    store where no two rows are equal under either comparison:
    (1) every insert, failing or not, keeps it so; (2) an insert of a
    name that a stored row equals under one of the comparisons changes
    nothing and answers [False], raising only when the connection fails;
    (3) with a working connection, inserting [c] and then a variant [c']
    of it adds at most one row, after which some row equals [c] under
    one of the comparisons and at most one under each; when the first
    insert added [c], or when [c'] is [c] itself, the second is a no-op,
    and when the first insert added [c], the row [c] is the only one
    that equals [c] under either comparison. *)
Theorem add_category_idempotent (w : world) :
  clean w ->
  ci_unique env (categories (committed w)) ->
  (forall d r w1,
      Database.add_category env d w = (r, w1) ->
      ci_unique env (categories (committed w1))) /\
  (forall d r w1,
      known env d (categories (committed w)) = true ->
      Database.add_category env d w = (r, w1) ->
      committed w1 = committed w /\
      (r = Ok false \/ r = Raise StorageUnavailable) /\
      ((forall n, db_fault env n = false) -> r = Ok false)) /\
  ((forall n, db_fault env n = false) ->
   forall c c',
      sql_lower env c' = sql_lower env c \/ lower env c' = lower env c ->
      exists b1 b2 w1 w2,
        Database.add_category env c w = (Ok b1, w1) /\
        Database.add_category env c' w1 = (Ok b2, w2) /\
        b1 && b2 = false /\
        ci_unique env (categories (committed w2)) /\
        known env c (categories (committed w2)) = true /\
        (List.length (rows_for (sql_lower env) c (categories (committed w2)))
         <= 1)%nat /\
        (List.length (rows_for (lower env) c (categories (committed w2)))
         <= 1)%nat /\
        (b1 = true \/ c' = c -> b2 = false /\ committed w2 = committed w1) /\
        (b1 = true ->
         rows_for (sql_lower env) c (categories (committed w2)) = [c] /\
         rows_for (lower env) c (categories (committed w2)) = [c])).
Proof.
  intros Hc Hinv. split; [|split].
  - intros d r w1 E. now apply (add_category_keeps_unique d w r w1).
  - intros d r w1 Hk E.
    destruct (add_category_known_noop d w r w1 Hc Hk E) as (H1 & _ & H2 & H3).
    auto.
  - intros Hnf c c' Hv.
    destruct (add_category_answers c w Hnf Hc) as (b1 & w1 & E1 & Hc1 & Hcase1).
    destruct (add_category_keeps_unique c w _ w1 Hc Hinv E1) as [_ Hinv1].
    destruct (add_category_answers c' w1 Hnf Hc1)
      as (b2 & w2 & E2 & Hc2 & Hcase2).
    destruct (add_category_keeps_unique c' w1 _ w2 Hc1 Hinv1 E2)
      as [_ Hinv2].
    exists b1, b2, w1, w2.
    split; [exact E1|]. split; [exact E2|].
    assert (Hk1 : known env c (categories (committed w1)) = true).
    { destruct Hcase1 as [(_ & -> & Hk) | (_ & _ & ->)]; [exact Hk|].
      apply known_iff. left. rewrite map_app. apply in_or_app. right.
      now left. }
    assert (Hk2 : known env c (categories (committed w2)) = true).
    { destruct Hcase2 as [(_ & -> & _) | (_ & _ & ->)]; [exact Hk1|].
      now apply known_app. }
    assert (Hfirst : b1 = true ->
              b2 = false /\ committed w2 = committed w1 /\
              rows_for (sql_lower env) c (categories (committed w1)) = [c] /\
              rows_for (lower env) c (categories (committed w1)) = [c]).
    { intros ->.
      destruct Hcase1 as [(Hb & _) | (_ & Hkn & Hcats)]; [discriminate|].
      assert (Hkc' : known env c' (categories (committed w1)) = true).
      { apply (known_variant c c'); [|exact Hv].
        rewrite Hcats. apply in_or_app. right. now left. }
      destruct Hcase2 as [(-> & Hsame & _) | (_ & Hkn' & _)];
        [|congruence].
      split; [reflexivity|]. split; [exact Hsame|].
      destruct (known_false_absent c _ Hkn) as [Hns Hnl].
      rewrite Hcats. unfold rows_for. rewrite !filter_app.
      rewrite (filter_absent (sql_lower env) _ _ Hns),
              (filter_absent (lower env) _ _ Hnl).
      simpl. now rewrite !str_eqb_refl. }
    destruct Hinv2 as [Hsql2 Hlow2].
    split.
    { destruct b1; [|reflexivity].
      destruct (Hfirst eq_refl) as (-> & _). reflexivity. }
    split; [split; assumption|]. split; [exact Hk2|].
    split; [now apply filter_at_most_one|].
    split; [now apply filter_at_most_one|].
    split.
    { intros [Hb | ->].
      - destruct (Hfirst Hb) as (H1 & H2 & _). auto.
      - destruct Hcase2 as [(-> & Hsame & _) | (_ & Hkn' & _)];
          [auto | congruence]. }
    intros Hb. destruct (Hfirst Hb) as (_ & Hsame & Hs & Hl).
    rewrite Hsame. auto.
Qed.

End CategoryFacts.

Lemma add_category_idempotent_witness :
  exists b1 b2 w1 w2,
    Database.add_category Sample.greek_env (lit "ΑΣ")
      (Sample.store_of [lit "news"] [] 1) = (Ok b1, w1) /\
    Database.add_category Sample.greek_env (lit "ας") w1 = (Ok b2, w2) /\
    b1 && b2 = false /\
    (b1 = true ->
     rows_for (sql_lower Sample.greek_env) (lit "ΑΣ")
              (categories (committed w2)) = [lit "ΑΣ"] /\
     rows_for (lower Sample.greek_env) (lit "ΑΣ")
              (categories (committed w2)) = [lit "ΑΣ"]).
Proof.
  destruct (proj2 (proj2
    (add_category_idempotent Sample.greek_env
       (Sample.store_of [lit "news"] [] 1) eq_refl
       ltac:(split; vm_compute; repeat constructor; simpl; tauto)))
    ltac:(intros n; reflexivity) (lit "ΑΣ") (lit "ας")
    ltac:(right; vm_compute; reflexivity))
    as (b1 & b2 & w1 & w2 & E1 & E2 & Hb & _ & _ & _ & _ & _ & Hrows).
  exists b1, b2, w1, w2. auto.
Defined.

(** C4 as stated fails where the two comparisons differ.  Python lowers
    the capital sigma that ends a word to the final sigma, a store that
    folds character by character to the small sigma.  From the empty
    store, the inserts of [ασ], of [ΑΣ] twice and of its variant [ας]
    answer [True], [False], [False] and [True]: after the two inserts of
    [ΑΣ] no stored row equals it under [str.lower], and in the end two
    stored rows equal it, one under each comparison. *)
Lemma add_category_two_rows_for_one_name :
  exists w1 w2 w3 w4,
    Database.add_category Sample.greek_env (lit "ασ")
      (Sample.store_of [] [] 1) = (Ok true, w1) /\
    Database.add_category Sample.greek_env (lit "ΑΣ") w1 = (Ok false, w2) /\
    Database.add_category Sample.greek_env (lit "ΑΣ") w2 = (Ok false, w3) /\
    rows_for (lower Sample.greek_env) (lit "ΑΣ") (categories (committed w3))
    = [] /\
    lower Sample.greek_env (lit "ας") = lower Sample.greek_env (lit "ΑΣ") /\
    Database.add_category Sample.greek_env (lit "ας") w3 = (Ok true, w4) /\
    categories (committed w4) = [lit "ασ"; lit "ας"] /\
    rows_for (sql_lower Sample.greek_env) (lit "ΑΣ")
             (categories (committed w4)) = [lit "ασ"] /\
    rows_for (lower Sample.greek_env) (lit "ΑΣ")
             (categories (committed w4)) = [lit "ας"].
Proof.
  do 4 eexists.
  split; [vm_compute; reflexivity|].
  split; [vm_compute; reflexivity|].
  split; [vm_compute; reflexivity|].
  repeat split; vm_compute; reflexivity.
Qed.

(* ================================================================= *)
(** ** The retry loop of the classifier *)

Section ClassifierRetry.
Variable env : Env.
Variables (prompt : str) (parser_func : str -> value) (operation_name : str).
Variables (max_tokens max_retries : Z).

(** One iteration of the loop. *)
Lemma retry_loop_step (n : nat) (attempt : Z) (w : world) :
  MessageClassifier.retry_loop env (S n) attempt prompt parser_func
    operation_name max_tokens max_retries w =
  match api env (api_calls w) prompt max_tokens with
  | Response response_text =>
      if str_eqb operation_name MessageClassifier.s_classification then
        match parser_func response_text with
        | VPair category confidence =>
            if PrimFloat.ltb confidence 0.5%float
            then (Ok (VPair MessageClassifier.s_review confidence), called w)
            else (Ok (VPair category confidence), called w)
        | VStr _ =>
            classifier_on_error env prompt parser_func operation_name
              max_tokens max_retries n attempt (called w)
        end
      else (Ok (parser_func response_text), called w)
  | RateLimitError =>
      MessageClassifier.retry_loop env n (attempt + 1) prompt parser_func
        operation_name max_tokens max_retries
        (slept (2 ^ attempt + 1) (called w))
  | APIError =>
      classifier_on_error env prompt parser_func operation_name
        max_tokens max_retries n attempt (called w)
  | OtherException =>
      classifier_on_error env prompt parser_func operation_name
        max_tokens max_retries n attempt (called w)
  end.
Proof.
  unfold classifier_on_error. simpl.
  unfold bind, messages_create. fold (called w).
  destruct (api env (api_calls w) prompt max_tokens); simpl;
    try (destruct (attempt <? max_retries - 1); reflexivity);
    try reflexivity.
  destruct (str_eqb operation_name MessageClassifier.s_classification);
    [|reflexivity].
  destruct (parser_func text) as [s|c f]; simpl.
  - destruct (attempt <? max_retries - 1); reflexivity.
  - destruct (PrimFloat.ltb f 0.5); reflexivity.
Qed.

(** The loop never raises and never touches the connection. *)
Lemma retry_loop_total (n : nat) :
  forall attempt w, exists v w',
    MessageClassifier.retry_loop env n attempt prompt parser_func
      operation_name max_tokens max_retries w = (Ok v, w') /\
    same_db w w' /\
    (api_calls w <= api_calls w')%nat.
Proof.
  induction n as [|n IH]; intros attempt w.
  - exists (MessageClassifier.fallback operation_name), w.
    repeat split; auto.
  - rewrite retry_loop_step.
    assert (Herr : exists v w',
      classifier_on_error env prompt parser_func operation_name
        max_tokens max_retries n attempt (called w) = (Ok v, w') /\
      same_db w w' /\ (api_calls w <= api_calls w')%nat).
    { unfold classifier_on_error. destruct (attempt <? max_retries - 1).
      - destruct (IH (attempt + 1) (slept (2 ^ attempt) (called w)))
          as (v & w' & E & (H1 & H2 & H3) & H4).
        exists v, w'. repeat split; simpl in *; auto; lia.
      - do 2 eexists. repeat split; simpl; auto. }
    destruct (api env (api_calls w) prompt max_tokens); auto.
    + destruct (str_eqb operation_name MessageClassifier.s_classification).
      * destruct (parser_func text) as [s|c f]; auto.
        destruct (PrimFloat.ltb f 0.5); do 2 eexists;
          repeat split; simpl; auto.
      * do 2 eexists. repeat split; simpl; auto.
    + destruct (IH (attempt + 1) (slept (2 ^ attempt + 1) (called w)))
        as (v & w' & E & (H1 & H2 & H3) & H4).
      exists v, w'. repeat split; simpl in *; auto; lia.
Qed.

(** A run in which every attempt fails makes all its attempts, returns the
    fallback, and sleeps as [sleeps_when_exhausted] counts. *)
Lemma retry_loop_exhausted (n : nat) :
  forall attempt w,
    Z.of_nat n + attempt = max_retries ->
    (forall k, (k < n)%nat ->
       failing (api env (api_calls w + k) prompt max_tokens) = true) ->
    exists w' waits,
      MessageClassifier.retry_loop env n attempt prompt parser_func
        operation_name max_tokens max_retries w
      = (Ok (MessageClassifier.fallback operation_name), w') /\
      same_db w w' /\
      api_calls w' = (api_calls w + n)%nat /\
      sleeps w' = sleeps w ++ waits /\
      List.length waits
      = sleeps_when_exhausted n
          (api env (api_calls w + (n - 1)) prompt max_tokens).
Proof.
  induction n as [|n IH]; intros attempt w Hinv Hfail.
  - exists w, []. simpl. rewrite app_nil_r, Nat.add_0_r.
    repeat split; reflexivity.
  - rewrite retry_loop_step.
    assert (H0 := Hfail 0%nat ltac:(lia)). rewrite Nat.add_0_r in H0.
    assert (Hnext : forall t,
      exists w' waits,
        MessageClassifier.retry_loop env n (attempt + 1) prompt parser_func
          operation_name max_tokens max_retries (slept t (called w))
        = (Ok (MessageClassifier.fallback operation_name), w') /\
        same_db w w' /\
        api_calls w' = (api_calls w + S n)%nat /\
        sleeps w' = sleeps w ++ t :: waits /\
        List.length waits
        = sleeps_when_exhausted n
            (api env (api_calls w + S n - 1) prompt max_tokens)).
    { intros t.
      destruct (IH (attempt + 1) (slept t (called w)) ltac:(lia))
        as (w' & waits & E & Hdb & Hc & Hs & Hl).
      { intros k Hk.
        change (api_calls (slept t (called w))) with (S (api_calls w)).
        replace (S (api_calls w) + k)%nat with (api_calls w + S k)%nat by lia.
        apply Hfail. lia. }
      change (api_calls (slept t (called w))) with (S (api_calls w)) in Hc, Hl.
      change (sleeps (slept t (called w))) with (sleeps w ++ [t]) in Hs.
      exists w', waits.
      split; [exact E|]. split; [exact Hdb|]. split; [lia|].
      split; [rewrite Hs, <- app_assoc; reflexivity|].
      rewrite Hl. destruct n as [|m]; [reflexivity|].
      replace (S (api_calls w) + (S m - 1))%nat
        with (api_calls w + S (S m) - 1)%nat by lia.
      reflexivity. }
    assert (Hlast : forall (t : Z) (waits : list Z),
      (0 < n)%nat ->
      List.length waits
      = sleeps_when_exhausted n
          (api env (api_calls w + S n - 1) prompt max_tokens) ->
      List.length (t :: waits)
      = sleeps_when_exhausted (S n)
          (api env (api_calls w + (S n - 1)) prompt max_tokens)).
    { intros t waits Hpos Hl. destruct n as [|m]; [lia|].
      cbn [sleeps_when_exhausted List.length]. rewrite Hl.
      cbn [sleeps_when_exhausted].
      replace (api_calls w + (S (S m) - 1))%nat
        with (api_calls w + S (S m) - 1)%nat by lia.
      destruct (rate_limited _); lia. }
    assert (Herr :
      rate_limited (api env (api_calls w) prompt max_tokens) = false ->
      exists w' waits,
        classifier_on_error env prompt parser_func operation_name
          max_tokens max_retries n attempt (called w)
        = (Ok (MessageClassifier.fallback operation_name), w') /\
        same_db w w' /\
        api_calls w' = (api_calls w + S n)%nat /\
        sleeps w' = sleeps w ++ waits /\
        List.length waits
        = sleeps_when_exhausted (S n)
            (api env (api_calls w + (S n - 1)) prompt max_tokens)).
    { intros Hrl. unfold classifier_on_error.
      destruct (attempt <? max_retries - 1) eqn:Hlt.
      - apply Z.ltb_lt in Hlt.
        destruct (Hnext (2 ^ attempt)) as (w' & waits & E & Hdb & Hc & Hs & Hl).
        exists w', (2 ^ attempt :: waits). repeat split; try apply Hdb; auto.
        apply Hlast; [lia | assumption].
      - apply Z.ltb_ge in Hlt. assert (n = 0%nat) by lia. subst n.
        exists (called w), []. simpl. rewrite app_nil_r.
        rewrite Nat.add_0_r, Hrl.
        repeat split; auto. lia. }
    destruct (api env (api_calls w) prompt max_tokens) eqn:Er;
      try discriminate H0; try (apply Herr; reflexivity).
    destruct (Hnext (2 ^ attempt + 1)) as (w' & waits & E & Hdb & Hc & Hs & Hl).
    exists w', (2 ^ attempt + 1 :: waits). repeat split; try apply Hdb; auto.
    destruct n as [|m].
    + simpl in *. rewrite Nat.add_0_r, Er. simpl.
      destruct waits; [reflexivity | discriminate].
    + apply Hlast; [lia | assumption].
Qed.

End ClassifierRetry.

(* ================================================================= *)
(** ** The classifier *)

Section ClassifierFacts.
Variable env : Env.

Lemma fallback_duplicate_check :
  MessageClassifier.fallback MessageClassifier.s_duplicate_check
  = VStr MessageClassifier.s_general.
Proof. reflexivity. Qed.

Lemma fallback_classification :
  MessageClassifier.fallback MessageClassifier.s_classification
  = VPair MessageClassifier.s_general 0.5%float.
Proof. reflexivity. Qed.

Lemma get_existing_categories_same_net (w : world) r w' :
  Database.get_existing_categories env w = (r, w') -> same_net w w'.
Proof.
  unfold Database.get_existing_categories, Database.get_cursor, bind,
    read_tables, ret, db_step, same_net.
  destruct (db_fault env (db_ops w)); simpl; [now intros [= <- <-]|].
  destruct (db_fault env (S (db_ops w))); simpl; now intros [= <- <-].
Qed.

(** [_simple_category_match] returns the first category, in list order,
    whose lower-case form occurs in the lower-cased text. *)
Lemma simple_category_match_first (text : str) (pre post : list str) (c : str) :
  (forall x, In x pre ->
     contains (lower env text) (lower env x) = false) ->
  contains (lower env text) (lower env c) = true ->
  MessageClassifier._simple_category_match env text (pre ++ c :: post)
  = Some c.
Proof.
  intros Hpre Hc. induction pre as [|x pre IH]; simpl.
  - now rewrite Hc.
  - rewrite (Hpre x (or_introl eq_refl)). apply IH.
    intros y Hy. apply Hpre. now right.
Qed.

Lemma simple_category_match_none (text : str) (l : list str) :
  (forall x, In x l -> contains (lower env text) (lower env x) = false) ->
  MessageClassifier._simple_category_match env text l = None.
Proof.
  induction l as [|x l IH]; simpl; intros H; [reflexivity|].
  rewrite (H x (or_introl eq_refl)). apply IH. intros y Hy. apply H. now right.
Qed.

(** [_parse_claude_response] always yields a pair. *)
Lemma parse_claude_response_pair (t : str) :
  exists c f, MessageClassifier._parse_claude_response env t = VPair c f.
Proof.
  unfold MessageClassifier._parse_claude_response.
  destruct (MessageClassifier.parse_lines env _ None 0.5) as [[c f]|];
    [destruct (MessageClassifier.truthy c)|]; eauto.
Qed.

(** What the classification wrapper returns is a pair, and a pair whose
    confidence is below 0.5 carries the category ["review"]. *)
Lemma classification_result (prompt : str) (max_tokens max_retries : Z)
    (n : nat) :
  forall attempt w, exists c f w',
    MessageClassifier.retry_loop env n attempt prompt
      (MessageClassifier._parse_claude_response env)
      MessageClassifier.s_classification max_tokens max_retries w
    = (Ok (VPair c f), w') /\
    same_db w w' /\
    (PrimFloat.ltb f 0.5%float = true -> c = MessageClassifier.s_review).
Proof.
  induction n as [|n IH]; intros attempt w.
  - exists MessageClassifier.s_general, 0.5%float, w.
    repeat split; auto. intros H. discriminate H.
  - rewrite retry_loop_step.
    assert (Herr : exists c f w',
      (if attempt <? max_retries - 1
       then MessageClassifier.retry_loop env n (attempt + 1) prompt
              (MessageClassifier._parse_claude_response env)
              MessageClassifier.s_classification max_tokens max_retries
              (slept (2 ^ attempt) (called w))
       else (Ok (MessageClassifier.fallback MessageClassifier.s_classification),
             called w))
      = (Ok (VPair c f), w') /\ same_db w w' /\
      (PrimFloat.ltb f 0.5%float = true -> c = MessageClassifier.s_review)).
    { destruct (attempt <? max_retries - 1).
      - destruct (IH (attempt + 1) (slept (2 ^ attempt) (called w)))
          as (c & f & w' & E & Hdb & Hlow). eauto 7.
      - exists MessageClassifier.s_general, 0.5%float, (called w).
        repeat split; auto. intros H. discriminate H. }
    destruct (api env (api_calls w) prompt max_tokens); auto.
    + rewrite str_eqb_refl.
      destruct (parse_claude_response_pair text) as (c & f & ->).
      destruct (PrimFloat.ltb f 0.5) eqn:Hlt.
      * exists MessageClassifier.s_review, f, (called w).
        repeat split; auto.
      * exists c, f, (called w). repeat split; auto.
        intros H. congruence.
    + destruct (IH (attempt + 1) (slept (2 ^ attempt + 1) (called w)))
        as (c & f & w' & E & Hdb & Hlow). eauto 7.
Qed.

(** The duplicate check never raises and always yields a string. *)
Lemma check_duplicate_category_str (new_category : str)
    (existing : list str) (w : world) :
  exists s w',
    MessageClassifier._check_duplicate_category env new_category existing w
    = (Ok (VStr s), w') /\ same_db w w'.
Proof.
  unfold MessageClassifier._check_duplicate_category.
  destruct existing as [|e existing].
  { exists new_category, w. repeat split; auto. }
  unfold MessageClassifier._call_claude_with_retry.
  generalize (Z.to_nat 3) as n, 0 as attempt. intros n. revert w.
  induction n as [|n IH]; intros w attempt.
  - exists MessageClassifier.s_general, w. repeat split; auto.
  - rewrite retry_loop_step.
    assert (Herr : exists s w',
      (if attempt <? 3 - 1
       then MessageClassifier.retry_loop env n (attempt + 1)
              (MessageClassifier.duplicate_prompt
                 (join (lit ", ") (e :: existing)) new_category)
              (MessageClassifier.parse_duplicate_response env new_category
                 (e :: existing))
              MessageClassifier.s_duplicate_check 50 3
              (slept (2 ^ attempt) (called w))
       else (Ok (MessageClassifier.fallback
                   MessageClassifier.s_duplicate_check), called w))
      = (Ok (VStr s), w') /\ same_db w w').
    { destruct (attempt <? 3 - 1).
      - destruct (IH (slept (2 ^ attempt) (called w)) (attempt + 1))
          as (s & w' & E & Hdb). eauto.
      - exists MessageClassifier.s_general, (called w).
        repeat split; auto. }
    destruct (api env (api_calls w) _ 50); auto.
    + change (str_eqb MessageClassifier.s_duplicate_check
                      MessageClassifier.s_classification) with false.
      cbv iota. unfold MessageClassifier.parse_duplicate_response.
      destruct (str_in _ _); do 2 eexists; repeat split; auto.
    + destruct (IH (slept (2 ^ attempt + 1) (called w)) (attempt + 1))
          as (s & w' & E & Hdb). eauto.
Qed.

(** The path of [classify_message] after a simple match has failed and the
    classification has returned. *)
Lemma classify_message_llm_path (text : str) (w w0 w1 : world)
    (existing : list str) (c : str) (f : float) :
  Database.get_existing_categories env w = (Ok existing, w0) ->
  MessageClassifier.truthy
    (MessageClassifier._simple_category_match env text existing) = false ->
  MessageClassifier._classify_with_claude env text existing w0
  = (Ok (VPair c f), w1) ->
  MessageClassifier.classify_message env text w
  = if str_in (lower env c) (map (lower env) existing)
    then (Ok (c, f), w1)
    else
      match MessageClassifier._check_duplicate_category env c existing w1 with
      | (Ok (VStr s), w2) => (Ok (s, f), w2)
      | (Ok (VPair _ _), w2) => (Raise TypeError, w2)
      | (Raise e, w2) => (Raise e, w2)
      end.
Proof.
  intros Hget Hmatch Hcls.
  unfold MessageClassifier.classify_message, bind.
  rewrite Hget, Hmatch, Hcls. simpl.
  destruct (str_in (lower env c) (map (lower env) existing)); simpl;
    [reflexivity|].
  destruct (MessageClassifier._check_duplicate_category env c existing w1)
    as [[[s|c' f']|e] w2]; reflexivity.
Qed.

End ClassifierFacts.

Section ClassifierClaims.
Variable env : Env.

(** C2, as the code has it: when the first stored category, in the
    store's order, whose lower-case form occurs in the lower-cased text is
    not the empty string, [classify_message] returns it with confidence
    exactly 1.0 and makes no API call and no sleep. *)
Theorem classify_simple_match_precedence (text : str) (w w0 : world)
    (pre post : list str) (c : str) :
  Database.get_existing_categories env w = (Ok (pre ++ c :: post), w0) ->
  (forall x, In x pre ->
     contains (lower env text) (lower env x) = false) ->
  contains (lower env text) (lower env c) = true ->
  c <> [] ->
  MessageClassifier.classify_message env text w = (Ok (c, 1.0%float), w0) /\
  api_calls w0 = api_calls w /\ sleeps w0 = sleeps w.
Proof.
  intros Hget Hpre Hc Hne.
  split; [|exact (get_existing_categories_same_net env w _ _ Hget)].
  unfold MessageClassifier.classify_message, bind. rewrite Hget.
  rewrite (simple_category_match_first env text pre post c Hpre Hc).
  destruct c as [|x c]; [contradiction Hne; reflexivity|]. reflexivity.
Qed.

(** The duplicate check on an answered call: the stripped answer when it
    equals a stored category under [lower], the candidate otherwise. *)
Lemma check_duplicate_category_answer (new_category answer : str)
    (existing : list str) (w : world) :
  existing <> [] ->
  api env (api_calls w)
      (MessageClassifier.duplicate_prompt (join (lit ", ") existing)
                                          new_category) 50
  = Response answer ->
  MessageClassifier._check_duplicate_category env new_category existing w
  = (Ok (VStr (if str_in (lower env (strip answer))
                         (map (lower env) existing)
               then strip answer else new_category)),
     called w).
Proof.
  intros Hne Hapi. unfold MessageClassifier._check_duplicate_category.
  destruct existing as [|e existing]; [contradiction Hne; reflexivity|].
  unfold MessageClassifier._call_claude_with_retry.
  change (Z.to_nat 3) with 3%nat. rewrite retry_loop_step, Hapi.
  change (str_eqb MessageClassifier.s_duplicate_check
                  MessageClassifier.s_classification) with false.
  cbv iota. unfold MessageClassifier.parse_duplicate_response.
  destruct (str_in _ _); reflexivity.
Qed.

(** The duplicate check when all three attempts fail. *)
Lemma check_duplicate_category_exhausted (new_category : str)
    (existing : list str) (w : world) :
  existing <> [] ->
  (forall k, (k < 3)%nat ->
     failing (api env (api_calls w + k)
                (MessageClassifier.duplicate_prompt
                   (join (lit ", ") existing) new_category) 50) = true) ->
  exists w',
    MessageClassifier._check_duplicate_category env new_category existing w
    = (Ok (VStr MessageClassifier.s_general), w') /\
    api_calls w' = (api_calls w + 3)%nat.
Proof.
  intros Hne Hfail. unfold MessageClassifier._check_duplicate_category.
  destruct existing as [|e existing]; [contradiction Hne; reflexivity|].
  unfold MessageClassifier._call_claude_with_retry.
  change (Z.to_nat 3) with 3%nat.
  destruct (retry_loop_exhausted env _
              (MessageClassifier.parse_duplicate_response env new_category
                 (e :: existing))
              MessageClassifier.s_duplicate_check 50 3 3 0 w
              eq_refl Hfail)
    as (w' & waits & E & _ & Hc & _).
  exists w'. split; [exact E | exact Hc].
Qed.

(** C1, as the code has it: when a candidate that is not among the
    existing categories goes to the duplicate check, the list is not empty
    and all three attempts of that call fail, the final category is the
    sentinel ["general"], with the confidence of the classification. *)
Theorem classify_duplicate_check_exhausted (text : str) (w w0 w1 : world)
    (existing : list str) (candidate : str) (confidence : float) :
  Database.get_existing_categories env w = (Ok existing, w0) ->
  MessageClassifier.truthy
    (MessageClassifier._simple_category_match env text existing) = false ->
  MessageClassifier._classify_with_claude env text existing w0
  = (Ok (VPair candidate confidence), w1) ->
  str_in (lower env candidate) (map (lower env) existing) = false ->
  existing <> [] ->
  (forall k, (k < 3)%nat ->
     failing (api env (api_calls w1 + k)
                (MessageClassifier.duplicate_prompt
                   (join (lit ", ") existing) candidate) 50) = true) ->
  exists w2,
    MessageClassifier.classify_message env text w
    = (Ok (MessageClassifier.s_general, confidence), w2) /\
    api_calls w2 = (api_calls w1 + 3)%nat.
Proof.
  intros Hget Hmatch Hcls Hnew Hne Hfail.
  rewrite (classify_message_llm_path env text w w0 w1 existing candidate
             confidence Hget Hmatch Hcls), Hnew.
  destruct (check_duplicate_category_exhausted candidate existing w1 Hne Hfail)
    as (w2 & -> & Hc).
  exists w2. split; [reflexivity | exact Hc].
Qed.

(** C5, as the code has it.  (1) In the wrapper, an answer whose parsed
    confidence is below 0.5 is returned as ["review"] with that
    confidence.  (2) When the classification of [classify_message] came
    back with a confidence below 0.5, its category is ["review"], the
    final result carries that confidence, and the final category is
    ["review"] when the category list is empty or contains it
    case-insensitively; otherwise it is whatever the duplicate check
    makes of ["review"]. *)
Theorem classify_low_confidence_review :
  (forall n attempt prompt max_tokens max_retries w response_text c f,
      api env (api_calls w) prompt max_tokens = Response response_text ->
      MessageClassifier._parse_claude_response env response_text
      = VPair c f ->
      PrimFloat.ltb f 0.5%float = true ->
      MessageClassifier.retry_loop env (S n) attempt prompt
        (MessageClassifier._parse_claude_response env)
        MessageClassifier.s_classification max_tokens max_retries w
      = (Ok (VPair MessageClassifier.s_review f), called w)) /\
  (forall text w w0 w1 existing c f,
      Database.get_existing_categories env w = (Ok existing, w0) ->
      MessageClassifier.truthy
        (MessageClassifier._simple_category_match env text existing)
      = false ->
      MessageClassifier._classify_with_claude env text existing w0
      = (Ok (VPair c f), w1) ->
      PrimFloat.ltb f 0.5%float = true ->
      c = MessageClassifier.s_review /\
      exists category w2,
        MessageClassifier.classify_message env text w
        = (Ok (category, f), w2) /\
        (existing = [] \/
         str_in (lower env MessageClassifier.s_review)
                (map (lower env) existing) = true ->
         category = MessageClassifier.s_review /\ w2 = w1) /\
        (str_in (lower env MessageClassifier.s_review)
                (map (lower env) existing) = false ->
         MessageClassifier._check_duplicate_category env
           MessageClassifier.s_review existing w1
         = (Ok (VStr category), w2))).
Proof.
  split.
  - intros n attempt prompt max_tokens max_retries w response_text c f
      Hapi Hparse Hlow.
    rewrite retry_loop_step, Hapi, str_eqb_refl, Hparse, Hlow. reflexivity.
  - intros text w w0 w1 existing c f Hget Hmatch Hcls Hlow.
    assert (Hc : c = MessageClassifier.s_review).
    { unfold MessageClassifier._classify_with_claude,
        MessageClassifier._call_claude_with_retry in Hcls.
      destruct (classification_result env
                  (MessageClassifier.classification_prompt
                     match existing with
                     | [] => MessageClassifier.s_no_categories
                     | _ :: _ => join (lit ", ") existing
                     end text) 200 3 (Z.to_nat 3) 0 w0)
        as (c' & f' & w' & E & _ & Hrev).
      rewrite Hcls in E. injection E as <- <- <-. now apply Hrev. }
    subst c. split; [reflexivity|].
    rewrite (classify_message_llm_path env text w w0 w1 existing _ f
               Hget Hmatch Hcls).
    destruct (str_in (lower env MessageClassifier.s_review)
                     (map (lower env) existing)) eqn:Hin.
    + exists MessageClassifier.s_review, w1.
      split; [reflexivity|]. split; [auto | discriminate].
    + destruct (check_duplicate_category_str env MessageClassifier.s_review
                  existing w1) as (s & w2 & E & _).
      rewrite E. exists s, w2. split; [reflexivity|]. split; [|auto].
      intros [-> | H]; [|discriminate H].
      unfold MessageClassifier._check_duplicate_category, ret in E.
      injection E as <- <-. auto.
Qed.

End ClassifierClaims.

Section ClassifierScenario.
Variable env : Env.

Lemma scenario_parse :
  py_float env (lit "0.85") = Some f_0_85 ->
  MessageClassifier._parse_claude_response env scenario_response
  = VPair ai_research f_0_85.
Proof.
  intros Hf. vm_compute in Hf. vm_compute. rewrite Hf. reflexivity.
Qed.

(** C8, as the code has it: the parser reads the labels [Категория:] and
    [Уверенность:].  With no simple match, the classification answer
    [Категория: ai_research / Уверенность: 0.85] and the existing
    categories technology and news, the answer parses to
    (ai_research, 0.85), the duplicate check is called, and when it
    answers ai_research the final result is (ai_research, 0.85) after two
    API calls. *)
Theorem classify_scenario_new_category (text : str) (w w0 : world)
    (existing : list str) :
  Database.get_existing_categories env w = (Ok existing, w0) ->
  Permutation existing [technology; news] ->
  MessageClassifier.truthy
    (MessageClassifier._simple_category_match env text existing) = false ->
  py_float env (lit "0.85") = Some f_0_85 ->
  lower env ai_research <> lower env technology ->
  lower env ai_research <> lower env news ->
  api env (api_calls w0)
      (MessageClassifier.classification_prompt (join (lit ", ") existing) text)
      200
  = Response scenario_response ->
  api env (S (api_calls w0))
      (MessageClassifier.duplicate_prompt (join (lit ", ") existing)
                                          ai_research) 50
  = Response ai_research ->
  MessageClassifier._parse_claude_response env scenario_response
  = VPair ai_research f_0_85 /\
  exists w2,
    MessageClassifier.classify_message env text w
    = (Ok (ai_research, f_0_85), w2) /\
    api_calls w2 = (api_calls w0 + 2)%nat /\
    sleeps w2 = sleeps w0.
Proof.
  intros Hget Hperm Hmatch Hf Ht Hn Hapi1 Hapi2.
  assert (Hparse := scenario_parse Hf). split; [exact Hparse|].
  assert (Hne : existing <> []).
  { intros ->. apply Permutation_nil in Hperm. discriminate. }
  assert (Hnew : str_in (lower env ai_research) (map (lower env) existing)
                 = false).
  { unfold str_in.
    rewrite (existsb_perm _ _ _ (Permutation_map (lower env) Hperm)).
    simpl. apply str_eqb_neq in Ht, Hn. now rewrite Ht, Hn. }
  assert (Hcls : MessageClassifier._classify_with_claude env text existing w0
                 = (Ok (VPair ai_research f_0_85), called w0)).
  { unfold MessageClassifier._classify_with_claude,
      MessageClassifier._call_claude_with_retry.
    change (Z.to_nat 3) with 3%nat.
    destruct existing as [|e existing]; [contradiction Hne; reflexivity|].
    rewrite retry_loop_step, Hapi1, str_eqb_refl, Hparse. reflexivity. }
  rewrite (classify_message_llm_path env text w w0 _ existing _ _
             Hget Hmatch Hcls), Hnew.
  rewrite (check_duplicate_category_answer env ai_research ai_research
             existing (called w0) Hne Hapi2).
  change (strip ai_research) with ai_research. rewrite Hnew.
  exists (called (called w0)). simpl. repeat split. lia.
Qed.

End ClassifierScenario.

(* ================================================================= *)
(** ** The claims on concrete runs *)


Lemma classify_simple_match_precedence_witness :
  MessageClassifier.classify_message (Sample.env_of [] Sample.never_fails)
    (lit "New iPhone technology breakthrough") Runs.tech_news_store
  = (Ok (technology, 1.0%float), ticks 2 Runs.tech_news_store) /\
  api_calls (ticks 2 Runs.tech_news_store) = api_calls Runs.tech_news_store /\
  sleeps (ticks 2 Runs.tech_news_store) = sleeps Runs.tech_news_store.
Proof.
  apply (classify_simple_match_precedence
           (Sample.env_of [] Sample.never_fails)
           (lit "New iPhone technology breakthrough") Runs.tech_news_store
           (ticks 2 Runs.tech_news_store) [news] [] technology).
  - vm_compute. reflexivity.
  - intros x [<- | []]. vm_compute. reflexivity.
  - vm_compute. reflexivity.
  - discriminate.
Defined.

(** C2 as stated fails on a store that holds the empty name: it is a
    substring of every text and the first category in order, yet the
    truth test of [classify_message] takes it for no match and the API is
    called. *)
Lemma classify_empty_category_not_matched :
  contains (lower (Sample.env_of [Runs.answer_greeting; Response (lit "greeting")]
                                 Sample.never_fails) (lit "hello"))
           (lower (Sample.env_of [Runs.answer_greeting; Response (lit "greeting")]
                                 Sample.never_fails) []) = true /\
  exists w',
    MessageClassifier.classify_message
      (Sample.env_of [Runs.answer_greeting; Response (lit "greeting")]
                     Sample.never_fails)
      (lit "hello") (Sample.store_of [[]] [] 1)
    = (Ok (lit "greeting", f_0_9), w') /\
    api_calls w' = 2%nat /\
    (lit "greeting", f_0_9) <> (@nil N, 1.0%float).
Proof.
  split; [reflexivity|]. eexists.
  split; [vm_compute; reflexivity|]. split; [reflexivity | discriminate].
Qed.

Lemma classify_duplicate_check_exhausted_witness :
  exists w2,
    MessageClassifier.classify_message
      (Sample.env_of [Runs.answer_ai_research; APIError; RateLimitError;
                      OtherException] Sample.never_fails)
      Runs.healthcare_text Runs.tech_store
    = (Ok (MessageClassifier.s_general, f_0_85), w2) /\
    api_calls w2 = (1 + 3)%nat.
Proof.
  apply (classify_duplicate_check_exhausted
           (Sample.env_of [Runs.answer_ai_research; APIError; RateLimitError;
                           OtherException] Sample.never_fails)
           Runs.healthcare_text Runs.tech_store (ticks 2 Runs.tech_store)
           (called (ticks 2 Runs.tech_store)) [technology] ai_research f_0_85).
  - vm_compute. reflexivity.
  - vm_compute. reflexivity.
  - vm_compute. reflexivity.
  - vm_compute. reflexivity.
  - discriminate.
  - intros k Hk.
    destruct k as [|[|[|k]]]; [reflexivity | reflexivity | reflexivity | lia].
Defined.

(** C1 as stated fails: the classification proposes ai_research, the three
    attempts of the duplicate check fail, and the final category is
    general, not the candidate. *)
Lemma classify_duplicate_check_exhausted_not_candidate :
  MessageClassifier._classify_with_claude
    (Sample.env_of [Runs.answer_ai_research; APIError; RateLimitError;
                    OtherException] Sample.never_fails)
    Runs.healthcare_text [technology] (ticks 2 Runs.tech_store)
  = (Ok (VPair ai_research f_0_85), called (ticks 2 Runs.tech_store)) /\
  exists w2,
    MessageClassifier.classify_message
      (Sample.env_of [Runs.answer_ai_research; APIError; RateLimitError;
                      OtherException] Sample.never_fails)
      Runs.healthcare_text Runs.tech_store
    = (Ok (lit "general", f_0_85), w2) /\
    api_calls w2 = 4%nat /\
    lit "general" <> ai_research.
Proof.
  split; [vm_compute; reflexivity|]. eexists.
  split; [vm_compute; reflexivity|]. split; [reflexivity | discriminate].
Qed.

Lemma classify_low_confidence_review_witness :
  PrimFloat.ltb f_0_3 0.5%float = true /\
  exists category w2,
    MessageClassifier.classify_message
      (Sample.env_of [Runs.answer_uncertain] Sample.never_fails)
      Runs.healthcare_text
      (Sample.store_of [technology; MessageClassifier.s_review] [] 1)
    = (Ok (category, f_0_3), w2) /\
    (str_in (Sample.lower_basic MessageClassifier.s_review)
            (map Sample.lower_basic [MessageClassifier.s_review; technology])
     = true ->
     category = MessageClassifier.s_review).
Proof.
  split; [reflexivity|].
  destruct (proj2 (classify_low_confidence_review
                     (Sample.env_of [Runs.answer_uncertain]
                                    Sample.never_fails))
              Runs.healthcare_text
              (Sample.store_of [technology; MessageClassifier.s_review] [] 1)
              (ticks 2 (Sample.store_of
                          [technology; MessageClassifier.s_review] [] 1))
              (called (ticks 2 (Sample.store_of
                          [technology; MessageClassifier.s_review] [] 1)))
              [MessageClassifier.s_review; technology]
              MessageClassifier.s_review f_0_3)
    as (_ & category & w2 & E & Hrev & _).
  - vm_compute. reflexivity.
  - vm_compute. reflexivity.
  - vm_compute. reflexivity.
  - reflexivity.
  - exists category, w2. split; [exact E|].
    intros H. apply Hrev. right. exact H.
Defined.

(** C5 as stated fails: the low-confidence answer becomes review, review
    is not a stored category, the duplicate check answers technology, and
    the final category is technology. *)
Lemma classify_low_confidence_not_review :
  MessageClassifier._parse_claude_response
    (Sample.env_of [Runs.answer_uncertain; Response technology]
                   Sample.never_fails)
    (lit "Категория: uncertain" ++ [nl] ++ lit "Уверенность: 0.3")
  = VPair (lit "uncertain") f_0_3 /\
  PrimFloat.ltb f_0_3 0.5%float = true /\
  exists w2,
    MessageClassifier.classify_message
      (Sample.env_of [Runs.answer_uncertain; Response technology]
                     Sample.never_fails)
      Runs.healthcare_text Runs.tech_store
    = (Ok (technology, f_0_3), w2) /\
    technology <> MessageClassifier.s_review.
Proof.
  split; [vm_compute; reflexivity|]. split; [reflexivity|]. eexists.
  split; [vm_compute; reflexivity | discriminate].
Qed.

(** C7 on the code: the store holds technology, the candidate is tech and
    the duplicate check answers Technology.  The answer matches the stored
    category case-insensitively, and the final category is the answer as
    the model spelled it, not the stored spelling. *)
Theorem duplicate_check_keeps_answer_casing :
  str_in (Sample.lower_basic (lit "Technology"))
         (map Sample.lower_basic [technology]) = true /\
  MessageClassifier._check_duplicate_category
    (Sample.env_of [Response (lit "Technology")] Sample.never_fails)
    (lit "tech") [technology] Runs.tech_store
  = (Ok (VStr (lit "Technology")), called Runs.tech_store) /\
  exists w2,
    MessageClassifier.classify_message
      (Sample.env_of [Runs.answer_tech; Response (lit "Technology")]
                     Sample.never_fails)
      (lit "New phones and laptops") Runs.tech_store
    = (Ok (lit "Technology", f_0_9), w2) /\
    categories (committed w2) = [technology] /\
    lit "Technology" <> technology.
Proof.
  split; [reflexivity|]. split; [vm_compute; reflexivity|]. eexists.
  split; [vm_compute; reflexivity|]. split; [reflexivity | discriminate].
Qed.

Lemma classify_scenario_new_category_witness :
  MessageClassifier._parse_claude_response
    (Sample.env_of [Runs.answer_ai_research; Response ai_research]
                   Sample.never_fails) scenario_response
  = VPair ai_research f_0_85 /\
  exists w2,
    MessageClassifier.classify_message
      (Sample.env_of [Runs.answer_ai_research; Response ai_research]
                     Sample.never_fails)
      Runs.healthcare_text Runs.tech_news_store
    = (Ok (ai_research, f_0_85), w2) /\
    api_calls w2 = (0 + 2)%nat /\
    sleeps w2 = [].
Proof.
  apply (classify_scenario_new_category
           (Sample.env_of [Runs.answer_ai_research; Response ai_research]
                          Sample.never_fails)
           Runs.healthcare_text Runs.tech_news_store
           (ticks 2 Runs.tech_news_store) [news; technology]).
  - vm_compute. reflexivity.
  - apply perm_swap.
  - vm_compute. reflexivity.
  - vm_compute. reflexivity.
  - vm_compute. discriminate.
  - vm_compute. discriminate.
  - vm_compute. reflexivity.
  - vm_compute. reflexivity.
Defined.

(** C8 as stated fails: under the labels [Category:] and [Confidence:]
    the parser finds neither line, the answer parses to (general, 0.5),
    and the final result is (general, 0.5). *)
Lemma classify_scenario_english_labels :
  MessageClassifier._parse_claude_response
    (Sample.env_of [Response scenario_response_english; Response ai_research]
                   Sample.never_fails) scenario_response_english
  = VPair (lit "general") 0.5%float /\
  exists w2,
    MessageClassifier.classify_message
      (Sample.env_of [Response scenario_response_english;
                      Response ai_research] Sample.never_fails)
      Runs.healthcare_text Runs.tech_news_store
    = (Ok (lit "general", 0.5%float), w2) /\
    api_calls w2 = 2%nat /\
    (lit "general", 0.5%float) <> (ai_research, f_0_85).
Proof.
  split; [vm_compute; reflexivity|]. eexists.
  split; [vm_compute; reflexivity|]. split; [reflexivity | discriminate].
Qed.

(* ================================================================= *)
(** ** The retry loop of the summarizer *)

Section SummarizerRetry.
Variable env : Env.
Variables (prompt : str) (max_length : Z) (original_text : str).
Variable max_retries : Z.

Lemma summarizer_retry_loop_step (n : nat) (attempt : Z) (w : world) :
  TextSummarizer.retry_loop env (S n) attempt prompt max_length
    original_text max_retries w =
  match api env (api_calls w) prompt 300 with
  | Response text =>
      let summary := TextSummarizer._clean_summary (strip text) in
      if max_length <? len summary
      then (Ok (TextSummarizer.rsplit1_head
                  (TextSummarizer.slice_to summary max_length) ++ lit "..."),
            called w)
      else (Ok summary, called w)
  | RateLimitError =>
      TextSummarizer.retry_loop env n (attempt + 1) prompt max_length
        original_text max_retries (slept (2 ^ attempt + 1) (called w))
  | APIError =>
      summarizer_on_error env prompt max_length original_text max_retries
        n attempt (called w)
  | OtherException =>
      summarizer_on_error env prompt max_length original_text max_retries
        n attempt (called w)
  end.
Proof.
  unfold summarizer_on_error. simpl.
  unfold bind, messages_create. fold (called w).
  destruct (api env (api_calls w) prompt 300); simpl;
    try (destruct (attempt <? max_retries - 1); reflexivity);
    try reflexivity.
  destruct (max_length <? len (TextSummarizer._clean_summary (strip text)));
    reflexivity.
Qed.

(** A summarization in which every attempt fails makes all its attempts,
    returns the truncation fallback, and sleeps as
    [sleeps_when_exhausted] counts. *)
Lemma summarizer_retry_loop_exhausted (n : nat) :
  forall attempt w,
    Z.of_nat n + attempt = max_retries ->
    (forall k, (k < n)%nat ->
       failing (api env (api_calls w + k) prompt 300) = true) ->
    exists w' waits,
      TextSummarizer.retry_loop env n attempt prompt max_length
        original_text max_retries w
      = (Ok (TextSummarizer._fallback_summary original_text max_length),
         w') /\
      same_db w w' /\
      api_calls w' = (api_calls w + n)%nat /\
      sleeps w' = sleeps w ++ waits /\
      List.length waits
      = sleeps_when_exhausted n (api env (api_calls w + (n - 1)) prompt 300).
Proof.
  induction n as [|n IH]; intros attempt w Hinv Hfail.
  - exists w, []. simpl. rewrite app_nil_r, Nat.add_0_r.
    repeat split; reflexivity.
  - rewrite summarizer_retry_loop_step.
    assert (H0 := Hfail 0%nat ltac:(lia)). rewrite Nat.add_0_r in H0.
    assert (Hlast : forall (t : Z) (waits : list Z),
      (0 < n)%nat ->
      List.length waits
      = sleeps_when_exhausted n (api env (api_calls w + S n - 1) prompt 300) ->
      List.length (t :: waits)
      = sleeps_when_exhausted (S n)
          (api env (api_calls w + (S n - 1)) prompt 300)).
    { intros t waits Hpos Hl. destruct n as [|m]; [lia|].
      cbn [sleeps_when_exhausted List.length]. rewrite Hl.
      cbn [sleeps_when_exhausted].
      replace (api_calls w + (S (S m) - 1))%nat
        with (api_calls w + S (S m) - 1)%nat by lia.
      destruct (rate_limited _); lia. }
    assert (Hnext : forall t,
      exists w' waits,
        TextSummarizer.retry_loop env n (attempt + 1) prompt max_length
          original_text max_retries (slept t (called w))
        = (Ok (TextSummarizer._fallback_summary original_text max_length),
           w') /\
        same_db w w' /\
        api_calls w' = (api_calls w + S n)%nat /\
        sleeps w' = sleeps w ++ t :: waits /\
        List.length waits
        = sleeps_when_exhausted n
            (api env (api_calls w + S n - 1) prompt 300)).
    { intros t.
      destruct (IH (attempt + 1) (slept t (called w)) ltac:(lia))
        as (w' & waits & E & Hdb & Hc & Hs & Hl).
      { intros k Hk.
        change (api_calls (slept t (called w))) with (S (api_calls w)).
        replace (S (api_calls w) + k)%nat with (api_calls w + S k)%nat by lia.
        apply Hfail. lia. }
      change (api_calls (slept t (called w))) with (S (api_calls w)) in Hc, Hl.
      change (sleeps (slept t (called w))) with (sleeps w ++ [t]) in Hs.
      exists w', waits.
      split; [exact E|]. split; [exact Hdb|]. split; [lia|].
      split; [rewrite Hs, <- app_assoc; reflexivity|].
      rewrite Hl. destruct n as [|m]; [reflexivity|].
      replace (S (api_calls w) + (S m - 1))%nat
        with (api_calls w + S (S m) - 1)%nat by lia.
      reflexivity. }
    destruct (api env (api_calls w) prompt 300) eqn:Er; try discriminate H0.
    + destruct (Hnext (2 ^ attempt + 1))
        as (w' & waits & E & Hdb & Hc & Hs & Hl).
      exists w', (2 ^ attempt + 1 :: waits).
      repeat split; try apply Hdb; auto.
      destruct n as [|m].
      * simpl in *. rewrite Nat.add_0_r, Er. simpl.
        destruct waits; [reflexivity | discriminate].
      * apply Hlast; [lia | assumption].
    + unfold summarizer_on_error. destruct (attempt <? max_retries - 1) eqn:Hlt.
      * apply Z.ltb_lt in Hlt.
        destruct (Hnext (2 ^ attempt)) as (w' & waits & E & Hdb & Hc & Hs & Hl).
        exists w', (2 ^ attempt :: waits). repeat split; try apply Hdb; auto.
        apply Hlast; [lia | assumption].
      * apply Z.ltb_ge in Hlt. assert (n = 0%nat) by lia. subst n.
        exists (called w), []. simpl. rewrite app_nil_r, Nat.add_0_r, Er.
        repeat split; auto. lia.
    + unfold summarizer_on_error. destruct (attempt <? max_retries - 1) eqn:Hlt.
      * apply Z.ltb_lt in Hlt.
        destruct (Hnext (2 ^ attempt)) as (w' & waits & E & Hdb & Hc & Hs & Hl).
        exists w', (2 ^ attempt :: waits). repeat split; try apply Hdb; auto.
        apply Hlast; [lia | assumption].
      * apply Z.ltb_ge in Hlt. assert (n = 0%nat) by lia. subst n.
        exists (called w), []. simpl. rewrite app_nil_r, Nat.add_0_r, Er.
        repeat split; auto. lia.
Qed.

End SummarizerRetry.

(* ================================================================= *)
(** ** The retry ceiling *)

Section RetryCeiling.
Variable env : Env.

(** A Gateway call of the classifier in which every one of the
    [max_retries] attempts fails: [max_retries] attempts, the fallback,
    and [max_retries - 1] sleeps unless the last failure was a rate limit,
    in which case there are [max_retries] sleeps. *)
Lemma call_claude_with_retry_exhausted (prompt : str)
    (parser_func : str -> value) (operation_name : str)
    (max_tokens max_retries : Z) (w : world) :
  0 < max_retries ->
  (forall k, (k < Z.to_nat max_retries)%nat ->
     failing (api env (api_calls w + k) prompt max_tokens) = true) ->
  exists w',
    MessageClassifier._call_claude_with_retry env prompt parser_func
      operation_name max_tokens max_retries w
    = (Ok (MessageClassifier.fallback operation_name), w') /\
    Z.of_nat (api_calls w') = Z.of_nat (api_calls w) + max_retries /\
    Z.of_nat (List.length (sleeps w'))
    = Z.of_nat (List.length (sleeps w)) + max_retries - 1
      + (if rate_limited
              (api env (api_calls w + (Z.to_nat max_retries - 1)) prompt
                   max_tokens)
         then 1 else 0).
Proof.
  intros Hpos Hfail. unfold MessageClassifier._call_claude_with_retry.
  destruct (retry_loop_exhausted env prompt parser_func operation_name
              max_tokens max_retries (Z.to_nat max_retries) 0 w
              ltac:(lia) Hfail)
    as (w' & waits & E & _ & Hc & Hs & Hl).
  exists w'. split; [exact E|]. split; [lia|].
  rewrite Hs, length_app, Hl.
  destruct (Z.to_nat max_retries) as [|m] eqn:Em; [lia|].
  cbn [sleeps_when_exhausted]. destruct (rate_limited _); lia.
Qed.

(** The same for the summarizer. *)
Lemma summarizer_call_claude_with_retry_exhausted (prompt : str)
    (max_length : Z) (original_text : str) (max_retries : Z) (w : world) :
  0 < max_retries ->
  (forall k, (k < Z.to_nat max_retries)%nat ->
     failing (api env (api_calls w + k) prompt 300) = true) ->
  exists w',
    TextSummarizer._call_claude_with_retry env prompt max_length
      original_text max_retries w
    = (Ok (TextSummarizer._fallback_summary original_text max_length), w') /\
    Z.of_nat (api_calls w') = Z.of_nat (api_calls w) + max_retries /\
    Z.of_nat (List.length (sleeps w'))
    = Z.of_nat (List.length (sleeps w)) + max_retries - 1
      + (if rate_limited
              (api env (api_calls w + (Z.to_nat max_retries - 1)) prompt 300)
         then 1 else 0).
Proof.
  intros Hpos Hfail. unfold TextSummarizer._call_claude_with_retry.
  destruct (summarizer_retry_loop_exhausted env prompt max_length
              original_text max_retries (Z.to_nat max_retries) 0 w
              ltac:(lia) Hfail)
    as (w' & waits & E & _ & Hc & Hs & Hl).
  exists w'. split; [exact E|]. split; [lia|].
  rewrite Hs, length_app, Hl.
  destruct (Z.to_nat max_retries) as [|m] eqn:Em; [lia|].
  cbn [sleeps_when_exhausted]. destruct (rate_limited _); lia.
Qed.

End RetryCeiling.

(** C6 on the code: three attempts that all raise [RateLimitError] are
    three attempts and three sleeps (2, 3 and 5 seconds), the last one
    after the final attempt, before the fallback is returned; in the
    classifier and in the summarizer alike.  With [APIError] on every
    attempt the sleeps are two. *)
Theorem retry_rate_limited_sleeps_after_last_attempt :
  MessageClassifier._call_claude_with_retry
    (Sample.env_of [RateLimitError; RateLimitError; RateLimitError]
                   Sample.never_fails)
    (lit "prompt") (fun _ => VStr []) MessageClassifier.s_classification 200 3
    (Sample.store_of [] [] 1)
  = (Ok (VPair (lit "general") 0.5%float),
     mkWorld (mkTables [] [] 1) (mkTables [] [] 1) 0 3 [2; 3; 5]) /\
  TextSummarizer._call_claude_with_retry
    (Sample.env_of [RateLimitError; RateLimitError; RateLimitError]
                   Sample.never_fails)
    (lit "prompt") 200 (lit "original text") 3 (Sample.store_of [] [] 1)
  = (Ok (lit "original text"),
     mkWorld (mkTables [] [] 1) (mkTables [] [] 1) 0 3 [2; 3; 5]) /\
  MessageClassifier._call_claude_with_retry
    (Sample.env_of [APIError; APIError; APIError] Sample.never_fails)
    (lit "prompt") (fun _ => VStr []) MessageClassifier.s_classification 200 3
    (Sample.store_of [] [] 1)
  = (Ok (VPair (lit "general") 0.5%float),
     mkWorld (mkTables [] [] 1) (mkTables [] [] 1) 0 3 [1; 2]).
Proof.
  repeat split; vm_compute; reflexivity.
Qed.

(* ================================================================= *)
(** ** The unit tests of the repository, run on the model *)

(** [test_simple_category_match_case_insensitive]. *)
Example test_simple_category_match_case_insensitive :
  MessageClassifier._simple_category_match Runs.quiet_env
    (lit "This is about TECHNOLOGY and innovation") [technology; news]
  = Some technology.
Proof. vm_compute. reflexivity. Qed.

(** [test_simple_category_match_no_match]. *)
Example test_simple_category_match_no_match :
  MessageClassifier._simple_category_match Runs.quiet_env
    (lit "This is about cooking and recipes") [technology; news]
  = None.
Proof. vm_compute. reflexivity. Qed.

(** [test_parse_claude_response_success]. *)
Example test_parse_claude_response_success :
  MessageClassifier._parse_claude_response Runs.quiet_env (lit "
        Анализ: Текст о новых технологиях
        Категория: technology
        Уверенность: 0.9
        ")
  = VPair technology f_0_9.
Proof. vm_compute. reflexivity. Qed.

(** [test_parse_claude_response_malformed]. *)
Example test_parse_claude_response_malformed :
  MessageClassifier._parse_claude_response Runs.quiet_env (lit "Invalid response format")
  = VPair (lit "general") 0.5%float.
Proof. vm_compute. reflexivity. Qed.

(** [test_parse_claude_response_invalid_confidence]. *)
Example test_parse_claude_response_invalid_confidence :
  MessageClassifier._parse_claude_response Runs.quiet_env (lit "
        Категория: technology
        Уверенность: invalid_number
        ")
  = VPair technology 0.5%float.
Proof. vm_compute. reflexivity. Qed.

(** [test_call_claude_with_retry_rate_limit]: one rate limit, then an
    answer; two calls and one sleep of 2 seconds. *)
Example test_call_claude_with_retry_rate_limit :
  MessageClassifier._call_claude_with_retry
    (Sample.env_of [RateLimitError; Response (lit "ok")] Sample.never_fails)
    (lit "test prompt") (fun _ => VPair technology f_0_9)
    MessageClassifier.s_classification 200 3 (Sample.store_of [] [] 1)
  = (Ok (VPair technology f_0_9),
     mkWorld (mkTables [] [] 1) (mkTables [] [] 1) 0 2 [2]).
Proof. vm_compute. reflexivity. Qed.

(** [test_call_claude_with_retry_max_retries_exceeded]: two attempts, one
    sleep. *)
Example test_call_claude_with_retry_max_retries_exceeded :
  MessageClassifier._call_claude_with_retry
    (Sample.env_of [OtherException; OtherException] Sample.never_fails)
    (lit "test prompt") (fun _ => VPair technology f_0_9)
    MessageClassifier.s_classification 200 2 (Sample.store_of [] [] 1)
  = (Ok (VPair (lit "general") 0.5%float),
     mkWorld (mkTables [] [] 1) (mkTables [] [] 1) 0 2 [1]).
Proof. vm_compute. reflexivity. Qed.

(** [test_clean_text_excessive_whitespace]. *)
Example test_clean_text_excessive_whitespace :
  TextSummarizer._clean_text (lit "Text   with    excessive     whitespace")
  = lit "Text with excessive whitespace".
Proof. vm_compute. reflexivity. Qed.

(** [test_clean_text_excessive_punctuation]. *)
Example test_clean_text_excessive_punctuation :
  TextSummarizer._clean_text
    (lit "Text with excessive punctuation!!! And dots... More dots....")
  = lit "Text with excessive punctuation! And dots... More dots...".
Proof. vm_compute. reflexivity. Qed.

(** The input of [test_clean_text_forwarding_markers]: the white-space
    pass runs first and turns the newline into a space, so the marker
    pattern, which needs a newline, finds nothing to delete. *)
Example clean_text_marker_line_kept :
  TextSummarizer._clean_text
    (lit "Forwarded from @channel" ++ [nl] ++ lit "Actual message content")
  = lit "Forwarded from @channel Actual message content".
Proof. vm_compute. reflexivity. Qed.

(** [test_clean_summary_with_prefixes], two of its cases. *)
Example test_clean_summary_with_prefixes :
  TextSummarizer._clean_summary (lit "Резюме: This is summary")
  = lit "This is summary" /\
  TextSummarizer._clean_summary (lit "В кратце: This is summary")
  = lit "This is summary".
Proof. split; vm_compute; reflexivity. Qed.

(** [test_clean_summary_quoted_text]. *)
Example test_clean_summary_quoted_text :
  TextSummarizer._clean_summary
    ([dquote] ++ lit "This is a quoted summary" ++ [dquote])
  = lit "This is a quoted summary".
Proof. vm_compute. reflexivity. Qed.

(** [test_fallback_summary_sentence_boundary]. *)
Example test_fallback_summary_sentence_boundary :
  TextSummarizer._fallback_summary
    (lit "First sentence. Second sentence. Third sentence.") 20
  = lit "First sentence.".
Proof. vm_compute. reflexivity. Qed.

(** [test_fallback_summary_hard_truncation]. *)
Example test_fallback_summary_hard_truncation :
  TextSummarizer._fallback_summary (lit "Verylongtextwithoutspaces") 10
  = lit "Verylongte...".
Proof. vm_compute. reflexivity. Qed.

(** [test_deduplication_flow] and [test_save_message_success] on a
    working connection: a new message gets the next identifier, and the
    same link a second time gets none. *)
Example test_save_then_duplicate :
  exists w1 w2,
    Database.save_message Runs.quiet_env (Some (lit "https://example.com"))
      (lit "https://t.me/test/123") (lit "Test summary") technology
      (Sample.store_of [news] [] 123)
    = (Ok (Some 123), w1) /\
    Database.save_message Runs.quiet_env None
      (lit "https://t.me/test/123") (lit "Another summary") technology w1
    = (Ok None, w2) /\
    categories (committed w2) = [news; technology] /\
    List.length (messages (committed w2)) = 1%nat.
Proof.
  do 2 eexists. split; [vm_compute; reflexivity|].
  split; [vm_compute; reflexivity|]. split; reflexivity.
Qed.

(* ================================================================= *)
(** ** Further properties: the summarizer *)

Lemma len_nonneg (s : str) : 0 <= len s.
Proof. unfold len. lia. Qed.

Lemma len_app (a b : str) : len (a ++ b) = len a + len b.
Proof. unfold len. rewrite length_app. lia. Qed.

Lemma len_firstn (k : nat) (s : str) :
  len (firstn k s) <= Z.of_nat k /\ len (firstn k s) <= len s.
Proof.
  unfold len. rewrite length_firstn. lia.
Qed.

Lemma slice_to_firstn (s : str) (k : Z) :
  exists j, TextSummarizer.slice_to s k = firstn j s /\
            (0 <= k -> Z.of_nat j <= k).
Proof.
  unfold TextSummarizer.slice_to. destruct (0 <=? k) eqn:E.
  - exists (Z.to_nat k). split; [reflexivity|]. lia.
  - exists (Z.to_nat (len s + k)). split; [reflexivity|].
    apply Z.leb_gt in E. lia.
Qed.

Lemma slice_to_len (s : str) (k : Z) :
  len (TextSummarizer.slice_to s k) <= len s /\
  (0 <= k -> len (TextSummarizer.slice_to s k) <= k).
Proof.
  destruct (slice_to_firstn s k) as (j & -> & Hj).
  destruct (len_firstn j s) as [H1 H2]. split; [assumption|]. intros H.
  specialize (Hj H). lia.
Qed.

Lemma rsplit1_head_len (s : str) :
  len (TextSummarizer.rsplit1_head s) <= len s.
Proof.
  unfold TextSummarizer.rsplit1_head.
  destruct (TextSummarizer.rfind s space <? 0); [lia|].
  apply slice_to_len.
Qed.

Lemma len_ellipsis : len (lit "...") = 3.
Proof. reflexivity. Qed.

(** The fallback summary is a prefix of the text, with or without a final
    ellipsis. *)
Lemma fallback_summary_prefix (text : str) (max_length : Z) :
  0 <= max_length ->
  exists k,
    Z.of_nat k <= max_length /\
    (TextSummarizer._fallback_summary text max_length = firstn k text \/
     TextSummarizer._fallback_summary text max_length
     = firstn k text ++ lit "...").
Proof.
  intros Hm. unfold TextSummarizer._fallback_summary.
  destruct (len text <=? max_length) eqn:Hfit.
  - apply Z.leb_le in Hfit.
    exists (List.length text). split; [exact Hfit|]. left.
    now rewrite firstn_all.
  - apply Z.leb_gt in Hfit.
    assert (Htr : TextSummarizer.slice_to text max_length
                  = firstn (Z.to_nat max_length) text).
    { unfold TextSummarizer.slice_to.
      destruct (0 <=? max_length) eqn:E; [reflexivity|].
      apply Z.leb_gt in E. lia. }
    rewrite Htr.
    assert (Hpre : forall j, exists k,
               Z.of_nat k <= max_length /\
               TextSummarizer.slice_to (firstn (Z.to_nat max_length) text) j
               = firstn k text).
    { intros j.
      destruct (slice_to_firstn (firstn (Z.to_nat max_length) text) j)
        as (i & -> & _).
      exists (Nat.min i (Z.to_nat max_length)). split; [lia|].
      apply firstn_firstn. }
    destruct (max_length / 2 <?
              TextSummarizer.rfind (firstn (Z.to_nat max_length) text) dot).
    + destruct (Hpre (TextSummarizer.rfind
                        (firstn (Z.to_nat max_length) text) dot + 1))
        as (k & Hk & ->).
      eauto.
    + destruct (max_length / 2 <?
                TextSummarizer.rfind (firstn (Z.to_nat max_length) text)
                                     space).
      * destruct (Hpre (TextSummarizer.rfind
                          (firstn (Z.to_nat max_length) text) space))
          as (k & Hk & ->).
        eauto.
      * exists (Z.to_nat max_length). split; [lia | now right].
Qed.

Lemma fallback_summary_len (text : str) (max_length : Z) :
  0 <= max_length ->
  len (TextSummarizer._fallback_summary text max_length) <= max_length + 3.
Proof.
  intros Hm.
  destruct (fallback_summary_prefix text max_length Hm) as (k & Hk & [-> | ->]).
  - destruct (len_firstn k text). lia.
  - rewrite len_app, len_ellipsis. destruct (len_firstn k text). lia.
Qed.

(** X1: for a non-negative [max_length], the fallback summary is the text
    itself when it fits; in every case it is a prefix of the text of at
    most [max_length] characters, with or without a final ellipsis, so it
    never has more than [max_length + 3] characters. *)
Theorem fallback_summary_prefix_bound (text : str) (max_length : Z) :
  0 <= max_length ->
  (len text <= max_length ->
   TextSummarizer._fallback_summary text max_length = text) /\
  (exists k,
      Z.of_nat k <= max_length /\
      (TextSummarizer._fallback_summary text max_length = firstn k text \/
       TextSummarizer._fallback_summary text max_length
       = firstn k text ++ lit "...")) /\
  len (TextSummarizer._fallback_summary text max_length) <= max_length + 3.
Proof.
  intros Hm. split; [|split].
  - intros Hfit. unfold TextSummarizer._fallback_summary.
    apply Z.leb_le in Hfit. now rewrite Hfit.
  - exact (fallback_summary_prefix text max_length Hm).
  - exact (fallback_summary_len text max_length Hm).
Qed.

Lemma fallback_summary_prefix_bound_witness :
  0 <= 20 /\
  len (TextSummarizer._fallback_summary
         (lit "This is a long text without sentence boundaries") 20)
  <= 20 + 3.
Proof.
  split; [lia|].
  exact (proj2 (proj2 (fallback_summary_prefix_bound
           (lit "This is a long text without sentence boundaries") 20
           ltac:(lia)))).
Defined.

Section SummarizerRuns.
Variable env : Env.
Variables (prompt : str) (max_length : Z) (original_text : str).
Variable max_retries : Z.

(** Every run of the summarizer's loop: it returns, leaves the connection
    alone, makes at most [n] calls, sleeps at most once per call on the
    back-off schedule, and its summary is bounded. *)
Lemma summarizer_retry_loop_run (n : nat) :
  forall attempt w, exists r w' waits,
    TextSummarizer.retry_loop env n attempt prompt max_length original_text
      max_retries w = (Ok r, w') /\
    same_db w w' /\
    (api_calls w <= api_calls w' <= api_calls w + n)%nat /\
    sleeps w' = sleeps w ++ waits /\
    (List.length waits <= api_calls w' - api_calls w)%nat /\
    backoff_from attempt waits /\
    (0 <= max_length -> len r <= max_length + 3).
Proof.
  induction n as [|n IH]; intros attempt w.
  - exists (TextSummarizer._fallback_summary original_text max_length), w, [].
    simpl. rewrite app_nil_r. repeat split; auto; try lia.
    intros H. apply (fallback_summary_len original_text _ H).
  - rewrite summarizer_retry_loop_step.
    assert (Hnext : forall t, (t = 2 ^ attempt \/ t = 2 ^ attempt + 1) ->
      exists r w' waits,
        TextSummarizer.retry_loop env n (attempt + 1) prompt max_length
          original_text max_retries (slept t (called w)) = (Ok r, w') /\
        same_db w w' /\
        (api_calls w <= api_calls w' <= api_calls w + S n)%nat /\
        sleeps w' = sleeps w ++ waits /\
        (List.length waits <= api_calls w' - api_calls w)%nat /\
        backoff_from attempt waits /\
        (0 <= max_length -> len r <= max_length + 3)).
    { intros t Ht.
      destruct (IH (attempt + 1) (slept t (called w)))
        as (r & w' & waits & E & Hdb & Hc & Hs & Hl & Hb & Hr).
      change (api_calls (slept t (called w))) with (S (api_calls w)) in Hc, Hl.
      change (sleeps (slept t (called w))) with (sleeps w ++ [t]) in Hs.
      exists r, w', (t :: waits).
      split; [exact E|]. split; [exact Hdb|]. split; [lia|].
      split; [rewrite Hs, <- app_assoc; reflexivity|].
      split; [simpl; lia|]. split; [split; assumption | assumption]. }
    assert (Hstop : forall r,
      (0 <= max_length -> len r <= max_length + 3) ->
      exists r' w' waits,
        (Ok r, called w) = (Ok r', w') /\
        same_db w w' /\
        (api_calls w <= api_calls w' <= api_calls w + S n)%nat /\
        sleeps w' = sleeps w ++ waits /\
        (List.length waits <= api_calls w' - api_calls w)%nat /\
        backoff_from attempt waits /\
        (0 <= max_length -> len r' <= max_length + 3)).
    { intros r Hr. exists r, (called w), []. simpl. rewrite app_nil_r.
      repeat split; auto; lia. }
    assert (Herr : exists r w' waits,
      summarizer_on_error env prompt max_length original_text max_retries
        n attempt (called w) = (Ok r, w') /\
      same_db w w' /\
      (api_calls w <= api_calls w' <= api_calls w + S n)%nat /\
      sleeps w' = sleeps w ++ waits /\
      (List.length waits <= api_calls w' - api_calls w)%nat /\
      backoff_from attempt waits /\
      (0 <= max_length -> len r <= max_length + 3)).
    { unfold summarizer_on_error. destruct (attempt <? max_retries - 1).
      - apply Hnext. now left.
      - apply Hstop. intros H.
        apply (fallback_summary_len original_text _ H). }
    destruct (api env (api_calls w) prompt 300);
      [ | apply Hnext; now right | exact Herr | exact Herr ].
    cbv zeta.
    destruct (max_length <?
              len (TextSummarizer._clean_summary (strip text))) eqn:Hlong;
      apply Hstop; intros H.
    + rewrite len_app, len_ellipsis.
        pose proof (rsplit1_head_len
                      (TextSummarizer.slice_to
                         (TextSummarizer._clean_summary (strip text))
                         max_length)) as H1.
        pose proof (proj2 (slice_to_len
                      (TextSummarizer._clean_summary (strip text))
                      max_length) H) as H2.
      lia.
    + apply Z.ltb_ge in Hlong. lia.
Qed.

End SummarizerRuns.

(** Every run of [summarize_text]. *)
Lemma summarize_text_run (env : Env) (text : str) (max_length : Z)
    (w : world) :
  0 <= max_length ->
  exists r w',
    TextSummarizer.summarize_text env text max_length w = (Ok r, w') /\
    len r <= Z.max 49 (max_length + 3) /\
    same_db w w' /\
    (api_calls w <= api_calls w' <= api_calls w + 3)%nat.
Proof.
  intros Hm. unfold TextSummarizer.summarize_text.
  destruct (negb (nonempty text) || (len (strip text) <? 50)) eqn:Hshort.
  - exists (strip text), w. split; [reflexivity|].
    split; [|repeat split; lia].
    apply orb_true_iff in Hshort as [Hempty | Hlt].
    + destruct text; [|discriminate]. change (len (strip [])) with 0. lia.
    + apply Z.ltb_lt in Hlt. lia.
  - unfold TextSummarizer._call_claude_with_retry.
    destruct (summarizer_retry_loop_run env
                (TextSummarizer.summary_prompt max_length
                   (TextSummarizer._clean_text text))
                max_length (TextSummarizer._clean_text text) 3
                (Z.to_nat 3) 0 w)
      as (r & w' & waits & E & Hdb & Hc & _ & _ & _ & Hr).
    exists r, w'. split; [exact E|]. specialize (Hr Hm).
    split; [lia|]. split; [exact Hdb|]. exact Hc.
Qed.

(** X2: for a non-negative [max_length], [summarize_text] always returns;
    its result has at most [max_length + 3] characters, or fewer than 50
    when the input was short enough to bypass the API; it makes at most
    three API calls and leaves the connection alone. *)
Theorem summarize_text_length_bound (env : Env) (text : str) (max_length : Z)
    (w : world) :
  0 <= max_length ->
  exists r w',
    TextSummarizer.summarize_text env text max_length w = (Ok r, w') /\
    len r <= Z.max 49 (max_length + 3) /\
    same_db w w' /\
    (api_calls w <= api_calls w' <= api_calls w + 3)%nat.
Proof. exact (summarize_text_run env text max_length w). Qed.

Lemma summarize_text_length_bound_witness :
  0 <= 200 /\
  exists r w',
    TextSummarizer.summarize_text Runs.quiet_env
      (lit "A text that is long enough to be sent to the API for a summary.")
      200 (Sample.store_of [] [] 1) = (Ok r, w') /\
    len r <= Z.max 49 (200 + 3) /\
    same_db (Sample.store_of [] [] 1) w' /\
    (api_calls (Sample.store_of [] [] 1) <= api_calls w'
     <= api_calls (Sample.store_of [] [] 1) + 3)%nat.
Proof.
  split; [lia|].
  apply (summarize_text_length_bound Runs.quiet_env
           (lit "A text that is long enough to be sent to the API for a summary.")
           200 (Sample.store_of [] [] 1)).
  lia.
Defined.

(** X3: a Gateway call of the summarizer, whatever the API does: it
    returns without raising, leaves the connection alone, makes at most
    [max_retries] calls, sleeps at most once per call, and the wait after
    attempt [j] lasts [2 ^ j] seconds or one more. *)
Theorem summarizer_gateway_bounded (env : Env) (prompt : str)
    (max_length : Z) (original_text : str) (max_retries : Z) (w : world) :
  exists r w' waits,
    TextSummarizer._call_claude_with_retry env prompt max_length
      original_text max_retries w = (Ok r, w') /\
    same_db w w' /\
    Z.of_nat (api_calls w') - Z.of_nat (api_calls w) <= Z.max 0 max_retries /\
    (api_calls w <= api_calls w')%nat /\
    sleeps w' = sleeps w ++ waits /\
    (List.length waits <= api_calls w' - api_calls w)%nat /\
    backoff_from 0 waits.
Proof.
  unfold TextSummarizer._call_claude_with_retry.
  destruct (summarizer_retry_loop_run env prompt max_length original_text
              max_retries (Z.to_nat max_retries) 0 w)
    as (r & w' & waits & E & Hdb & Hc & Hs & Hl & Hb & _).
  exists r, w', waits.
  split; [exact E|]. split; [exact Hdb|]. split; [lia|]. split; [lia|].
  auto.
Qed.

(* ================================================================= *)
(** ** Further properties: text cleaning *)

Lemma sub_runs_go_min1 (P : N -> Prop) (p : N -> bool) (repl : str) :
  Forall P repl ->
  forall s run,
    (forall c, In c s -> p c = false -> P c) ->
    Forall P (TextSummarizer.sub_runs_go p 1 repl s run).
Proof.
  intros Hrepl. induction s as [|c s IH]; intros run Hs; simpl.
  - destruct run; [constructor | exact Hrepl].
  - destruct (p c) eqn:Hp.
    + apply IH. intros d Hd. apply Hs. now right.
    + apply Forall_app. split.
      * destruct run; [constructor | exact Hrepl].
      * constructor; [apply Hs; [now left | exact Hp]|].
        apply IH. intros d Hd. apply Hs. now right.
Qed.

Lemma sub_runs_go_closed (P : N -> Prop) (p : N -> bool) (min : nat)
    (repl : str) :
  Forall P repl ->
  forall s run,
    Forall P s -> Forall P run ->
    Forall P (TextSummarizer.sub_runs_go p min repl s run).
Proof.
  intros Hrepl.
  assert (Hflush : forall run, Forall P run ->
            Forall P (TextSummarizer.flush_run min repl run)).
  { intros run Hrun. unfold TextSummarizer.flush_run.
    destruct run; [constructor|].
    destruct (min <=? List.length (n :: run))%nat; [exact Hrepl|].
    now apply Forall_rev. }
  induction s as [|c s IH]; intros run Hs Hrun; simpl.
  - now apply Hflush.
  - inversion Hs as [|x xs Hc Hs']; subst.
    destruct (p c).
    + apply IH; [assumption | now constructor].
    + apply Forall_app. split; [now apply Hflush|].
      constructor; [assumption | apply IH; [assumption | constructor]].
Qed.

(** Characters outside the pattern, read with no run pending, pass
    through unchanged. *)
Lemma sub_runs_go_prefix (p : N -> bool) (min : nat) (repl m x : str) :
  Forall (fun c => p c = false) m ->
  TextSummarizer.sub_runs_go p min repl (m ++ x) []
  = m ++ TextSummarizer.sub_runs_go p min repl x [].
Proof.
  induction 1 as [|c m Hc Hm IH]; simpl; [reflexivity|].
  rewrite Hc. simpl. now rewrite IH.
Qed.

Lemma split_on_absent (sep : N) (s : str) :
  ~ In sep s -> split_on sep s = [s].
Proof.
  induction s as [|c s IH]; intros Hn; simpl; [reflexivity|].
  destruct (c =? sep)%N eqn:E.
  - apply N.eqb_eq in E. exfalso. apply Hn. now left.
  - rewrite IH; [reflexivity|]. intros H. apply Hn. now right.
Qed.

Lemma startswith_app (s m : str) :
  startswith s m = true -> s = m ++ skipn (List.length m) s.
Proof.
  revert s. induction m as [|c m IH]; intros s H; simpl in *; [reflexivity|].
  destruct s as [|d s]; [discriminate|].
  apply andb_true_iff in H as [Hc Hm]. apply N.eqb_eq in Hc. subst d.
  simpl. now rewrite <- (IH s Hm).
Qed.

Lemma app_startswith (m x : str) : startswith (m ++ x) m = true.
Proof.
  induction m as [|c m IH]; simpl; [destruct x; reflexivity|].
  now rewrite N.eqb_refl, IH.
Qed.

(** The text after the white-space pass of [_clean_text] holds no
    newline. *)
Lemma whitespace_pass_no_newline (s : str) :
  ~ In nl (TextSummarizer.sub_runs isspace 1 [space] s).
Proof.
  intros Hin.
  assert (H : Forall (fun c => c <> nl)
                (TextSummarizer.sub_runs isspace 1 [space] s)).
  { apply sub_runs_go_min1.
    - repeat constructor. discriminate.
    - intros c _ Hc ->. discriminate Hc. }
  rewrite Forall_forall in H. now apply (H nl Hin).
Qed.

(** The marker pass of [_clean_text] gets a text without newline. *)
Lemma marker_pass_identity (text : str) :
  TextSummarizer.remove_marker_lines
    (split_on nl (TextSummarizer.sub_runs isspace 1 [space] (strip text)))
  = TextSummarizer.sub_runs isspace 1 [space] (strip text).
Proof.
  rewrite (split_on_absent nl _ (whitespace_pass_no_newline (strip text))).
  reflexivity.
Qed.

Lemma clean_text_passes (text : str) :
  TextSummarizer._clean_text text
  = TextSummarizer.sub_runs (N.eqb qmark) 2 [qmark]
      (TextSummarizer.sub_runs (N.eqb bang) 2 [bang]
         (TextSummarizer.sub_runs (N.eqb dot) 3 (lit "...")
            (TextSummarizer.sub_runs isspace 1 [space] (strip text)))).
Proof.
  unfold TextSummarizer._clean_text. now rewrite marker_pass_identity.
Qed.

(** X4: the pass of [_clean_text] that is to delete forwarding-marker
    lines never deletes anything: the white-space pass before it leaves no
    newline, and the pattern needs one.  The cleaned text is the three
    punctuation passes applied to the white-space-collapsed text. *)
Theorem clean_text_marker_pass_is_identity (text : str) :
  TextSummarizer.remove_marker_lines
    (split_on nl (TextSummarizer.sub_runs isspace 1 [space] (strip text)))
  = TextSummarizer.sub_runs isspace 1 [space] (strip text) /\
  TextSummarizer._clean_text text
  = TextSummarizer.sub_runs (N.eqb qmark) 2 [qmark]
      (TextSummarizer.sub_runs (N.eqb bang) 2 [bang]
         (TextSummarizer.sub_runs (N.eqb dot) 3 (lit "...")
            (TextSummarizer.sub_runs isspace 1 [space] (strip text)))).
Proof.
  split; [apply marker_pass_identity | apply clean_text_passes].
Qed.

(** X5: a text whose stripped form starts with a forwarding marker still
    starts with it after [_clean_text]. *)
Theorem clean_text_keeps_marker (text marker : str) :
  In marker TextSummarizer.markers ->
  startswith (strip text) marker = true ->
  startswith (TextSummarizer._clean_text text) marker = true.
Proof.
  intros Hin Hstart.
  rewrite (clean_text_passes text).
  rewrite (startswith_app _ _ Hstart).
  generalize (skipn (List.length marker) (strip text)) as rest. intros rest.
  assert (Hws : exists rest',
            TextSummarizer.sub_runs isspace 1 [space] (marker ++ rest)
            = marker ++ rest').
  { unfold TextSummarizer.markers in Hin.
    destruct Hin as [<- | [<- | [<- | []]]];
      eexists; unfold TextSummarizer.sub_runs;
      match goal with
      | |- context [lit ?m] =>
          let v := eval vm_compute in (lit m) in change (lit m) with v
      end;
      cbn -[TextSummarizer.sub_runs_go];
      repeat (cbn [TextSummarizer.sub_runs_go isspace
                   TextSummarizer.flush_run app];
              cbv [isspace]; cbn [N.leb N.eqb N.compare Pos.compare
                                  Pos.compare_cont Pos.eqb andb orb
                                  List.length Nat.leb app rev]);
      reflexivity. }
  destruct Hws as (rest' & ->).
  assert (Hpunct : forall p,
            (p = N.eqb dot \/ p = N.eqb bang \/ p = N.eqb qmark) ->
            Forall (fun c => p c = false) marker).
  { intros p Hp. unfold TextSummarizer.markers in Hin.
    destruct Hin as [<- | [<- | [<- | []]]];
      destruct Hp as [-> | [-> | ->]];
      vm_compute; repeat constructor. }
  unfold TextSummarizer.sub_runs.
  rewrite (sub_runs_go_prefix (N.eqb dot) 3 (lit "...") marker rest'); auto.
  rewrite (sub_runs_go_prefix (N.eqb bang) 2 [bang] marker); auto.
  rewrite (sub_runs_go_prefix (N.eqb qmark) 2 [qmark] marker); auto.
  apply app_startswith.
Qed.

Lemma clean_text_keeps_marker_witness :
  startswith
    (TextSummarizer._clean_text
       (lit "Forwarded from @channel" ++ [nl] ++ lit "Actual message content"))
    (lit "Forwarded from") = true.
Proof.
  apply (clean_text_keeps_marker
           (lit "Forwarded from @channel" ++ [nl]
            ++ lit "Actual message content") (lit "Forwarded from")).
  - left. reflexivity.
  - vm_compute. reflexivity.
Defined.

(** X6: in the text that [_clean_text] returns, every white-space
    character is an ordinary space: newlines, tabs and the other Unicode
    spaces of the input are gone. *)
Theorem clean_text_only_plain_spaces (text : str) :
  only_plain_spaces (TextSummarizer._clean_text text).
Proof.
  rewrite (clean_text_passes text).
  unfold only_plain_spaces, TextSummarizer.sub_runs.
  apply sub_runs_go_closed; [repeat constructor; discriminate | | constructor].
  apply sub_runs_go_closed; [repeat constructor; discriminate | | constructor].
  apply sub_runs_go_closed;
    [vm_compute; repeat constructor; discriminate | | constructor].
  apply sub_runs_go_min1.
  - repeat constructor.
  - intros c _ Hc Hsp. congruence.
Qed.

(* ================================================================= *)
(** ** Further properties: the classifier's Gateway *)

Section ClassifierRuns.
Variable env : Env.
Variables (prompt : str) (parser_func : str -> value) (operation_name : str).
Variables (max_tokens max_retries : Z).

(** Every run of the classifier's loop: it returns, leaves the connection
    alone, makes at most [n] calls and sleeps at most once per call on the
    back-off schedule. *)
Lemma retry_loop_run (n : nat) :
  forall attempt w, exists v w' waits,
    MessageClassifier.retry_loop env n attempt prompt parser_func
      operation_name max_tokens max_retries w = (Ok v, w') /\
    same_db w w' /\
    (api_calls w <= api_calls w' <= api_calls w + n)%nat /\
    sleeps w' = sleeps w ++ waits /\
    (List.length waits <= api_calls w' - api_calls w)%nat /\
    backoff_from attempt waits.
Proof.
  induction n as [|n IH]; intros attempt w.
  - exists (MessageClassifier.fallback operation_name), w, [].
    simpl. rewrite app_nil_r. repeat split; auto; lia.
  - rewrite retry_loop_step.
    assert (Hnext : forall t, (t = 2 ^ attempt \/ t = 2 ^ attempt + 1) ->
      exists v w' waits,
        MessageClassifier.retry_loop env n (attempt + 1) prompt parser_func
          operation_name max_tokens max_retries (slept t (called w))
        = (Ok v, w') /\
        same_db w w' /\
        (api_calls w <= api_calls w' <= api_calls w + S n)%nat /\
        sleeps w' = sleeps w ++ waits /\
        (List.length waits <= api_calls w' - api_calls w)%nat /\
        backoff_from attempt waits).
    { intros t Ht.
      destruct (IH (attempt + 1) (slept t (called w)))
        as (v & w' & waits & E & Hdb & Hc & Hs & Hl & Hb).
      change (api_calls (slept t (called w))) with (S (api_calls w)) in Hc, Hl.
      change (sleeps (slept t (called w))) with (sleeps w ++ [t]) in Hs.
      exists v, w', (t :: waits).
      split; [exact E|]. split; [exact Hdb|]. split; [lia|].
      split; [rewrite Hs, <- app_assoc; reflexivity|].
      split; [simpl; lia|]. split; assumption. }
    assert (Hstop : forall v : value, exists (v' : value) w' waits,
        (Ok v, called w) = (Ok v', w') /\
        same_db w w' /\
        (api_calls w <= api_calls w' <= api_calls w + S n)%nat /\
        sleeps w' = sleeps w ++ waits /\
        (List.length waits <= api_calls w' - api_calls w)%nat /\
        backoff_from attempt waits).
    { intros v. exists v, (called w), []. simpl. rewrite app_nil_r.
      repeat split; auto; lia. }
    assert (Herr : exists v w' waits,
      classifier_on_error env prompt parser_func operation_name
        max_tokens max_retries n attempt (called w) = (Ok v, w') /\
      same_db w w' /\
      (api_calls w <= api_calls w' <= api_calls w + S n)%nat /\
      sleeps w' = sleeps w ++ waits /\
      (List.length waits <= api_calls w' - api_calls w)%nat /\
      backoff_from attempt waits).
    { unfold classifier_on_error. destruct (attempt <? max_retries - 1).
      - apply Hnext. now left.
      - apply Hstop. }
    destruct (api env (api_calls w) prompt max_tokens);
      [ | apply Hnext; now right | exact Herr | exact Herr ].
    destruct (str_eqb operation_name MessageClassifier.s_classification);
      [|apply Hstop].
    destruct (parser_func text) as [s|c f]; [exact Herr|].
    destruct (PrimFloat.ltb f 0.5); apply Hstop.
Qed.

End ClassifierRuns.

(** X7: a Gateway call of the classifier, whatever the API does and
    whatever the parser: it returns without raising, leaves the connection
    alone, makes at most [max_retries] calls, sleeps at most once per
    call, and the wait after attempt [j] lasts [2 ^ j] seconds or one
    more. *)
Theorem classifier_gateway_bounded (env : Env) (prompt : str)
    (parser_func : str -> value) (operation_name : str)
    (max_tokens max_retries : Z) (w : world) :
  exists v w' waits,
    MessageClassifier._call_claude_with_retry env prompt parser_func
      operation_name max_tokens max_retries w = (Ok v, w') /\
    same_db w w' /\
    Z.of_nat (api_calls w') - Z.of_nat (api_calls w) <= Z.max 0 max_retries /\
    (api_calls w <= api_calls w')%nat /\
    sleeps w' = sleeps w ++ waits /\
    (List.length waits <= api_calls w' - api_calls w)%nat /\
    backoff_from 0 waits.
Proof.
  unfold MessageClassifier._call_claude_with_retry.
  destruct (retry_loop_run env prompt parser_func operation_name max_tokens
              max_retries (Z.to_nat max_retries) 0 w)
    as (v & w' & waits & E & Hdb & Hc & Hs & Hl & Hb).
  exists v, w', waits.
  split; [exact E|]. split; [exact Hdb|]. split; [lia|]. split; [lia|].
  auto.
Qed.

(* ================================================================= *)
(** ** Further properties: the classifier *)

Section ClassifierRunFacts.
Variable env : Env.

Lemma s_general_nonempty : MessageClassifier.s_general <> [].
Proof. discriminate. Qed.

Lemma s_review_nonempty : MessageClassifier.s_review <> [].
Proof. discriminate. Qed.

Lemma parse_claude_response_nonempty (t : str) :
  exists c f,
    MessageClassifier._parse_claude_response env t = VPair c f /\ c <> [].
Proof.
  unfold MessageClassifier._parse_claude_response.
  destruct (MessageClassifier.parse_lines env _ None 0.5) as [[c f]|].
  - destruct c as [[|x c]|]; simpl.
    + exists MessageClassifier.s_general, f. split; [reflexivity|discriminate].
    + exists (x :: c), f. split; [reflexivity|discriminate].
    + exists MessageClassifier.s_general, f. split; [reflexivity|discriminate].
  - exists MessageClassifier.s_general, 0.5%float.
    split; [reflexivity|discriminate].
Qed.

(** The classification wrapper returns a pair with a non-empty category,
    after at most three calls. *)
Lemma classify_with_claude_run (text : str) (existing : list str)
    (w : world) :
  exists c f w1,
    MessageClassifier._classify_with_claude env text existing w
    = (Ok (VPair c f), w1) /\
    c <> [] /\ same_db w w1 /\
    (api_calls w <= api_calls w1 <= api_calls w + 3)%nat.
Proof.
  unfold MessageClassifier._classify_with_claude,
    MessageClassifier._call_claude_with_retry.
  set (prompt := MessageClassifier.classification_prompt _ text).
  destruct (retry_loop_run env prompt
              (MessageClassifier._parse_claude_response env)
              MessageClassifier.s_classification 200 3 (Z.to_nat 3) 0 w)
    as (v & w1 & waits & E & Hdb & Hc & _).
  assert (Hpair : forall n attempt w0, exists c f w',
    MessageClassifier.retry_loop env n attempt prompt
      (MessageClassifier._parse_claude_response env)
      MessageClassifier.s_classification 200 3 w0 = (Ok (VPair c f), w') /\
    c <> []).
  { induction n as [|n IH]; intros attempt w0.
    - exists MessageClassifier.s_general, 0.5%float, w0.
      split; [reflexivity|discriminate].
    - rewrite retry_loop_step.
      assert (Herr : exists c f w',
        classifier_on_error env prompt
          (MessageClassifier._parse_claude_response env)
          MessageClassifier.s_classification 200 3 n attempt (called w0)
        = (Ok (VPair c f), w') /\ c <> []).
      { unfold classifier_on_error. destruct (attempt <? 3 - 1).
        - apply IH.
        - exists MessageClassifier.s_general, 0.5%float, (called w0).
          split; [reflexivity|discriminate]. }
      destruct (api env (api_calls w0) prompt 200);
        [ | apply IH | exact Herr | exact Herr ].
      rewrite str_eqb_refl.
      destruct (parse_claude_response_nonempty text0) as (c & f & -> & Hne).
      destruct (PrimFloat.ltb f 0.5).
      + exists MessageClassifier.s_review, f, (called w0).
        split; [reflexivity|discriminate].
      + exists c, f, (called w0). split; [reflexivity|assumption]. }
  destruct (Hpair (Z.to_nat 3) 0 w) as (c & f & w' & E' & Hne).
  rewrite E in E'. injection E' as -> <-.
  exists c, f, w1. auto.
Qed.

(** The duplicate check returns a string after at most three calls; the
    string is not empty when the candidate is not and no stored category
    lower-cases like the empty string. *)
Lemma check_duplicate_category_run (new_category : str)
    (existing : list str) (w : world) :
  exists s w1,
    MessageClassifier._check_duplicate_category env new_category existing w
    = (Ok (VStr s), w1) /\
    same_db w w1 /\
    (api_calls w <= api_calls w1 <= api_calls w + 3)%nat /\
    (new_category <> [] ->
     ~ In (lower env []) (map (lower env) existing) -> s <> []).
Proof.
  unfold MessageClassifier._check_duplicate_category.
  destruct existing as [|e existing].
  { exists new_category, w. repeat split; auto; lia. }
  unfold MessageClassifier._call_claude_with_retry.
  set (prompt := MessageClassifier.duplicate_prompt _ new_category).
  set (parser := MessageClassifier.parse_duplicate_response env new_category
                   (e :: existing)).
  destruct (retry_loop_run env prompt parser
              MessageClassifier.s_duplicate_check 50 3 (Z.to_nat 3) 0 w)
    as (v & w1 & waits & E & Hdb & Hc & _).
  assert (Hstr : forall n attempt w0, exists s w',
    MessageClassifier.retry_loop env n attempt prompt parser
      MessageClassifier.s_duplicate_check 50 3 w0 = (Ok (VStr s), w') /\
    (new_category <> [] ->
     ~ In (lower env []) (map (lower env) (e :: existing)) -> s <> [])).
  { induction n as [|n IH]; intros attempt w0.
    - exists MessageClassifier.s_general, w0.
      split; [reflexivity|]. intros _ _. discriminate.
    - rewrite retry_loop_step.
      assert (Herr : exists s w',
        classifier_on_error env prompt parser
          MessageClassifier.s_duplicate_check 50 3 n attempt (called w0)
        = (Ok (VStr s), w') /\
        (new_category <> [] ->
         ~ In (lower env []) (map (lower env) (e :: existing)) -> s <> [])).
      { unfold classifier_on_error. destruct (attempt <? 3 - 1).
        - apply IH.
        - exists MessageClassifier.s_general, (called w0).
          split; [reflexivity|]. intros _ _. discriminate. }
      destruct (api env (api_calls w0) prompt 50);
        [ | apply IH | exact Herr | exact Herr ].
      change (str_eqb MessageClassifier.s_duplicate_check
                      MessageClassifier.s_classification) with false.
      cbv iota. unfold parser, MessageClassifier.parse_duplicate_response.
      destruct (str_in (lower env (strip text))
                       (map (lower env) (e :: existing))) eqn:Hin.
      + exists (strip text), (called w0). split; [reflexivity|].
        intros _ Hno Hempty. rewrite Hempty in Hin.
        apply str_in_In in Hin. contradiction.
      + exists new_category, (called w0). split; [reflexivity|]. auto. }
  destruct (Hstr (Z.to_nat 3) 0 w) as (s & w' & E' & Hne).
  rewrite E in E'. injection E' as -> <-.
  exists s, w1. auto.
Qed.

(** [classify_message] on a clean connection, in every case: the store is
    not written; the call raises only when the category query fails, and
    then before any API call; otherwise it returns after at most six API
    calls. *)
Lemma classify_message_cases (text : str) (w : world) r w' :
  clean w ->
  MessageClassifier.classify_message env text w = (r, w') ->
  clean w' /\ committed w' = committed w /\
  (api_calls w <= api_calls w' <= api_calls w + 6)%nat /\
  ((r = Raise StorageUnavailable /\ same_net w w' /\
    exists n, db_fault env n = true) \/
   (exists c f, r = Ok (c, f) /\
      (~ In (lower env []) (map (lower env) (categories (committed w))) ->
       c <> []))).
Proof.
  intros Hc. unfold MessageClassifier.classify_message, bind.
  destruct (Database.get_existing_categories env w) as [r0 w0] eqn:E0.
  destruct (get_existing_categories_read_only env w r0 w0 Hc E0)
    as (Hc0 & Hk0 & [Ha0 Hs0] & [-> | [-> Hf]]).
  2:{ intros [= <- <-]. unfold same_net. repeat split; auto; lia. }
  set (existing := order_by (name_leb env) (categories (committed w))).
  assert (Hexist : ~ In (lower env [])
                        (map (lower env) (categories (committed w))) ->
                   ~ In (lower env []) (map (lower env) existing)).
  { intros Hno Hin. apply Hno.
    apply (Permutation_in _
             (Permutation_map (lower env) (order_by_perm (name_leb env) _))
             Hin). }
  destruct (MessageClassifier.truthy
              (MessageClassifier._simple_category_match env text existing))
    eqn:Hmatch.
  { unfold ret. intros [= <- <-]. repeat split; auto; try lia. right.
    destruct (MessageClassifier._simple_category_match env text existing)
      as [[|x c]|]; try discriminate.
    exists (x :: c), 1.0%float. split; [reflexivity|]. intros _. discriminate. }
  destruct (classify_with_claude_run text existing w0)
    as (c & f & w1 & -> & Hne & (Hw1 & Hk1 & Ho1) & Hcalls1).
  simpl.
  assert (Hc1 : clean w1) by (unfold clean in *; congruence).
  destruct (str_in (lower env c) (map (lower env) existing)); simpl.
  { intros [= <- <-]. repeat split; auto; try congruence; try lia.
    right. exists c, f. auto. }
  destruct (check_duplicate_category_run c existing w1)
    as (s & w2 & -> & (Hw2 & Hk2 & Ho2) & Hcalls2 & Hne2).
  simpl. intros [= <- <-].
  repeat split; try (unfold clean in *; congruence); try lia.
  right. exists s, f. split; [reflexivity|]. intros Hno.
  apply Hne2; auto.
Qed.

End ClassifierRunFacts.

(** X8: [classify_message] never writes to the store.  On a connection
    with no pending work, whatever the API answers and whether or not the
    category query fails, the committed tables afterwards are the ones
    before, no work is left pending, and at most six API calls were
    made. *)
Theorem classify_message_never_writes (env : Env) (text : str) (w : world)
    r w' :
  clean w ->
  MessageClassifier.classify_message env text w = (r, w') ->
  committed w' = committed w /\ clean w' /\
  (api_calls w <= api_calls w' <= api_calls w + 6)%nat.
Proof.
  intros Hc E.
  destruct (classify_message_cases env text w r w' Hc E)
    as (Hc' & Hk & Hcalls & _).
  auto.
Qed.

Lemma classify_message_never_writes_witness :
  clean Runs.tech_store /\
  committed (snd (MessageClassifier.classify_message
                    (Sample.env_of [Runs.answer_tech;
                                    Response (lit "Technology")]
                                   Sample.never_fails)
                    (lit "New phones and laptops") Runs.tech_store))
  = committed Runs.tech_store.
Proof.
  split; [reflexivity|].
  refine (proj1 (classify_message_never_writes
           (Sample.env_of [Runs.answer_tech; Response (lit "Technology")]
                          Sample.never_fails)
           (lit "New phones and laptops") Runs.tech_store _ _ _ _)).
  - reflexivity.
  - apply surjective_pairing.
Defined.

(** X9: failures of the API never make [classify_message] fail.  On a
    working connection it returns a category and a confidence whatever
    the API does; and when it does raise, the exception is the storage
    failure of the category query, raised before any API call or
    sleep. *)
Theorem classify_message_survives_api_failures (env : Env) (text : str)
    (w : world) :
  clean w ->
  ((forall n, db_fault env n = false) ->
   exists c f w',
     MessageClassifier.classify_message env text w = (Ok (c, f), w')) /\
  (forall e w',
     MessageClassifier.classify_message env text w = (Raise e, w') ->
     e = StorageUnavailable /\ same_net w w').
Proof.
  intros Hc. split.
  - intros Hnf.
    destruct (MessageClassifier.classify_message env text w) as [r w'] eqn:E.
    destruct (classify_message_cases env text w r w' Hc E)
      as (_ & _ & _ & [(_ & _ & n & Hn) | (c & f & -> & _)]).
    + rewrite Hnf in Hn. discriminate.
    + eauto.
  - intros e w' E.
    destruct (classify_message_cases env text w _ w' Hc E)
      as (_ & _ & _ & [(He & Hnet & _) | (c & f & He & _)]);
      [|discriminate He].
    injection He as ->. auto.
Qed.

Lemma classify_message_survives_api_failures_witness :
  clean Runs.tech_store /\
  exists c f w',
    MessageClassifier.classify_message Runs.quiet_env Runs.healthcare_text
      Runs.tech_store = (Ok (c, f), w').
Proof.
  split; [reflexivity|].
  apply (proj1 (classify_message_survives_api_failures Runs.quiet_env
                  Runs.healthcare_text Runs.tech_store eq_refl)).
  intros n. reflexivity.
Defined.

(** X10: [classify_message] never returns the empty string as a category,
    provided no stored category lower-cases to the lower-case form of the
    empty string. *)
Theorem classify_message_category_nonempty (env : Env) (text : str)
    (w w' : world) (c : str) (f : float) :
  clean w ->
  ~ In (lower env []) (map (lower env) (categories (committed w))) ->
  MessageClassifier.classify_message env text w = (Ok (c, f), w') ->
  c <> [].
Proof.
  intros Hc Hno E.
  destruct (classify_message_cases env text w _ w' Hc E)
    as (_ & _ & _ & [(He & _) | (c' & f' & He & Hne)]); [discriminate He|].
  injection He as -> ->. now apply Hne.
Qed.

Lemma classify_message_category_nonempty_witness :
  fst (match MessageClassifier.classify_message
               (Sample.env_of [Response []; Response []] Sample.never_fails)
               Runs.healthcare_text Runs.tech_store with
       | (Ok cf, _) => cf
       | (Raise _, _) => ([], 0%float)
       end) <> [].
Proof.
  apply (classify_message_category_nonempty
           (Sample.env_of [Response []; Response []] Sample.never_fails)
           Runs.healthcare_text Runs.tech_store
           (called (called (ticks 2 Runs.tech_store)))
           _ 0.5%float).
  - reflexivity.
  - vm_compute. intros [H | []]. discriminate H.
  - vm_compute. reflexivity.
Defined.

(** X11: with an empty category table and a working category query,
    [classify_message] returns exactly what the classification wrapper
    returns: there is no simple match and no duplicate check, and at most
    three API calls are made. *)
Theorem classify_message_empty_store (env : Env) (text : str) (w : world) :
  categories (working w) = [] ->
  db_fault env (db_ops w) = false ->
  db_fault env (S (db_ops w)) = false ->
  exists c f w1,
    MessageClassifier._classify_with_claude env text [] (ticks 2 w)
    = (Ok (VPair c f), w1) /\
    MessageClassifier.classify_message env text w = (Ok (c, f), w1) /\
    (api_calls w1 <= api_calls w + 3)%nat.
Proof.
  intros Hempty Hf0 Hf1.
  assert (Hget : Database.get_existing_categories env w = (Ok [], ticks 2 w)).
  { unfold Database.get_existing_categories, Database.get_cursor, bind,
      read_tables, ret, db_step, ticks.
    rewrite Hf0. simpl. rewrite Hf1. simpl. now rewrite Hempty. }
  destruct (classify_with_claude_run env text [] (ticks 2 w))
    as (c & f & w1 & E & _ & _ & Hcalls).
  exists c, f, w1. split; [exact E|]. split; [|simpl in Hcalls; lia].
  rewrite (classify_message_llm_path env text w (ticks 2 w) w1 [] c f
             Hget eq_refl E).
  reflexivity.
Qed.

Lemma classify_message_empty_store_witness :
  exists c f w1,
    MessageClassifier._classify_with_claude
      (Sample.env_of [Runs.answer_tech] Sample.never_fails)
      Runs.healthcare_text [] (ticks 2 (Sample.store_of [] [] 1))
    = (Ok (VPair c f), w1) /\
    MessageClassifier.classify_message
      (Sample.env_of [Runs.answer_tech] Sample.never_fails)
      Runs.healthcare_text (Sample.store_of [] [] 1) = (Ok (c, f), w1) /\
    (api_calls w1 <= api_calls (Sample.store_of [] [] 1) + 3)%nat.
Proof.
  apply (classify_message_empty_store
           (Sample.env_of [Runs.answer_tech] Sample.never_fails)
           Runs.healthcare_text (Sample.store_of [] [] 1));
    reflexivity.
Defined.

(** X12: an answer in which no line, once stripped, starts with one of
    the two labels parses to the defaults: category general, confidence
    0.5. *)
Theorem parse_claude_response_malformed (env : Env) (response_text : str) :
  (forall line, In line (split_on nl (strip response_text)) ->
     startswith (strip line) MessageClassifier.s_Category = false /\
     startswith (strip line) MessageClassifier.s_Confidence = false) ->
  MessageClassifier._parse_claude_response env response_text
  = VPair MessageClassifier.s_general 0.5%float.
Proof.
  intros H. unfold MessageClassifier._parse_claude_response.
  assert (Hlines : forall lines category confidence,
    (forall line, In line lines ->
       startswith (strip line) MessageClassifier.s_Category = false /\
       startswith (strip line) MessageClassifier.s_Confidence = false) ->
    MessageClassifier.parse_lines env lines category confidence
    = Some (category, confidence)).
  { induction lines as [|l lines IH]; intros category confidence Hl;
      simpl; [reflexivity|].
    destruct (Hl l (or_introl eq_refl)) as [-> ->].
    apply IH. intros line Hin. apply Hl. now right. }
  rewrite (Hlines _ None 0.5%float H). reflexivity.
Qed.

Lemma parse_claude_response_malformed_witness :
  MessageClassifier._parse_claude_response Runs.quiet_env
    (lit "Invalid response format")
  = VPair MessageClassifier.s_general 0.5%float.
Proof.
  apply (parse_claude_response_malformed Runs.quiet_env
           (lit "Invalid response format")).
  intros line Hin. vm_compute in Hin. destruct Hin as [<- | []].
  split; reflexivity.
Defined.

(** X13: [_simple_category_match] finds nothing exactly when no category
    of the list occurs, lower-cased, in the lower-cased text; and what it
    finds is a category of the list that does occur. *)
Theorem simple_category_match_sound_complete (env : Env) (text : str)
    (categories : list str) :
  (MessageClassifier._simple_category_match env text categories = None <->
   forall x, In x categories ->
     contains (lower env text) (lower env x) = false) /\
  (forall c,
     MessageClassifier._simple_category_match env text categories = Some c ->
     In c categories /\ contains (lower env text) (lower env c) = true).
Proof.
  induction categories as [|x l [IHn IHs]]; simpl.
  - split; [split; [intros _ y [] | reflexivity] | discriminate].
  - destruct (contains (lower env text) (lower env x)) eqn:Hx.
    + split.
      * split; [discriminate|]. intros H.
        rewrite (H x (or_introl eq_refl)) in Hx. discriminate.
      * intros c [= <-]. auto.
    + split.
      * rewrite IHn. split.
        -- intros H y [<- | Hy]; auto.
        -- intros H y Hy. apply H. now right.
      * intros c Hc. destruct (IHs c Hc). auto.
Qed.

(* ================================================================= *)
(** ** Further properties: the store *)

Section StoreFacts.
Variable env : Env.

Lemma known_self (c : str) (rows : list str) :
  In c rows -> known env c rows = true.
Proof.
  intros Hin. unfold known. apply orb_true_iff. left.
  apply existsb_exists. exists c. split; [assumption | apply str_eqb_refl].
Qed.

(** X14: [add_category] answers [True] exactly when it has added a row.
    On a connection with no pending work, an answer of [True] means the
    committed category table is the old one with the name appended; any
    other outcome ([False] or a failure) leaves it as it was.  The
    messages and the identifier sequence are never touched. *)
Theorem add_category_true_iff_added (c : str) (w : world) r w' :
  clean w ->
  Database.add_category env c w = (r, w') ->
  (r = Ok true ->
   categories (committed w') = categories (committed w) ++ [c] /\
   ~ In c (categories (committed w))) /\
  (r <> Ok true -> categories (committed w') = categories (committed w)) /\
  messages (committed w') = messages (committed w) /\
  next_id (committed w') = next_id (committed w).
Proof.
  intros Hc E.
  destruct (add_category_cases env c w r w' Hc E)
    as (_ & _ & [(-> & -> & _) | [(-> & -> & _) | (-> & Hk & ->)]]);
    simpl; (split; [|split; [|split]]); auto; try discriminate;
    try congruence.
  intros _. split; [reflexivity|].
  intros Hin. rewrite (known_self c _ Hin) in Hk. discriminate.
Qed.

(** X15: insert then look up.  After [add_category] has answered [True]
    for a name, [category_exists] for that name answers [True], the name
    is in the list of [get_existing_categories], and a second
    [add_category] of it answers [False] and changes nothing (each unless
    the connection fails). *)
Theorem add_category_then_lookup (c : str) (w w1 : world) :
  clean w ->
  Database.add_category env c w = (Ok true, w1) ->
  (forall r w2, Database.category_exists env c w1 = (r, w2) ->
     r = Ok true \/ r = Raise StorageUnavailable) /\
  (forall r w2, Database.get_existing_categories env w1 = (r, w2) ->
     (exists l, r = Ok l /\ In c l) \/ r = Raise StorageUnavailable) /\
  (forall r w2, Database.add_category env c w1 = (r, w2) ->
     (r = Ok false \/ r = Raise StorageUnavailable) /\
     committed w2 = committed w1).
Proof.
  intros Hc E.
  destruct (add_category_cases env c w _ w1 Hc E)
    as (Hc1 & _ & [(He & _) | [(He & _) | (_ & _ & Hk1)]]);
    try discriminate He.
  assert (Hin : In c (categories (committed w1))).
  { rewrite Hk1. simpl. apply in_or_app. right. now left. }
  split; [|split].
  - intros r w2 E2.
    destruct (category_exists_read_only env c w1 r w2 Hc1 E2)
      as (_ & _ & _ & [-> | [-> _]]); [left|now right].
    f_equal. apply existsb_exists. exists c.
    split; [assumption | apply str_eqb_refl].
  - intros r w2 E2.
    destruct (get_existing_categories_read_only env w1 r w2 Hc1 E2)
      as (_ & _ & _ & [-> | [-> _]]); [left|now right].
    eexists. split; [reflexivity|]. now apply order_by_In.
  - intros r w2 E2.
    destruct (add_category_cases env c w1 r w2 Hc1 E2)
      as (_ & _ & [(-> & -> & _) | [(-> & -> & _) | (_ & Hk & _)]]);
      auto.
    rewrite (known_self c _ Hin) in Hk. discriminate.
Qed.

Lemma duplicate_of_false (l s : str) (t : tables) :
  duplicate_of l s t = false ->
  ~ In l (map msg_telegram_link (messages t)) /\
  ~ In s (map msg_summary (messages t)).
Proof.
  unfold duplicate_of. intros H.
  split; intros Hin; apply in_map_iff in Hin as (m & Hm & Hin);
    assert (existsb (fun m => str_eqb (msg_telegram_link m) l
                              || str_eqb (msg_summary m) s)
                    (messages t) = true) as Hx;
    try congruence;
    apply existsb_exists; exists m; (split; [assumption|]);
    subst; rewrite str_eqb_refl; auto using orb_true_r.
Qed.

(** X16: [save_message] keeps the messages unique.  If no two committed
    messages share a link and no two share a summary, the same holds
    after any call, successful or not. *)
Theorem save_message_keeps_messages_unique (url : option str) (l s c : str)
    (w : world) r w' :
  clean w ->
  messages_unique (committed w) ->
  Database.save_message env url l s c w = (r, w') ->
  messages_unique (committed w').
Proof.
  intros Hc [Hl Hs] E. unfold messages_unique.
  destruct (save_message_cases env url l s c w r w' Hc E)
    as (_ & _ & _ & [(_ & -> & _) | [(_ & _ & -> & _) | (_ & Hd & -> & _)]]);
    auto.
  destruct (duplicate_of_false l s _ Hd) as [Hnl Hns].
  rewrite !map_app. simpl.
  split; (apply NoDup_app; [assumption | repeat constructor; simpl; tauto |]);
    intros x Hx [<- | []]; contradiction.
Qed.

(** X17: identifiers are fresh.  If every committed identifier lies below
    the next value of the sequence, then so it is after any call of
    [save_message]; the sequence never goes back; and an identifier that
    the call returns is the next value, which no earlier message has. *)
Theorem save_message_fresh_identifier (url : option str) (l s c : str)
    (w : world) r w' :
  clean w ->
  ids_below_next (committed w) ->
  Database.save_message env url l s c w = (r, w') ->
  ids_below_next (committed w') /\
  next_id (committed w) <= next_id (committed w') /\
  (forall id, r = Ok (Some id) ->
     id = next_id (committed w) /\
     ~ In id (map msg_id (messages (committed w)))).
Proof.
  intros Hc Hids E. unfold ids_below_next in *.
  assert (Hfresh : ~ In (next_id (committed w))
                        (map msg_id (messages (committed w)))).
  { intros Hin. apply in_map_iff in Hin as (m & Hm & Hin).
    rewrite Forall_forall in Hids. specialize (Hids m Hin). lia. }
  destruct (save_message_cases env url l s c w r w' Hc E)
    as (_ & _ & _ & [(-> & -> & Hi & _) | [(-> & _ & -> & ->) |
                                          (-> & _ & -> & ->)]]).
  - split; [|split; [lia | discriminate]].
    eapply Forall_impl; [|exact Hids]. simpl. intros m Hm. lia.
  - repeat split; auto; try lia; congruence.
  - split; [|split; [lia|]].
    + apply Forall_app. split.
      * eapply Forall_impl; [|exact Hids]. simpl. intros m Hm. lia.
      * repeat constructor. simpl. lia.
    + intros id [= <-]. auto.
Qed.

End StoreFacts.

Lemma add_category_true_iff_added_witness :
  clean (Sample.store_of [news] [] 1) /\
  categories (committed
    (snd (Database.add_category Runs.quiet_env technology
            (Sample.store_of [news] [] 1))))
  = categories (committed (Sample.store_of [news] [] 1)) ++ [technology].
Proof.
  split; [reflexivity|].
  refine (proj1 (proj1 (add_category_true_iff_added Runs.quiet_env technology
                          (Sample.store_of [news] [] 1) (Ok true) _ _ _) _)).
  - reflexivity.
  - vm_compute. reflexivity.
  - reflexivity.
Defined.

Lemma add_category_then_lookup_witness :
  Database.category_exists Runs.quiet_env technology
    (snd (Database.add_category Runs.quiet_env technology
            (Sample.store_of [news] [] 1)))
  = (Ok true,
     snd (Database.category_exists Runs.quiet_env technology
            (snd (Database.add_category Runs.quiet_env technology
                    (Sample.store_of [news] [] 1))))).
Proof.
  destruct (proj1 (add_category_then_lookup Runs.quiet_env technology
                     (Sample.store_of [news] [] 1)
                     (snd (Database.add_category Runs.quiet_env technology
                             (Sample.store_of [news] [] 1)))
                     eq_refl eq_refl) _ _ (surjective_pairing _)) as [H | H].
  - rewrite <- H. apply surjective_pairing.
  - vm_compute in H. discriminate H.
Defined.

Lemma save_message_keeps_messages_unique_witness :
  messages_unique
    (committed
       (snd (Database.save_message Runs.quiet_env None
               (lit "https://t.me/c/1/8") (lit "Second summary") news
               (Sample.store_of [news]
                  [mkMessage 1 None (lit "https://t.me/c/1/7")
                             (lit "First summary") news] 2)))).
Proof.
  refine (save_message_keeps_messages_unique Runs.quiet_env None (lit "https://t.me/c/1/8")
            (lit "Second summary") news
            (Sample.store_of [news]
               [mkMessage 1 None (lit "https://t.me/c/1/7")
                          (lit "First summary") news] 2) _ _ _ _ _).
  - reflexivity.
  - split; simpl; repeat constructor; simpl; tauto.
  - apply surjective_pairing.
Defined.

Lemma save_message_fresh_identifier_witness :
  ids_below_next
    (committed
       (snd (Database.save_message Runs.quiet_env None
               (lit "https://t.me/c/1/8") (lit "Second summary") news
               (Sample.store_of [news]
                  [mkMessage 1 None (lit "https://t.me/c/1/7")
                             (lit "First summary") news] 2)))).
Proof.
  refine (proj1 (save_message_fresh_identifier Runs.quiet_env None (lit "https://t.me/c/1/8")
            (lit "Second summary") news
            (Sample.store_of [news]
               [mkMessage 1 None (lit "https://t.me/c/1/7")
                          (lit "First summary") news] 2) _ _ _ _ _)).
  - reflexivity.
  - repeat constructor.
  - apply surjective_pairing.
Defined.

Ltac db_split env w :=
  destruct (db_step_cases env w) as [[? ->] | [? ->]]; simpl.

Section SavedMessageFacts.
Variable env : Env.

(** The steps of [save_message] after [add_category] never change the
    category table. *)
Lemma save_message_tail_keeps_categories (url : option str) (l s c : str)
    (w1 : world) r w' :
  clean w1 ->
  (ex <- Database._message_exists env l s ;;
   if ex then ret None
   else
     Database.get_cursor env ;;;
     message_id <- Database.insert_message env url l s c ;;
     commit env ;;;
     ret (Some message_id)) w1 = (r, w') ->
  categories (committed w') = categories (committed w1).
Proof.
  intros Hc1. unfold bind at 1.
  destruct (Database._message_exists env l s w1) as [r2 w2] eqn:E2.
  destruct (message_exists_read_only env l s w1 r2 w2 Hc1 E2)
    as (Hc2 & Hk2 & _ & [-> | [-> _]]).
  2:{ run_eq. now rewrite Hk2. }
  destruct (existsb _ (messages (committed w1))).
  { unfold ret. run_eq. now rewrite Hk2. }
  unfold Database.get_cursor, Database.insert_message, commit, bind,
    read_tables, write_tables, ret, clean in *.
  db_split env w2; [|run_eq; simpl; now rewrite Hk2].
  db_split env (ticks 1 w2); [|run_eq; simpl; now rewrite Hk2].
  unfold db_step. simpl.
  destruct (db_fault env (S (S (db_ops w2)))); run_eq; simpl;
    rewrite ?Hc2, ?Hk2; reflexivity.
Qed.

(** X18: what a successful [save_message] leaves behind.  When the call
    returns an identifier, the committed messages are the old ones
    followed by the new row with exactly the given fields; the row's
    category is known to the category table under one of the two case
    foldings; and [_message_exists] then finds the message by its link
    and by its summary. *)
Theorem save_message_saved (url : option str) (l s c : str) (w w' : world)
    (id : Z) :
  clean w ->
  Database.save_message env url l s c w = (Ok (Some id), w') ->
  messages (committed w')
  = messages (committed w) ++ [mkMessage id url l s c] /\
  known env c (categories (committed w')) = true /\
  (forall l' s' r w2,
     l' = l \/ s' = s ->
     Database._message_exists env l' s' w' = (r, w2) ->
     r = Ok true \/ r = Raise StorageUnavailable).
Proof.
  intros Hc E.
  destruct (save_message_cases env url l s c w _ w' Hc E)
    as (Hc' & _ & _ & [(He & _) | [(He & _) | (He & _ & Hm & _)]]);
    try discriminate He.
  injection He as ->.
  split; [exact Hm|]. split.
  - unfold Database.save_message in E. unfold bind at 1 in E.
    destruct (Database.add_category env c w) as [r1 w1] eqn:E1.
    destruct (add_category_cases env c w r1 w1 Hc E1)
      as (Hc1 & _ & Hcases).
    destruct r1 as [b|e]; [|discriminate E].
    rewrite (save_message_tail_keeps_categories url l s c w1 _ w' Hc1 E).
    destruct Hcases as [(He & _) | [(_ & -> & Hk) | (_ & _ & ->)]];
      [discriminate He | exact Hk |].
    apply known_self. simpl. apply in_or_app. right. now left.
  - intros l' s' r w2 Heq E2.
    destruct (message_exists_read_only env l' s' w' r w2 Hc' E2)
      as (_ & _ & _ & [-> | [-> _]]); [left|now right].
    f_equal. apply existsb_exists.
    exists (mkMessage (next_id (committed w)) url l s c). split.
    + rewrite Hm. apply in_or_app. right. now left.
    + simpl. destruct Heq as [-> | ->]; rewrite str_eqb_refl;
        auto using orb_true_r.
Qed.

End SavedMessageFacts.

Lemma save_message_saved_witness :
  messages (committed
    (snd (Database.save_message Runs.quiet_env None
            (lit "https://t.me/c/1/8") (lit "A summary") technology
            (Sample.store_of [news] [] 5))))
  = [] ++ [mkMessage 5 None (lit "https://t.me/c/1/8") (lit "A summary")
                     technology].
Proof.
  refine (proj1 (save_message_saved Runs.quiet_env None
            (lit "https://t.me/c/1/8") (lit "A summary") technology
            (Sample.store_of [news] [] 5) _ 5 _ _)).
  - reflexivity.
  - vm_compute. reflexivity.
Defined.

(* ================================================================= *)
(** ** Further properties: decimal numerals and message links *)

Lemma utf8_decode_ascii (bs : list N) :
  Forall (fun b => (b < 128)%N) bs -> utf8_decode bs 0 0%N = bs.
Proof.
  induction 1 as [|b bs Hb Hbs IH]; simpl; [reflexivity|].
  apply N.ltb_lt in Hb. now rewrite Hb, IH.
Qed.

Lemma bytes_of_string_inj (a b : string) :
  bytes_of_string a = bytes_of_string b -> a = b.
Proof.
  revert b. induction a as [|x a IH]; intros [|y b] H; simpl in H;
    try discriminate; [reflexivity|].
  injection H as Hxy Hab. f_equal; [|now apply IH].
  rewrite <- (ascii_N_embedding x), <- (ascii_N_embedding y). now rewrite Hxy.
Qed.

Lemma string_of_uint_ascii (d : Decimal.uint) :
  Forall (fun b => (b < 128)%N)
         (bytes_of_string (NilEmpty.string_of_uint d)).
Proof.
  induction d; simpl; constructor; try assumption; reflexivity.
Qed.

Lemma string_of_int_ascii (d : Decimal.int) :
  Forall (fun b => (b < 128)%N)
         (bytes_of_string (NilZero.string_of_int d)).
Proof.
  assert (Hu : forall u, Forall (fun b => (b < 128)%N)
                           (bytes_of_string (NilZero.string_of_uint u))).
  { intros u. destruct u; try apply string_of_uint_ascii.
    simpl. repeat constructor. }
  destruct d; simpl; [apply Hu|]. constructor; [reflexivity | apply Hu].
Qed.

(** [str(n)] tells the integers apart. *)
Lemma str_of_int_inj (a b : Z) :
  TextSummarizer.str_of_int a = TextSummarizer.str_of_int b -> a = b.
Proof.
  unfold TextSummarizer.str_of_int, lit. intros H.
  rewrite !utf8_decode_ascii in H by apply string_of_int_ascii.
  apply bytes_of_string_inj in H.
  assert (Hnn : forall z, Z.to_int z <> Decimal.Pos Decimal.Nil /\
                          Z.to_int z <> Decimal.Neg Decimal.Nil).
  { intros [|p|p]; simpl; split; try discriminate;
      intros [= Hp]; now apply (DecimalPos.Unsigned.to_uint_nonnil p). }
  assert (Hi : Some (Z.to_int a) = Some (Z.to_int b)).
  { rewrite <- (NilZero.isi (Z.to_int a)) by apply Hnn.
    rewrite <- (NilZero.isi (Z.to_int b)) by apply Hnn.
    now rewrite H. }
  injection Hi as Hi.
  rewrite <- (DecimalZ.of_to a), <- (DecimalZ.of_to b). now rewrite Hi.
Qed.

(** X19: within one chat, [generate_telegram_link] gives two messages the
    same link only when they have the same [message_id]: the link check
    of the store never takes two different messages of a chat for one. *)
Theorem telegram_link_injective_in_chat (m1 m2 : Bot.tg_message) :
  Bot.tg_chat_id m1 = Bot.tg_chat_id m2 ->
  Bot.generate_telegram_link m1 = Bot.generate_telegram_link m2 ->
  Bot.tg_message_id m1 = Bot.tg_message_id m2.
Proof.
  unfold Bot.generate_telegram_link. intros -> H.
  apply app_inv_head in H. apply app_inv_head in H. apply app_inv_head in H.
  now apply str_of_int_inj.
Qed.

Lemma telegram_link_injective_in_chat_witness :
  Bot.tg_message_id (Bot.mkTgMessage true false None [] (-1001234) 7)
  = Bot.tg_message_id (Bot.mkTgMessage false true None [] (-1001234) 7).
Proof.
  apply (telegram_link_injective_in_chat
           (Bot.mkTgMessage true false None [] (-1001234) 7)
           (Bot.mkTgMessage false true None [] (-1001234) 7));
    reflexivity.
Defined.

(** X20: the [-100] prefix is dropped from the chat identifier, so a
    chat whose identifier reads [-100] followed by the identifier of
    another chat gets, for equal message identifiers, the very link of
    that other chat. *)
Theorem telegram_link_collision (m1 m2 : Bot.tg_message) :
  TextSummarizer.str_of_int (Bot.tg_chat_id m1)
  = lit "-100" ++ TextSummarizer.str_of_int (Bot.tg_chat_id m2) ->
  startswith (TextSummarizer.str_of_int (Bot.tg_chat_id m2)) (lit "-100")
  = false ->
  Bot.tg_message_id m1 = Bot.tg_message_id m2 ->
  Bot.generate_telegram_link m1 = Bot.generate_telegram_link m2.
Proof.
  unfold Bot.generate_telegram_link. intros H1 H2 ->.
  rewrite H1, H2, app_startswith.
  change (skipn 4 (lit "-100" ++ ?x)) with x. reflexivity.
Qed.

Lemma telegram_link_collision_witness :
  Bot.tg_chat_id (Bot.mkTgMessage true false None [] (-100123) 7)
  <> Bot.tg_chat_id (Bot.mkTgMessage true false None [] 123 7) /\
  Bot.generate_telegram_link (Bot.mkTgMessage true false None [] (-100123) 7)
  = Bot.generate_telegram_link (Bot.mkTgMessage true false None [] 123 7).
Proof.
  split; [discriminate|].
  apply (telegram_link_collision
           (Bot.mkTgMessage true false None [] (-100123) 7)
           (Bot.mkTgMessage true false None [] 123 7)); reflexivity.
Defined.

(* ================================================================= *)
(** ** Further properties: the URL of a message *)

Lemma take_while_spec (p : N -> bool) (s : str) :
  Forall (fun c => p c = true) (Bot.take_while p s) /\
  exists rest, s = Bot.take_while p s ++ rest.
Proof.
  induction s as [|c s [IHf [rest IHr]]]; simpl.
  - split; [constructor | now exists []].
  - destruct (p c) eqn:Hc.
    + split; [now constructor|]. exists rest. simpl. now rewrite <- IHr.
    + split; [constructor | now exists (c :: s)].
Qed.

Lemma contains_of_startswith (hay needle : str) :
  startswith hay needle = true -> contains hay needle = true.
Proof.
  intros H. destruct hay; cbn [contains]; now rewrite H.
Qed.

Lemma contains_cons (c : N) (hay needle : str) :
  contains hay needle = true -> contains (c :: hay) needle = true.
Proof.
  intros H. cbn [contains]. rewrite H. apply orb_true_r.
Qed.

Lemma match_url_at_sound (s u : str) :
  Bot.match_url_at s = Some u ->
  startswith s u = true /\
  Forall (fun c => isspace c = false) u /\
  exists tail,
    tail <> [] /\
    (u = lit "https://" ++ tail \/ u = lit "http://" ++ tail).
Proof.
  unfold Bot.match_url_at.
  assert (Hafter : forall scheme,
    (scheme = lit "https://" \/ scheme = lit "http://") ->
    startswith s scheme = true ->
    match Bot.take_while (fun c => negb (isspace c))
            (skipn (List.length scheme) s) with
    | [] => None
    | c :: t => Some (scheme ++ c :: t)
    end = Some u ->
    startswith s u = true /\
    Forall (fun c => isspace c = false) u /\
    exists tail,
      tail <> [] /\
      (u = lit "https://" ++ tail \/ u = lit "http://" ++ tail)).
  { intros scheme Hscheme Hstart.
    destruct (take_while_spec (fun c => negb (isspace c))
                (skipn (List.length scheme) s)) as [Hf [rest Hrest]].
    destruct (Bot.take_while _ _) as [|c t] eqn:Htail; [discriminate|].
    intros [= <-]. split; [|split].
    - rewrite (startswith_app _ _ Hstart), Hrest, app_assoc.
      apply app_startswith.
    - apply Forall_app. split.
      + destruct Hscheme as [-> | ->]; vm_compute; repeat constructor.
      + eapply Forall_impl; [|exact Hf]. simpl. intros a Ha.
        now apply negb_true_iff.
    - exists (c :: t). split; [discriminate|].
      destruct Hscheme as [-> | ->]; auto. }
  destruct (startswith s (lit "https://")) eqn:H1.
  - apply Hafter; auto.
  - destruct (startswith s (lit "http://")) eqn:H2; [|discriminate].
    apply Hafter; auto.
Qed.

(** X21: the URL that the regular expression of [extract_url_from_message]
    finds is a piece of the text, holds no white space, and is the scheme
    [https://] or [http://] followed by at least one character. *)
Theorem find_url_sound (text u : str) :
  Bot.find_url text = Some u ->
  contains text u = true /\
  Forall (fun c => isspace c = false) u /\
  exists tail,
    tail <> [] /\
    (u = lit "https://" ++ tail \/ u = lit "http://" ++ tail).
Proof.
  induction text as [|c text IH]; cbn [Bot.find_url].
  - destruct (Bot.match_url_at []) eqn:E; [|discriminate].
    intros [= <-]. destruct (match_url_at_sound _ _ E) as (H1 & H2).
    split; [now apply contains_of_startswith | exact H2].
  - destruct (Bot.match_url_at (c :: text)) eqn:E.
    + intros [= <-]. destruct (match_url_at_sound _ _ E) as (H1 & H2).
      split; [now apply contains_of_startswith | exact H2].
    + intros H. destruct (IH H) as (H1 & H2).
      split; [|exact H2].
      change (contains (c :: text) u = true). now apply contains_cons.
Qed.

Lemma find_url_sound_witness :
  Bot.find_url (lit "Read this: https://example.com/a?b=1 and more")
  = Some (lit "https://example.com/a?b=1") /\
  contains (lit "Read this: https://example.com/a?b=1 and more")
           (lit "https://example.com/a?b=1") = true.
Proof.
  split; [vm_compute; reflexivity|].
  apply (find_url_sound
           (lit "Read this: https://example.com/a?b=1 and more")
           (lit "https://example.com/a?b=1")).
  vm_compute. reflexivity.
Defined.

(* ================================================================= *)
(** ** Further properties: the message handler *)

(** The URL that [extract_url_from_message] yields for a text and its
    entities. *)
Lemma extract_url_from_message_text (message : Bot.tg_message) (text : str)
    (w : world) :
  Bot.tg_text message = Some text ->
  Bot.extract_url_from_message message w
  = (Ok match Bot.first_url_entity text (Bot.tg_entities message) with
        | Some u => Some u
        | None => Bot.find_url text
        end, w).
Proof.
  intros H. unfold Bot.extract_url_from_message. rewrite H.
  destruct (Bot.first_url_entity text (Bot.tg_entities message)); reflexivity.
Qed.

Section HandlerFacts.
Variable env : Env.

(** The [try] block of the handler on a message with text, in every
    case. *)
Lemma process_message_cases (message : Bot.tg_message) (text : str)
    (w : world) r w' :
  Bot.tg_text message = Some text ->
  clean w ->
  next_id (committed w) <> 0 ->
  Bot.process_message env message text w = (r, w') ->
  clean w' /\
  (api_calls w <= api_calls w' <= api_calls w + 9)%nat /\
  exists summary w0,
    TextSummarizer.summarize_text env text 200 w = (Ok summary, w0) /\
    ((r = Raise StorageUnavailable /\
      messages (committed w') = messages (committed w) /\
      exists n, db_fault env n = true) \/
     (r = Ok Bot.duplicate_reply /\
      messages (committed w') = messages (committed w) /\
      duplicate_of (Bot.generate_telegram_link message) summary (committed w)
      = true) \/
     (exists category,
        r = Ok (Bot.success_reply summary category
                  match Bot.first_url_entity text (Bot.tg_entities message)
                  with
                  | Some u => Some u
                  | None => Bot.find_url text
                  end) /\
        duplicate_of (Bot.generate_telegram_link message) summary
                     (committed w) = false /\
        messages (committed w')
        = messages (committed w)
          ++ [mkMessage (next_id (committed w))
                match Bot.first_url_entity text (Bot.tg_entities message)
                with
                | Some u => Some u
                | None => Bot.find_url text
                end
                (Bot.generate_telegram_link message) summary category])).
Proof.
  intros Htext Hc Hid. unfold Bot.process_message, bind.
  rewrite (extract_url_from_message_text message text w Htext).
  set (url := match Bot.first_url_entity text (Bot.tg_entities message) with
              | Some u => Some u
              | None => Bot.find_url text
              end).
  destruct (summarize_text_run env text 200 w ltac:(lia))
    as (summary & w0 & E0 & _ & (Hw0 & Hk0 & Ho0) & Hcalls0).
  rewrite E0.
  assert (Hc0 : clean w0) by (unfold clean in *; congruence).
  destruct (MessageClassifier.classify_message env text w0) as [r1 w1] eqn:E1.
  destruct (classify_message_cases env text w0 r1 w1 Hc0 E1)
    as (Hc1 & Hk1 & Hcalls1 & Hcases1).
  destruct Hcases1 as [(-> & _ & Hf) | (category & f & -> & _)].
  { intros [= <- <-]. split; [assumption|]. split; [lia|].
    exists summary, w0. split; [reflexivity|]. left.
    repeat split; auto; congruence. }
  destruct (Database.save_message env url (Bot.generate_telegram_link message)
              summary category w1) as [r2 w2] eqn:E2.
  destruct (save_message_cases env url _ summary category w1 r2 w2 Hc1 E2)
    as (Hc2 & [Ha2 _] & _ & Hcases2).
  assert (Hdup : forall l s,
            duplicate_of l s (committed w1) = duplicate_of l s (committed w))
    by (intros; unfold duplicate_of; congruence).
  destruct Hcases2 as [(-> & Hm & _ & Hf) | [(-> & Hd & Hm & _) |
                                             (-> & Hd & Hm & _)]].
  - intros [= <- <-]. split; [assumption|]. split; [lia|].
    exists summary, w0. split; [reflexivity|]. left.
    repeat split; auto; congruence.
  - unfold ret. intros [= <- <-]. split; [assumption|]. split; [lia|].
    exists summary, w0. split; [reflexivity|]. right. left.
    rewrite <- Hdup. repeat split; auto; congruence.
  - assert (Hnz : (next_id (committed w1) =? 0) = false)
      by (apply Z.eqb_neq; congruence).
    rewrite Hnz. unfold ret. intros [= <- <-].
    split; [assumption|]. split; [lia|].
    exists summary, w0. split; [reflexivity|]. right. right.
    exists category. split; [reflexivity|].
    split; [rewrite <- Hdup; exact Hd|]. rewrite Hm. congruence.
Qed.

(** A forwarded message with text: the work of the [try] block, then the
    replies. *)
Lemma handler_valid_run (reply_fault : nat -> bool)
    (message : Bot.tg_message) (c : N) (t : str) (w : world)
    (ch : Bot.chat) r w' :
  Bot.tg_forward_from message || Bot.tg_forward_from_chat message = true ->
  Bot.tg_text message = Some (c :: t) ->
  Bot.process_message env message (c :: t) w = (r, w') ->
  Bot.handle_forwarded_message env reply_fault message (w, ch)
  = match r with
    | Ok reply =>
        if reply_fault (Bot.reply_calls ch)
        then Bot.reply_text reply_fault Bot.error_reply
               (w', Bot.mkChat (Bot.sent ch) (S (Bot.reply_calls ch)))
        else (Ok tt, (w', Bot.mkChat (Bot.sent ch ++ [reply])
                                     (S (Bot.reply_calls ch))))
    | Raise _ => Bot.reply_text reply_fault Bot.error_reply (w', ch)
    end.
Proof.
  intros Hfwd Htext E.
  unfold Bot.handle_forwarded_message, Bot.try_except, Bot.hbind, Bot.lift.
  rewrite Hfwd, Htext. cbn [negb fst snd]. rewrite E.
  destruct r as [reply|e]; [|reflexivity].
  unfold Bot.reply_text at 1. cbn [fst snd].
  destruct (reply_fault (Bot.reply_calls ch)); reflexivity.
Qed.

(** X22: a message that is not forwarded, or has no text, or an empty
    text, is dropped: the handler returns, and the world and the chat
    are as before (no reply, no API call, no query, no sleep). *)
Theorem handler_drops_invalid_message (reply_fault : nat -> bool)
    (message : Bot.tg_message) (w : world) (ch : Bot.chat) :
  Bot.tg_forward_from message || Bot.tg_forward_from_chat message = false \/
  Bot.tg_text message = None \/ Bot.tg_text message = Some [] ->
  Bot.handle_forwarded_message env reply_fault message (w, ch)
  = (Ok tt, (w, ch)).
Proof.
  unfold Bot.handle_forwarded_message.
  intros [H | [H | H]].
  - now rewrite H.
  - rewrite H. destruct (negb _); reflexivity.
  - rewrite H. destruct (negb _); reflexivity.
Qed.

(** X23: the three outcomes of a valid message whose reply Telegram
    accepts.  For a forwarded message with text, on a connection with no
    pending work and an identifier sequence not at zero, when the next
    [reply_text] call does not fail, the handler returns after at most
    nine API calls and exactly one reply is delivered.  Either it is the
    error notice, a round trip to the store has failed and no message
    row is committed; or it is the duplicate notice, a stored message
    already has the link or the summary, and no row is committed; or it
    is the success reply, no stored message has the link or the summary,
    and the row it describes is committed last. *)
Theorem handler_outcomes (reply_fault : nat -> bool)
    (message : Bot.tg_message) (c : N) (t : str) (w : world)
    (ch : Bot.chat) :
  Bot.tg_forward_from message || Bot.tg_forward_from_chat message = true ->
  Bot.tg_text message = Some (c :: t) ->
  clean w ->
  next_id (committed w) <> 0 ->
  reply_fault (Bot.reply_calls ch) = false ->
  exists reply w' summary w0,
    Bot.handle_forwarded_message env reply_fault message (w, ch)
    = (Ok tt, (w', Bot.mkChat (Bot.sent ch ++ [reply])
                              (S (Bot.reply_calls ch)))) /\
    clean w' /\
    (api_calls w <= api_calls w' <= api_calls w + 9)%nat /\
    TextSummarizer.summarize_text env (c :: t) 200 w = (Ok summary, w0) /\
    ((reply = Bot.error_reply /\
      messages (committed w') = messages (committed w) /\
      exists n, db_fault env n = true) \/
     (reply = Bot.duplicate_reply /\
      messages (committed w') = messages (committed w) /\
      duplicate_of (Bot.generate_telegram_link message) summary (committed w)
      = true) \/
     (exists category,
        reply = Bot.success_reply summary category
                  match Bot.first_url_entity (c :: t)
                          (Bot.tg_entities message) with
                  | Some u => Some u
                  | None => Bot.find_url (c :: t)
                  end /\
        duplicate_of (Bot.generate_telegram_link message) summary
                     (committed w) = false /\
        messages (committed w')
        = messages (committed w)
          ++ [mkMessage (next_id (committed w))
                match Bot.first_url_entity (c :: t)
                        (Bot.tg_entities message) with
                | Some u => Some u
                | None => Bot.find_url (c :: t)
                end
                (Bot.generate_telegram_link message) summary category])).
Proof.
  intros Hfwd Htext Hc Hid Hrf.
  destruct (Bot.process_message env message (c :: t) w) as [r w'] eqn:E.
  rewrite (handler_valid_run reply_fault message c t w ch r w' Hfwd Htext E).
  destruct (process_message_cases message (c :: t) w r w' Htext Hc Hid E)
    as (Hc' & Hcalls & summary & w0 & Es & Hcases).
  destruct Hcases as [(-> & Hm & Hf) | [(-> & Hm & Hd) |
                                        (cat & -> & Hd & Hm)]].
  - exists Bot.error_reply, w', summary, w0.
    unfold Bot.reply_text. cbn [fst snd]. rewrite Hrf.
    split; [reflexivity|]. split; [assumption|]. split; [assumption|].
    split; [assumption|]. left. split; [reflexivity|]. split; assumption.
  - exists Bot.duplicate_reply, w', summary, w0. rewrite Hrf.
    split; [reflexivity|]. split; [assumption|]. split; [assumption|].
    split; [assumption|]. right. left. split; [reflexivity|].
    split; assumption.
  - eexists _, w', summary, w0. rewrite Hrf.
    split; [reflexivity|]. split; [assumption|]. split; [assumption|].
    split; [assumption|]. right. right. exists cat. auto.
Qed.

(** X24: a forwarded message whose link is already stored gets the
    duplicate notice and changes no message row, on a working connection,
    when Telegram accepts the reply and whatever the API answers:
    forwarding the same message twice stores it once. *)
Theorem handler_same_message_twice (reply_fault : nat -> bool)
    (message : Bot.tg_message) (c : N) (t : str) (w : world)
    (ch : Bot.chat) :
  Bot.tg_forward_from message || Bot.tg_forward_from_chat message = true ->
  Bot.tg_text message = Some (c :: t) ->
  clean w ->
  next_id (committed w) <> 0 ->
  (forall n, db_fault env n = false) ->
  reply_fault (Bot.reply_calls ch) = false ->
  (exists m, In m (messages (committed w)) /\
             msg_telegram_link m = Bot.generate_telegram_link message) ->
  exists w',
    Bot.handle_forwarded_message env reply_fault message (w, ch)
    = (Ok tt, (w', Bot.mkChat (Bot.sent ch ++ [Bot.duplicate_reply])
                              (S (Bot.reply_calls ch)))) /\
    messages (committed w') = messages (committed w).
Proof.
  intros Hfwd Htext Hc Hid Hnf Hrf (m & Hin & Hlink).
  destruct (Bot.process_message env message (c :: t) w) as [r w'] eqn:E.
  rewrite (handler_valid_run reply_fault message c t w ch r w' Hfwd Htext E).
  destruct (process_message_cases message (c :: t) w r w' Htext Hc Hid E)
    as (_ & _ & summary & w0 & _ & Hcases).
  destruct Hcases as [(_ & _ & n & Hn) | [(-> & Hm & _) |
                                          (cat & _ & Hd & _)]].
  - rewrite Hnf in Hn. discriminate.
  - exists w'. rewrite Hrf. auto.
  - rewrite duplicate_of_true in Hd; [discriminate|].
    exists m. auto.
Qed.

(** X29: when the reply fails.  For a forwarded message with text, on a
    working connection with no pending work and an identifier sequence
    not at zero, when the [reply_text] call of the [try] block raises,
    the work on the store is already done: the message is a duplicate
    and no row is committed, or its row is committed.  The handler then
    sends the error notice; if that call is accepted, the error notice
    is the only text delivered, also for a message that was saved; if it
    fails too, nothing is delivered and the exception leaves the
    handler. *)
Theorem handler_reply_failure (reply_fault : nat -> bool)
    (message : Bot.tg_message) (c : N) (t : str) (w : world)
    (ch : Bot.chat) :
  Bot.tg_forward_from message || Bot.tg_forward_from_chat message = true ->
  Bot.tg_text message = Some (c :: t) ->
  clean w ->
  next_id (committed w) <> 0 ->
  (forall n, db_fault env n = false) ->
  reply_fault (Bot.reply_calls ch) = true ->
  exists w' summary w0,
    TextSummarizer.summarize_text env (c :: t) 200 w = (Ok summary, w0) /\
    clean w' /\
    Bot.handle_forwarded_message env reply_fault message (w, ch)
    = (if reply_fault (S (Bot.reply_calls ch))
       then (Raise TelegramError,
             (w', Bot.mkChat (Bot.sent ch) (S (S (Bot.reply_calls ch)))))
       else (Ok tt,
             (w', Bot.mkChat (Bot.sent ch ++ [Bot.error_reply])
                             (S (S (Bot.reply_calls ch)))))) /\
    ((duplicate_of (Bot.generate_telegram_link message) summary (committed w)
      = true /\
      messages (committed w') = messages (committed w)) \/
     (duplicate_of (Bot.generate_telegram_link message) summary (committed w)
      = false /\
      exists category,
        messages (committed w')
        = messages (committed w)
          ++ [mkMessage (next_id (committed w))
                match Bot.first_url_entity (c :: t)
                        (Bot.tg_entities message) with
                | Some u => Some u
                | None => Bot.find_url (c :: t)
                end
                (Bot.generate_telegram_link message) summary category])).
Proof.
  intros Hfwd Htext Hc Hid Hnf Hrf.
  destruct (Bot.process_message env message (c :: t) w) as [r w'] eqn:E.
  rewrite (handler_valid_run reply_fault message c t w ch r w' Hfwd Htext E).
  destruct (process_message_cases message (c :: t) w r w' Htext Hc Hid E)
    as (Hc' & _ & summary & w0 & Es & Hcases).
  exists w', summary, w0. split; [exact Es|]. split; [exact Hc'|].
  destruct Hcases as [(_ & _ & n & Hn) | [(-> & Hm & Hd) |
                                          (cat & -> & Hd & Hm)]].
  - rewrite Hnf in Hn. discriminate.
  - rewrite Hrf. unfold Bot.reply_text. cbn [fst snd Bot.reply_calls Bot.sent].
    split; [reflexivity|]. left. auto.
  - rewrite Hrf. unfold Bot.reply_text. cbn [fst snd Bot.reply_calls Bot.sent].
    split; [reflexivity|]. right. split; [exact Hd|]. exists cat. exact Hm.
Qed.

End HandlerFacts.

Lemma handler_drops_invalid_message_witness :
  Bot.handle_forwarded_message Runs.quiet_env Sample.never_fails
    (Bot.mkTgMessage false false (Some (lit "Not a forward")) [] 42 7)
    (Runs.tech_store, Bot.mkChat [] 0)
  = (Ok tt, (Runs.tech_store, Bot.mkChat [] 0)).
Proof.
  apply (handler_drops_invalid_message Runs.quiet_env Sample.never_fails
           (Bot.mkTgMessage false false (Some (lit "Not a forward")) [] 42 7)
           Runs.tech_store (Bot.mkChat [] 0)).
  left. reflexivity.
Defined.

Lemma handler_outcomes_witness :
  exists reply w',
    Bot.handle_forwarded_message Runs.quiet_env Sample.never_fails
      (Bot.mkTgMessage false true
         (Some (lit "Read https://example.org/a today")) []
         (-1001234) 8)
      (Sample.store_of [news] [] 5, Bot.mkChat [] 0)
    = (Ok tt, (w', Bot.mkChat [reply] 1)) /\
    (api_calls w' <= 9)%nat.
Proof.
  destruct (handler_outcomes Runs.quiet_env Sample.never_fails
              (Bot.mkTgMessage false true
                 (Some (lit "Read https://example.org/a today")) []
                 (-1001234) 8)
              82%N (lit "ead https://example.org/a today")
              (Sample.store_of [news] [] 5) (Bot.mkChat [] 0))
    as (reply & w' & _ & _ & E & _ & Hcalls & _).
  - reflexivity.
  - vm_compute. reflexivity.
  - reflexivity.
  - vm_compute. discriminate.
  - reflexivity.
  - exists reply, w'. split; [exact E | exact (proj2 Hcalls)].
Defined.

Lemma handler_same_message_twice_witness :
  exists w',
    Bot.handle_forwarded_message Runs.quiet_env Sample.never_fails
      (Bot.mkTgMessage false true
         (Some (lit "Read https://example.org/a today")) []
         (-1001234) 8)
      (Sample.store_of [news]
         [mkMessage 5 None (lit "https://t.me/c/1234/8") (lit "Earlier")
                    news] 6,
       Bot.mkChat [] 0)
    = (Ok tt, (w', Bot.mkChat [Bot.duplicate_reply] 1)) /\
    messages (committed w')
    = [mkMessage 5 None (lit "https://t.me/c/1234/8") (lit "Earlier") news].
Proof.
  apply (handler_same_message_twice Runs.quiet_env Sample.never_fails
           (Bot.mkTgMessage false true
              (Some (lit "Read https://example.org/a today")) []
              (-1001234) 8)
           82%N (lit "ead https://example.org/a today")
           (Sample.store_of [news]
              [mkMessage 5 None (lit "https://t.me/c/1234/8") (lit "Earlier")
                         news] 6)
           (Bot.mkChat [] 0)).
  - reflexivity.
  - vm_compute. reflexivity.
  - reflexivity.
  - vm_compute. discriminate.
  - reflexivity.
  - reflexivity.
  - eexists. split; [left; reflexivity | vm_compute; reflexivity].
Defined.

(** A message that is saved while the user is told of an error: the
    first [reply_text] call fails, the second is accepted. *)
Lemma handler_reply_failure_witness :
  exists w',
    Bot.handle_forwarded_message Runs.quiet_env (Sample.fails_at 0)
      (Bot.mkTgMessage false true
         (Some (lit "Read https://example.org/a today")) []
         (-1001234) 8)
      (Sample.store_of [news] [] 5, Bot.mkChat [] 0)
    = (Ok tt, (w', Bot.mkChat [Bot.error_reply] 2)) /\
    List.length (messages (committed w')) = 1%nat.
Proof.
  destruct (handler_reply_failure Runs.quiet_env (Sample.fails_at 0)
              (Bot.mkTgMessage false true
                 (Some (lit "Read https://example.org/a today")) []
                 (-1001234) 8)
              82%N (lit "ead https://example.org/a today")
              (Sample.store_of [news] [] 5) (Bot.mkChat [] 0))
    as (w' & summary & w0 & _ & _ & E & Hstore).
  - reflexivity.
  - vm_compute. reflexivity.
  - reflexivity.
  - vm_compute. discriminate.
  - reflexivity.
  - reflexivity.
  - exists w'. split; [exact E|].
    destruct Hstore as [(Hd & _) | (_ & cat & ->)]; [discriminate Hd|].
    reflexivity.
Defined.

(** X25: the three replies are three different texts, so the reply tells
    the outcome. *)
Theorem replies_distinct (summary category : str) (source_url : option str) :
  Bot.success_reply summary category source_url <> Bot.duplicate_reply /\
  Bot.success_reply summary category source_url <> Bot.error_reply /\
  Bot.duplicate_reply <> Bot.error_reply.
Proof.
  assert (Hhead : exists rest,
            Bot.success_reply summary category source_url
            = 8218%N :: 250%N :: rest).
  { unfold Bot.success_reply. eexists. vm_compute. reflexivity. }
  destruct Hhead as (rest & ->).
  repeat split; vm_compute; discriminate.
Qed.

(* ================================================================= *)
(** ** Further properties: waiting for the database *)

Section WaitFacts.
Variable env : Env.

Lemma wait_loop_connects (n k : nat) : forall w,
  (k < n)%nat ->
  (forall j, (j < k)%nat -> db_fault env (db_ops w + j) = true) ->
  db_fault env (db_ops w + k) = false ->
  InitDb.wait_loop env n w
  = (Ok true, mkWorld (working w) (committed w) (db_ops w + k + 1)
                      (api_calls w) (sleeps w ++ repeat 2 k)).
Proof.
  revert k. induction n as [|n IH]; intros k w Hk Hbefore Hat; [lia|].
  cbn [InitDb.wait_loop]. unfold bind, seq, ret, InitDb.connect_attempt.
  destruct k as [|k].
  - rewrite Nat.add_0_r in Hat. rewrite Hat. cbn.
    rewrite app_nil_r. f_equal; f_equal; lia.
  - assert (H0 : db_fault env (db_ops w) = true)
      by (rewrite <- (Nat.add_0_r (db_ops w)); apply Hbefore; lia).
    rewrite H0. cbn [negb]. unfold sleep. cbv beta iota.
    rewrite (IH k); cbn [db_ops working committed api_calls sleeps].
    + rewrite <- app_assoc. cbn [app repeat]. f_equal; f_equal; lia.
    + lia.
    + intros j Hj. replace (S (db_ops w) + j)%nat
        with (db_ops w + S j)%nat by lia. apply Hbefore. lia.
    + replace (S (db_ops w) + k)%nat with (db_ops w + S k)%nat by lia.
      exact Hat.
Qed.

Lemma wait_loop_exhausted (n : nat) : forall w,
  (forall j, (j < n)%nat -> db_fault env (db_ops w + j) = true) ->
  InitDb.wait_loop env n w
  = (Ok false, mkWorld (working w) (committed w) (db_ops w + n)
                       (api_calls w) (sleeps w ++ repeat 2 n)).
Proof.
  induction n as [|n IH]; intros w Hall.
  - cbn. rewrite app_nil_r, Nat.add_0_r. now destruct w.
  - cbn [InitDb.wait_loop]. unfold bind, seq, ret, InitDb.connect_attempt.
    assert (H0 : db_fault env (db_ops w) = true)
      by (rewrite <- (Nat.add_0_r (db_ops w)); apply Hall; lia).
    rewrite H0. cbn [negb]. unfold sleep. cbv beta iota.
    rewrite IH; cbn [db_ops working committed api_calls sleeps].
    + rewrite <- app_assoc. cbn [app repeat]. f_equal; f_equal; lia.
    + intros j Hj. replace (S (db_ops w) + j)%nat
        with (db_ops w + S j)%nat by lia. apply Hall. lia.
Qed.

(** The first attempt that connects among the [n] next ones, if any. *)
Lemma first_connect (n : nat) (base : nat) :
  (forall j, (j < n)%nat -> db_fault env (base + j) = true) \/
  exists k, (k < n)%nat /\
            (forall j, (j < k)%nat -> db_fault env (base + j) = true) /\
            db_fault env (base + k) = false.
Proof.
  induction n as [|n IH].
  - left. intros j Hj. lia.
  - destruct IH as [Hall | (k & Hk & Hb & Hat)].
    + destruct (db_fault env (base + n)) eqn:E.
      * left. intros j Hj. destruct (Nat.eq_dec j n) as [->|]; [exact E|].
        apply Hall. lia.
      * right. exists n. auto.
    + right. exists k. split; [lia | auto].
Qed.

(** X26: [wait_for_postgres] returns [True] at the first attempt that
    connects, when it is among the first thirty: after [k] failed
    attempts it has slept [k] times two seconds and made [k + 1]
    attempts. *)
Theorem wait_for_postgres_connects (k : nat) (w : world) :
  (k < 30)%nat ->
  (forall j, (j < k)%nat -> db_fault env (db_ops w + j) = true) ->
  db_fault env (db_ops w + k) = false ->
  InitDb.wait_for_postgres env w
  = (Ok true, mkWorld (working w) (committed w) (db_ops w + k + 1)
                      (api_calls w) (sleeps w ++ repeat 2 k)).
Proof. apply wait_loop_connects. Qed.

(** X27: when the first thirty attempts all fail, [wait_for_postgres]
    returns [False] after exactly thirty attempts and thirty sleeps of
    two seconds, the last one after the last attempt. *)
Theorem wait_for_postgres_gives_up (w : world) :
  (forall j, (j < 30)%nat -> db_fault env (db_ops w + j) = true) ->
  InitDb.wait_for_postgres env w
  = (Ok false, mkWorld (working w) (committed w) (db_ops w + 30)
                       (api_calls w) (sleeps w ++ repeat 2 30)).
Proof. apply wait_loop_exhausted. Qed.

(** X28: [wait_for_postgres] never raises and leaves the tables and the
    API alone; it makes between one and thirty attempts, sleeps two
    seconds after each failed one, and returns [True] exactly when the
    last attempt connected. *)
Theorem wait_for_postgres_total (w : world) :
  exists (b : bool) (attempts : nat),
    InitDb.wait_for_postgres env w
    = (Ok b, mkWorld (working w) (committed w) (db_ops w + attempts)
                     (api_calls w)
                     (sleeps w
                      ++ repeat 2 (if b then attempts - 1 else attempts))) /\
    (1 <= attempts <= 30)%nat /\
    b = negb (db_fault env (db_ops w + attempts - 1)) /\
    (b = false -> attempts = 30%nat).
Proof.
  destruct (first_connect 30 (db_ops w)) as [Hall | (k & Hk & Hb & Hat)].
  - exists false, 30%nat. rewrite (wait_loop_exhausted 30 w Hall : InitDb.wait_for_postgres env w = _).
    split; [reflexivity|]. split; [lia|]. split; [|reflexivity].
    replace (db_ops w + 30 - 1)%nat with (db_ops w + 29)%nat by lia.
    rewrite Hall by lia. reflexivity.
  - exists true, (S k).
    rewrite (wait_loop_connects 30 k w Hk Hb Hat
             : InitDb.wait_for_postgres env w = _).
    split; [|split; [lia|split; [|discriminate]]].
    + replace (S k - 1)%nat with k by lia. f_equal; f_equal; lia.
    + replace (db_ops w + S k - 1)%nat with (db_ops w + k)%nat by lia.
      now rewrite Hat.
Qed.

End WaitFacts.

Lemma wait_for_postgres_connects_witness :
  InitDb.wait_for_postgres
    (Sample.env_of [] (fun n => Nat.ltb n 3)) Runs.tech_store
  = (Ok true, mkWorld (working Runs.tech_store) (committed Runs.tech_store)
                      (db_ops Runs.tech_store + 3 + 1)
                      (api_calls Runs.tech_store)
                      (sleeps Runs.tech_store ++ repeat 2 3)).
Proof.
  apply (wait_for_postgres_connects
           (Sample.env_of [] (fun n => Nat.ltb n 3)) 3 Runs.tech_store).
  - lia.
  - intros j Hj. simpl. apply Nat.ltb_lt. exact Hj.
  - reflexivity.
Defined.

Lemma wait_for_postgres_gives_up_witness :
  InitDb.wait_for_postgres
    (Sample.env_of [] (fun _ => true)) Runs.tech_store
  = (Ok false, mkWorld (working Runs.tech_store) (committed Runs.tech_store)
                       (db_ops Runs.tech_store + 30)
                       (api_calls Runs.tech_store)
                       (sleeps Runs.tech_store ++ repeat 2 30)).
Proof.
  apply (wait_for_postgres_gives_up
           (Sample.env_of [] (fun _ => true)) Runs.tech_store).
  intros j Hj. reflexivity.
Defined.
